(** * my-agent: the MCP stdio client, the ReAct loop and history compression

    A shallow embedding of
    - [MCPClient] (mcp-client.ts): request ids, the pending-request maps,
      the stdout line buffer, timeouts, [connectServer]/[connectAll];
    - [Agent.chat] / [Agent.handleToolCalls] (chat.ts);
    - [ChatCompressService] (chat-compress-service.ts).

    Conventions.  A JavaScript string is held as the UTF-8 encoding of its
    text in a Rocq [string] (so the literals below read as in the source);
    [js_length] gives the number of UTF-16 code units, which is what
    [.length] returns.  A [Buffer] is a [list byte].  The runtime functions
    [JSON.parse] and [JSON.stringify] are parameters of the development. *)

From Stdlib Require Import ZArith Lia Ascii String List Sorted.
From Stdlib.Strings Require Import Byte.
From stdpp Require Import gmap strings list sorting pretty.

Set Warnings "-register-all".


Local Open Scope Z_scope.

(** ** A thrown [Error], or a value *)

Inductive Result (E A : Type) : Type :=
| Ok (a : A)
| Throw (e : E).
Arguments Ok {E A} a.
Arguments Throw {E A} e.

(** ** The JavaScript runtime: strings, buffers and JSON values *)

Module JS.

(** *** [String.prototype.split('\n')] *)

Definition newline : ascii := "010"%char.

(** [s.split('\n')]: never empty; the last element is the text after the
    last newline. *)
Fixpoint split_newline (s : string) : list string :=
  match s with
  | EmptyString => [EmptyString]
  | String c rest =>
      let ls := split_newline rest in
      if Ascii.eqb c newline then EmptyString :: ls
      else match ls with
           | l :: ls' => String c l :: ls'
           | [] => [String c EmptyString]
           end
  end.

(** [lines.pop()]: the array without its last element, and that element. *)
Definition pop (ls : list string) : list string * option string :=
  (removelast ls, last ls).

(** [x || ''] for a string or [undefined]. *)
Definition or_empty (x : option string) : string :=
  match x with
  | Some s => s
  | None => EmptyString
  end.

(** *** [length]: UTF-16 code units of the text a UTF-8 string encodes *)

Definition code_units_of_byte (c : ascii) : nat :=
  let n := N_of_ascii c in
  if (n <? 128)%N then 1%nat        (* ASCII *)
  else if (n <? 192)%N then 0%nat   (* continuation byte *)
  else if (n <? 240)%N then 1%nat   (* lead of a 2- or 3-byte character *)
  else 2%nat.                       (* lead of a 4-byte one: a surrogate pair *)

Fixpoint js_length (s : string) : nat :=
  match s with
  | EmptyString => 0%nat
  | String c rest => (code_units_of_byte c + js_length rest)%nat
  end.

(** *** [String.prototype.trim] *)

(** The white space and line terminators of ECMAScript, UTF-8 encoded:
    U+0009..U+000D, U+0020, U+00A0, U+1680, U+2000..U+200A, U+2028, U+2029,
    U+202F, U+205F, U+3000, U+FEFF. *)
Definition bytes (l : list N) : string :=
  string_of_list_ascii (map ascii_of_N l).

Definition white_space : list string :=
  map bytes
    ([ [9]; [10]; [11]; [12]; [13]; [32]; [194; 160]; [225; 154; 128];
       [226; 128; 128]; [226; 128; 129]; [226; 128; 130]; [226; 128; 131];
       [226; 128; 132]; [226; 128; 133]; [226; 128; 134]; [226; 128; 135];
       [226; 128; 136]; [226; 128; 137]; [226; 128; 138];
       [226; 128; 168]; [226; 128; 169]; [226; 128; 175]; [226; 129; 159];
       [227; 128; 128]; [239; 187; 191] ])%N.

(** [drop_prefix p s]: [s] without its prefix [p], when it has it. *)
Fixpoint drop_prefix (p s : string) : option string :=
  match p, s with
  | EmptyString, _ => Some s
  | String a p', String b s' => if Ascii.eqb a b then drop_prefix p' s' else None
  | String _ _, EmptyString => None
  end.

Fixpoint drop_any (toks : list string) (s : string) : option string :=
  match toks with
  | [] => None
  | t :: toks' =>
      match drop_prefix t s with
      | Some r => Some r
      | None => drop_any toks' s
      end
  end.

Fixpoint drop_while (toks : list string) (fuel : nat) (s : string) : string :=
  match fuel with
  | O => s
  | S fuel' =>
      match drop_any toks s with
      | Some r => drop_while toks fuel' r
      | None => s
      end
  end.

Definition string_rev (s : string) : string :=
  string_of_list_ascii (rev (list_ascii_of_string s)).

Definition trimStart (s : string) : string :=
  drop_while white_space (String.length s) s.

Definition trimEnd (s : string) : string :=
  string_rev (drop_while (map string_rev white_space) (String.length s) (string_rev s)).

Definition trim (s : string) : string := trimEnd (trimStart s).

(** *** [Buffer.prototype.toString()]: UTF-8 decoding *)

Definition Buffer := list byte.

(** U+FFFD, the replacement character. *)
Definition replacement : string := bytes [239; 191; 189]%N.

Definition in_range (lo hi : N) (b : byte) : bool :=
  ((lo <=? Byte.to_N b) && (Byte.to_N b <=? hi))%N.

Definition chr (b : byte) : ascii := ascii_of_byte b.

(** Decoding replaces every ill-formed sequence by U+FFFD (one per maximal
    subpart) and keeps every well-formed character. *)
Fixpoint toString (data : Buffer) : string :=
  match data with
  | [] => EmptyString
  | b :: rest =>
      if in_range 0 127 b then String (chr b) (toString rest)
      else if in_range 194 223 b then
        match rest with
        | c :: r1 =>
            if in_range 128 191 c then String (chr b) (String (chr c) (toString r1))
            else replacement +:+ toString rest
        | [] => replacement
        end
      else if in_range 224 239 b then
        let lo := if in_range 224 224 b then 160%N else 128%N in
        let hi := if in_range 237 237 b then 159%N else 191%N in
        match rest with
        | c :: r1 =>
            if in_range lo hi c then
              match r1 with
              | d :: r2 =>
                  if in_range 128 191 d
                  then String (chr b) (String (chr c) (String (chr d) (toString r2)))
                  else replacement +:+ toString r1
              | [] => replacement
              end
            else replacement +:+ toString rest
        | [] => replacement
        end
      else if in_range 240 244 b then
        let lo := if in_range 240 240 b then 144%N else 128%N in
        let hi := if in_range 244 244 b then 143%N else 191%N in
        match rest with
        | c :: r1 =>
            if in_range lo hi c then
              match r1 with
              | d :: r2 =>
                  if in_range 128 191 d then
                    match r2 with
                    | e :: r3 =>
                        if in_range 128 191 e
                        then String (chr b) (String (chr c) (String (chr d)
                               (String (chr e) (toString r3))))
                        else replacement +:+ toString r2
                    | [] => replacement
                    end
                  else replacement +:+ toString r1
              | [] => replacement
              end
            else replacement +:+ toString rest
        | [] => replacement
        end
      else replacement +:+ toString rest
  end.

(** The bytes of a string, for writing buffers down. *)
Definition buffer_of (s : string) : Buffer := list_byte_of_string s.

(** *** Lines, and buffers of whole characters *)

(** The complete lines of a text and the partial line after them: what
    [handleServerData] loops over and what it keeps in the buffer. *)
Definition complete (s : string) : list string := (pop (split_newline s)).1.
Definition partial (s : string) : string := or_empty (pop (split_newline s)).2.

(** A buffer that holds whole characters only: it ends, and every chunk
    before it ended, between two characters of well-formed UTF-8. *)
Inductive well_formed : Buffer -> Prop :=
| wf_nil : well_formed []
| wf_one b rest :
    in_range 0 127 b = true -> well_formed rest -> well_formed (b :: rest)
| wf_two b c rest :
    in_range 194 223 b = true -> in_range 128 191 c = true ->
    well_formed rest -> well_formed (b :: c :: rest)
| wf_three b c d rest :
    in_range 224 239 b = true ->
    in_range (if in_range 224 224 b then 160 else 128)
             (if in_range 237 237 b then 159 else 191) c = true ->
    in_range 128 191 d = true ->
    well_formed rest -> well_formed (b :: c :: d :: rest)
| wf_four b c d e rest :
    in_range 240 244 b = true ->
    in_range (if in_range 240 240 b then 144 else 128)
             (if in_range 244 244 b then 143 else 191) c = true ->
    in_range 128 191 d = true -> in_range 128 191 e = true ->
    well_formed rest -> well_formed (b :: c :: d :: e :: rest).

(** The decoded chunks, one after the other. *)
Definition decoded (chunks : list Buffer) : string :=
  foldr (fun d acc => toString d +:+ acc) EmptyString chunks.

(** *** JSON values *)

(** What [JSON.parse] returns.  [JNum z] is a number with an integral value,
    [JFrac n d] one whose value [n/d] is not integral.  An object lists its
    own properties, each key once. *)
Inductive Json : Type :=
| JNull
| JBool (b : bool)
| JNum (z : Z)
| JFrac (num : Z) (den : positive)
| JStr (s : string)
| JArr (items : list Json)
| JObj (fields : list (string * Json)).

(** A value or [undefined]. *)
Definition Value := option Json.
Definition undefined : Value := None.

Fixpoint assoc (key : string) (fields : list (string * Json)) : Value :=
  match fields with
  | [] => undefined
  | (k, v) :: fields' => if String.eqb k key then Some v else assoc key fields'
  end.

(** [v.key] for [v] other than [null] and [undefined]: an own property of
    an object, [undefined] on anything else (no prototype carries the
    property names used here). *)
Definition prop (v : Json) (key : string) : Value :=
  match v with
  | JObj fields => assoc key fields
  | _ => undefined
  end.

(** ToBoolean. *)
Definition truthy (v : Value) : bool :=
  match v with
  | None => false
  | Some JNull => false
  | Some (JBool b) => b
  | Some (JNum z) => negb (z =? 0)
  | Some (JFrac _ _) => true
  | Some (JStr s) => negb (String.eqb s EmptyString)
  | Some (JArr _) => true
  | Some (JObj _) => true
  end.

(** *** Thrown values

    A [catch] block of the program reads one thing of the value it caught,
    its [message]; a thrown value is what that read does: it yields a value
    ([undefined] when the value has no such property), or it throws in turn
    (a [TypeError] when the value is [null] or [undefined]). *)
Inductive Thrown : Type :=
| thrown (message : Result Thrown Value).

(** [error.message]. *)
Definition read_message (error : Thrown) : Result Thrown Value :=
  match error with
  | thrown message => message
  end.

(** [new Error(message)], and the errors of the runtime (the texts are
    those of V8). *)
Definition error (message : string) : Thrown := thrown (Ok (Some (JStr message))).

Definition thrown_null : Thrown :=
  thrown (Throw (error "Cannot read properties of null (reading 'message')")).

Definition thrown_undefined : Thrown :=
  thrown (Throw (error "Cannot read properties of undefined (reading 'message')")).

Definition cannot_convert : Thrown := error "Cannot convert object to primitive value".

(** *** String conversion

    [`${v}`] for a value [JSON.parse] returned.  An object is converted by
    its [toString]: [Object.prototype.toString] gives [[object Object]],
    but an object that has an own property of that name, which is never
    callable in a JSON value, cannot be converted
    ([Object.prototype.valueOf] returns the object itself) and the
    conversion throws a [TypeError].  An array is joined with commas, its
    elements converted in turn, [null] to the empty text. *)
Fixpoint converts (v : Json) : bool :=
  match v with
  | JObj fields =>
      match assoc "toString" fields with
      | Some _ => false
      | None => true
      end
  | JArr items => forallb converts items
  | _ => true
  end.

Definition converts_value (v : Value) : bool :=
  match v with
  | Some j => converts j
  | None => true
  end.

Section Conversion.

(** [Number.prototype.toString] of a number. *)
Variable number_text : Json -> string.

Fixpoint text (v : Json) : string :=
  match v with
  | JNull => "null"
  | JBool true => "true"
  | JBool false => "false"
  | JNum _ | JFrac _ _ => number_text v
  | JStr s => s
  | JArr items =>
      (fix join_items (l : list Json) : string :=
         match l with
         | [] => EmptyString
         | x :: l' =>
             let element := match x with
                            | JNull => EmptyString
                            | _ => text x
                            end in
             match l' with
             | [] => element
             | _ :: _ => element +:+ "," +:+ join_items l'
             end
         end) items
  | JObj _ => "[object Object]"
  end.

(** ToString: the text, or the [TypeError] thrown. *)
Definition ToString (v : Value) : Result Thrown string :=
  match v with
  | None => Ok "undefined"
  | Some j => if converts j then Ok (text j) else Throw cannot_convert
  end.

End Conversion.

(** *** A reference [JSON.parse] for the worked examples

    [parse] reads the JSON texts that use no escape sequence in a string,
    no fraction or exponent in a number and no integer beyond 2^53 (those a
    double holds exactly), and agrees with [JSON.parse] on them; every
    other text it refuses, also where [JSON.parse] would not.  It is what
    the closed examples below pass for the [JSON_parse] parameter, on texts
    it reads; the theorems hold for every [JSON_parse]. *)

Definition is_json_space (c : ascii) : bool :=
  let n := N_of_ascii c in
  ((n =? 32) || (n =? 9) || (n =? 10) || (n =? 13))%N.

Fixpoint skip_space (s : string) : string :=
  match s with
  | String c rest => if is_json_space c then skip_space rest else s
  | EmptyString => s
  end.

Definition is_digit (c : ascii) : bool :=
  let n := N_of_ascii c in ((48 <=? n) && (n <=? 57))%N.

Definition digit_value (c : ascii) : Z := Z.of_N (N_of_ascii c) - 48.

(** The digits at the head of [s], as a number continuing [acc]. *)
Fixpoint digits (acc : Z) (s : string) : Z * string :=
  match s with
  | String c rest =>
      if is_digit c then digits (10 * acc + digit_value c) rest else (acc, s)
  | EmptyString => (acc, s)
  end.

(** After the digits of an integer nothing of a fraction or exponent. *)
Definition ends_number (s : string) : bool :=
  match s with
  | String c _ =>
      negb (Ascii.eqb c "."%char || Ascii.eqb c "e"%char || Ascii.eqb c "E"%char)
  | EmptyString => true
  end.

Definition natural (s : string) : option (Z * string) :=
  match s with
  | String c rest =>
      if Ascii.eqb c "0"%char then
        match rest with
        | String d _ => if is_digit d then None else
                          if ends_number rest then Some (0, rest) else None
        | EmptyString => Some (0, rest)
        end
      else if is_digit c then
        let '(n, rest') := digits 0 s in
        if ends_number rest' && (n <=? 2 ^ 53) then Some (n, rest') else None
      else None
  | EmptyString => None
  end.

Definition quote : ascii := "034"%char.
Definition backslash : ascii := "092"%char.

(** The characters up to the closing quote. *)
Fixpoint string_body (s : string) : option (string * string) :=
  match s with
  | String c rest =>
      if Ascii.eqb c quote then Some (EmptyString, rest)
      else if Ascii.eqb c backslash then None
      else if (N_of_ascii c <? 32)%N then None
      else match string_body rest with
           | Some (body, rest') => Some (String c body, rest')
           | None => None
           end
  | EmptyString => None
  end.

(** [o[k] = v] while an object literal is read: a repeated key keeps its
    place and takes the later value. *)
Fixpoint set_field (k : string) (v : Json) (fields : list (string * Json))
    : list (string * Json) :=
  match fields with
  | [] => [(k, v)]
  | (k', v') :: fields' =>
      if String.eqb k' k then (k', v) :: fields'
      else (k', v') :: set_field k v fields'
  end.

Fixpoint value (fuel : nat) (s : string) : option (Json * string) :=
  match fuel with
  | O => None
  | S fuel' =>
      match skip_space s with
      | String c rest =>
          if Ascii.eqb c "{"%char then
            match skip_space rest with
            | String d rest' =>
                if Ascii.eqb d "}"%char then Some (JObj [], rest')
                else members fuel' [] (String d rest')
            | EmptyString => None
            end
          else if Ascii.eqb c "["%char then
            match skip_space rest with
            | String d rest' =>
                if Ascii.eqb d "]"%char then Some (JArr [], rest')
                else elements fuel' [] (String d rest')
            | EmptyString => None
            end
          else if Ascii.eqb c quote then
            match string_body rest with
            | Some (body, rest') => Some (JStr body, rest')
            | None => None
            end
          else if Ascii.eqb c "-"%char then
            match natural rest with
            | Some (n, rest') => Some (JNum (- n), rest')
            | None => None
            end
          else if is_digit c then
            match natural (String c rest) with
            | Some (n, rest') => Some (JNum n, rest')
            | None => None
            end
          else
            match drop_prefix "true" (String c rest) with
            | Some rest' => Some (JBool true, rest')
            | None =>
                match drop_prefix "false" (String c rest) with
                | Some rest' => Some (JBool false, rest')
                | None =>
                    match drop_prefix "null" (String c rest) with
                    | Some rest' => Some (JNull, rest')
                    | None => None
                    end
                end
            end
      | EmptyString => None
      end
  end

with elements (fuel : nat) (acc : list Json) (s : string)
    : option (Json * string) :=
  match fuel with
  | O => None
  | S fuel' =>
      match value fuel' s with
      | Some (v, rest) =>
          match skip_space rest with
          | String c rest' =>
              if Ascii.eqb c ","%char then elements fuel' (acc ++ [v]) rest'
              else if Ascii.eqb c "]"%char then Some (JArr (acc ++ [v]), rest')
              else None
          | EmptyString => None
          end
      | None => None
      end
  end

with members (fuel : nat) (acc : list (string * Json)) (s : string)
    : option (Json * string) :=
  match fuel with
  | O => None
  | S fuel' =>
      match skip_space s with
      | String q rest =>
          if Ascii.eqb q quote then
            match string_body rest with
            | Some (key, rest1) =>
                match skip_space rest1 with
                | String c rest2 =>
                    if Ascii.eqb c ":"%char then
                      match value fuel' rest2 with
                      | Some (v, rest3) =>
                          match skip_space rest3 with
                          | String d rest4 =>
                              if Ascii.eqb d ","%char
                              then members fuel' (set_field key v acc) rest4
                              else if Ascii.eqb d "}"%char
                              then Some (JObj (set_field key v acc), rest4)
                              else None
                          | EmptyString => None
                          end
                      | None => None
                      end
                    else None
                | EmptyString => None
                end
            | None => None
            end
          else None
      | EmptyString => None
      end
  end.

(** JSON texts are written below with ['] for the double quote. *)
Fixpoint json_text (s : string) : string :=
  match s with
  | String c rest =>
      String (if Ascii.eqb c "'"%char then quote else c) (json_text rest)
  | EmptyString => EmptyString
  end.

Definition parse (s : string) : Result string Json :=
  match value (S (String.length s)) s with
  | Some (v, rest) =>
      match skip_space rest with
      | EmptyString => Ok v
      | String _ _ => Throw "SyntaxError"
      end
  | None => Throw "SyntaxError"
  end.

End JS.

(** ** The MCP client (mcp-client.ts) *)

Module Mcp.
Import JS.

(** The [Error]s the client creates, by the template of their message.
    [McpError] keeps the value read from [response.error.message]; the
    message is the text [MCP error: ] followed by its string conversion
    (the value itself for a string, as [JsonRpcResponse] types it).  The
    error is created only if that conversion does not throw, see [outcome]. *)
Inductive JsError : Type :=
| NotInConfig (name : string)              (* MCP server "name" not found in config *)
| NotConnected (serverName : string)       (* MCP server "serverName" is not connected *)
| RequestTimeout (method serverName : string) (* MCP request timeout: method (serverName) *)
| McpError (message : Value)               (* MCP error: ${response.error.message} *)
| ServerDisconnected                       (* Server disconnected *)
| StartFailed (message : string)           (* Failed to start MCP server: message *)
| Native (message : string).               (* an error of the runtime, e.g. spawn ENOENT *)

(** How a promise was settled: a call of its [resolve] or of its [reject]. *)
Inductive Settlement : Type :=
| Resolved (value : Value)
| Rejected (reason : JsError).

(** A line written to the subprocess's standard input (before
    [JSON.stringify]). *)
Inductive Written : Type :=
| Request (id : Z) (method : string) (params : Json)
| Notification (method : string) (params : Json).

(** The events the client emits; an [error] payload stands for the
    [message] of the error. *)
Inductive Event : Type :=
| EvNotification (server : string) (data : Json)
| EvServerLog (server message : string)
| EvServerExit (server : string) (code : Z)
| EvServerError (server : string) (error : JsError)
| EvServerReady (server : string) (tools : Value).

(** An entry of [pendingRequests]: [{ resolve, reject, timer }].  The two
    closures belong to the promise [sendRequest] created; a promise is
    named by the id of the request it was created for, and so is the timer. *)
Record Pending : Type := mkPending {
  promise : Z;
  timer : Z
}.

(** [ServerConnection].  The child process is its standard input (the
    lines written so far, whether [end()] was called) and whether it was
    sent SIGKILL. *)
Record ServerConnection : Type := mkConnection {
  tools : Json;
  ready : bool;
  pendingRequests : gmap Z Pending;
  buffer : string;
  stdin : list Written;
  stdin_ended : bool;
  killed : bool
}.

(** The closure [sendRequest] hands to [setTimeout]: it holds the
    connection object (not its name), the id and the two names. *)
Record TimerCallback : Type := mkTimer {
  tc_connection : nat;
  tc_method : string;
  tc_server : string
}.

(** [MCPClient].  [objects] is the store of [ServerConnection] objects by
    address, [connections] the client's map from server name to object,
    [timers] the armed timeouts by request id, [settled] the calls of
    [resolve]/[reject] and [events] the emitted events, both latest first.
    [mcpServers] is the loaded configuration, in [Object.keys] order.
    [requestId] is an integer without bound (the counter of the source is a
    double, exact up to 2^53 requests). *)
Record MCPClient : Type := mkClient {
  mcpServers : list string;
  objects : gmap nat ServerConnection;
  connections : gmap string nat;
  requestId : Z;
  timers : gmap Z TimerCallback;
  settled : list (Z * Settlement);
  events : list Event
}.

Definition new_client (servers : list string) : MCPClient :=
  {| mcpServers := servers; objects := ∅; connections := ∅; requestId := 0;
     timers := ∅; settled := []; events := [] |}.

(** *** Field updates *)

Definition set_objects (f : gmap nat ServerConnection -> gmap nat ServerConnection)
    (c : MCPClient) : MCPClient :=
  {| mcpServers := mcpServers c; objects := f (objects c);
     connections := connections c; requestId := requestId c;
     timers := timers c; settled := settled c; events := events c |}.

Definition set_connections (f : gmap string nat -> gmap string nat)
    (c : MCPClient) : MCPClient :=
  {| mcpServers := mcpServers c; objects := objects c;
     connections := f (connections c); requestId := requestId c;
     timers := timers c; settled := settled c; events := events c |}.

Definition set_requestId (id : Z) (c : MCPClient) : MCPClient :=
  {| mcpServers := mcpServers c; objects := objects c;
     connections := connections c; requestId := id;
     timers := timers c; settled := settled c; events := events c |}.

Definition set_timers (f : gmap Z TimerCallback -> gmap Z TimerCallback)
    (c : MCPClient) : MCPClient :=
  {| mcpServers := mcpServers c; objects := objects c;
     connections := connections c; requestId := requestId c;
     timers := f (timers c); settled := settled c; events := events c |}.

(** A call of [resolve] or [reject] of promise [p]. *)
Definition settle (p : Z) (s : Settlement) (c : MCPClient) : MCPClient :=
  {| mcpServers := mcpServers c; objects := objects c;
     connections := connections c; requestId := requestId c;
     timers := timers c; settled := (p, s) :: settled c; events := events c |}.

Definition emit (e : Event) (c : MCPClient) : MCPClient :=
  {| mcpServers := mcpServers c; objects := objects c;
     connections := connections c; requestId := requestId c;
     timers := timers c; settled := settled c; events := e :: events c |}.

Definition set_pending (f : gmap Z Pending -> gmap Z Pending)
    (conn : ServerConnection) : ServerConnection :=
  {| tools := tools conn; ready := ready conn;
     pendingRequests := f (pendingRequests conn); buffer := buffer conn;
     stdin := stdin conn; stdin_ended := stdin_ended conn; killed := killed conn |}.

Definition set_buffer (b : string) (conn : ServerConnection) : ServerConnection :=
  {| tools := tools conn; ready := ready conn;
     pendingRequests := pendingRequests conn; buffer := b;
     stdin := stdin conn; stdin_ended := stdin_ended conn; killed := killed conn |}.

Definition write (w : Written) (conn : ServerConnection) : ServerConnection :=
  {| tools := tools conn; ready := ready conn;
     pendingRequests := pendingRequests conn; buffer := buffer conn;
     stdin := stdin conn ++ [w]; stdin_ended := stdin_ended conn;
     killed := killed conn |}.

Definition end_and_kill (conn : ServerConnection) : ServerConnection :=
  {| tools := tools conn; ready := ready conn;
     pendingRequests := pendingRequests conn; buffer := buffer conn;
     stdin := stdin conn; stdin_ended := true; killed := true |}.

Definition set_ready (t : Json) (conn : ServerConnection) : ServerConnection :=
  {| tools := t; ready := true;
     pendingRequests := pendingRequests conn; buffer := buffer conn;
     stdin := stdin conn; stdin_ended := stdin_ended conn; killed := killed conn |}.

(** [conn.field = ...] on the object at address [a]. *)
Definition on_object (a : nat) (f : ServerConnection -> ServerConnection)
    (c : MCPClient) : MCPClient :=
  set_objects (fun os => match os !! a with
                         | Some conn => <[a := f conn]> os
                         | None => os
                         end) c.

(** [this.connections.get(name)]: the address and the object. *)
Definition get_connection (name : string) (c : MCPClient)
    : option (nat * ServerConnection) :=
  match connections c !! name with
  | Some a =>
      match objects c !! a with
      | Some conn => Some (a, conn)
      | None => None
      end
  | None => None
  end.

Definition clearTimeout (t : Z) (c : MCPClient) : MCPClient :=
  set_timers (delete t) c.

(** *** Requests and timeouts *)

(** [sendRequest]: throws when the server has no connection; otherwise
    takes the next id, arms the 60 s timer, files the pending entry and
    writes the request.  The promise returned is the one named [id]. *)
Definition sendRequest (serverName method : string) (params : Json)
    (c : MCPClient) : Result JsError Z * MCPClient :=
  match get_connection serverName c with
  | None => (Throw (NotConnected serverName), c)
  | Some (a, _) =>
      let id := requestId c + 1 in
      let c1 := set_requestId id c in
      let c2 := set_timers <[id := mkTimer a method serverName]> c1 in
      (Ok id, on_object a (fun conn => write (Request id method params)
                             (set_pending <[id := mkPending id id]> conn)) c2)
  end.

(** The callback of the timer of request [id], run by the event loop when
    the timer is still armed. *)
Definition timeout_fires (id : Z) (c : MCPClient) : MCPClient :=
  match timers c !! id with
  | None => c
  | Some cb =>
      let c1 := set_timers (delete id) c in
      let c2 := on_object (tc_connection cb) (set_pending (delete id)) c1 in
      settle id (Rejected (RequestTimeout (tc_method cb) (tc_server cb))) c2
  end.

Definition sendNotification (serverName method : string) (params : Json)
    (c : MCPClient) : MCPClient :=
  match get_connection serverName c with
  | None => c
  | Some (a, _) => on_object a (write (Notification method params)) c
  end.

(** [callTool]: one [tools/call] request. *)
Definition callTool (serverName toolName : string) (args : Json)
    (c : MCPClient) : Result JsError Z * MCPClient :=
  sendRequest serverName "tools/call"
    (JObj [("name", JStr toolName); ("arguments", args)]) c.

(** *** Standard output of a server *)

(** [pendingRequests.get(v)] for a value [v]: the keys are numbers. *)
Definition pending_get (v : Json) (m : gmap Z Pending) : option Pending :=
  match v with
  | JNum z => m !! z
  | _ => None
  end.

Definition pending_delete (v : Json) (m : gmap Z Pending) : gmap Z Pending :=
  match v with
  | JNum z => delete z m
  | _ => m
  end.

(** [if (response.error) pending.reject(new Error(`MCP error: ${response.error.message}`))
    else pending.resolve(response.result)]: which of the two closures is
    called, and with what; [None] when neither is, because the template
    literal throws on a message that cannot be converted to a string. *)
Definition outcome (response : Json) : option Settlement :=
  match prop response "error" with
  | Some error =>
      if truthy (Some error) then
        let message := prop error "message" in
        if converts_value message then Some (Rejected (McpError message)) else None
      else Some (Resolved (prop response "result"))
  | None => Some (Resolved (prop response "result"))
  end.

(** The body of the [try] once [JSON.parse] has returned [response];
    [a] is the connection object the handler looked up on entry. *)
Definition handleResponse (serverName : string) (a : nat) (response : Json)
    (c : MCPClient) : MCPClient :=
  match response with
  | JNull => c (* reading [response.id] throws; the [catch] swallows it *)
  | _ =>
      match prop response "id" with
      | Some id =>
          match objects c !! a with
          | Some conn =>
              match pending_get id (pendingRequests conn) with
              | Some pending =>
                  let c1 := clearTimeout (timer pending) c in
                  let c2 := on_object a (set_pending (pending_delete id)) c1 in
                  match outcome response with
                  | Some s => settle (promise pending) s c2
                  | None => c2 (* the [catch] swallows the [TypeError] *)
                  end
              | None => c
              end
          | None => c
          end
      | None => emit (EvNotification serverName response) c
      end
  end.

Section Transport.

(** [JSON.parse]: the value, or the message of the [SyntaxError]. *)
Variable JSON_parse : string -> Result string Json.

(** One iteration of the [for (const line of lines)] loop. *)
Definition handleLine (serverName : string) (a : nat) (c : MCPClient)
    (line : string) : MCPClient :=
  let trimmed := trim line in
  if String.eqb trimmed EmptyString then c
  else match JSON_parse trimmed with
       | Ok response => handleResponse serverName a response c
       | Throw _ => c
       end.

(** [handleServerData]: the listener of the process's [stdout]. *)
Definition handleServerData (serverName : string) (data : Buffer)
    (c : MCPClient) : MCPClient :=
  match get_connection serverName c with
  | None => c
  | Some (a, conn) =>
      let text := buffer conn +:+ toString data in
      let '(lines, rest) := pop (split_newline text) in
      let c1 := on_object a (set_buffer (or_empty rest)) c in
      fold_left (handleLine serverName a) lines c1
  end.

(** [handleServerData] once the chunk is decoded. *)
Definition handleText (name text : string) (c : MCPClient) : MCPClient :=
  match get_connection name c with
  | None => c
  | Some (a, conn) =>
      let t := buffer conn +:+ text in
      fold_left (handleLine name a) (complete t)
        (on_object a (set_buffer (partial t)) c)
  end.

End Transport.

(** *** Connections coming and going *)

Definition new_connection : ServerConnection :=
  {| tools := JArr []; ready := false; pendingRequests := ∅;
     buffer := EmptyString; stdin := []; stdin_ended := false; killed := false |}.

(** The address of the next connection object. *)
Definition new_address (c : MCPClient) : nat := fresh (dom (objects c)).

(** [connectServer] from [spawn] to [this.connections.set(name, connection)]. *)
Definition spawn (name : string) (c : MCPClient) : MCPClient :=
  let a := new_address c in
  set_connections <[name := a]> (set_objects <[a := new_connection]> c).

(** The process's ['exit'] and ['error'] listeners. *)
Definition on_exit (name : string) (code : Z) (c : MCPClient) : MCPClient :=
  set_connections (delete name) (emit (EvServerExit name code) c).

Definition on_error (name message : string) (c : MCPClient) : MCPClient :=
  set_connections (delete name) (emit (EvServerError name (Native message)) c).

(** The entries of a [pendingRequests] map in the order the [Map] yields
    them, that of their insertion: an id is set once, when it is above
    every id set before, so that is the order of the ids. *)
Definition pending_entries (m : gmap Z Pending) : list (Z * Pending) :=
  @merge_sort _ (fun x y : Z * Pending => x.1 <= y.1)
    (fun x y => decide (x.1 <= y.1)) (map_to_list m).

(** One round of the loop of [disconnectServer] over the pending entries. *)
Definition reject_disconnected (c : MCPClient) (entry : Z * Pending) : MCPClient :=
  settle (promise entry.2) (Rejected ServerDisconnected) (clearTimeout (timer entry.2) c).

Definition disconnectServer (name : string) (c : MCPClient) : MCPClient :=
  match get_connection name c with
  | None => c
  | Some (a, conn) =>
      let c1 := fold_left reject_disconnected (pending_entries (pendingRequests conn)) c in
      set_connections (delete name) (on_object a end_and_kill c1)
  end.

(** [disconnectAll].  The loop goes through the names of the [connections]
    map in the order the map yields them, its insertion order, which the
    model of the map does not keep: [order] is that order. *)
Definition disconnectAll (order : list string) (c : MCPClient) : MCPClient :=
  fold_left (fun c name => disconnectServer name c) order c.

(** [isConnected]: [this.connections.get(name)?.ready || false]. *)
Definition isConnected (name : string) (c : MCPClient) : bool :=
  match get_connection name c with
  | Some (_, conn) => ready conn
  | None => false
  end.

(** *** [connectServer] and [connectAll] *)

(** What an [await] yields: the promise's value, its rejection, or nothing
    when the promise is never settled. *)
Inductive Await (A : Type) : Type :=
| Fulfilled (a : A)
| RejectedWith (e : JsError)
| NeverSettles.
Arguments Fulfilled {A} a.
Arguments RejectedWith {A} e.
Arguments NeverSettles {A}.

(** The first call of [resolve]/[reject] of promise [id] decides it;
    [settled] lists the calls latest first. *)
Definition settlement (id : Z) (c : MCPClient) : option Settlement :=
  last (omap (fun e : Z * Settlement => if decide (e.1 = id) then Some e.2 else None)
             (settled c)).

(** A tool server as the client sees it: how its process starts, and the
    chunks of standard output it produces in answer to a request. *)
Inductive Startup : Type :=
| Started (output : list Buffer)   (* runs; prints [output] while starting *)
| SpawnError (message : string)    (* the process's ['error'] event *)
| Exited (code : Z).               (* exits before printing anything *)

Record Server : Type := mkServer {
  startup : Startup;
  respond : Written -> list Buffer
}.

(** [result?.tools || []]. *)
Definition tools_of (result : Value) : Json :=
  match result with
  | None => JArr []
  | Some JNull => JArr []
  | Some r =>
      match prop r "tools" with
      | Some t => if truthy (Some t) then t else JArr []
      | None => JArr []
      end
  end.

(** [tools.length]: of an array, of a string, or the own property of that
    name of an object. *)
Definition length_of (v : Json) : Value :=
  match v with
  | JArr items => Some (JNum (Z.of_nat (length items)))
  | JStr s => Some (JNum (Z.of_nat (js_length s)))
  | JObj fields => assoc "length" fields
  | _ => undefined
  end.

Definition initialize_params : Json :=
  JObj [("protocolVersion", JStr "2024-11-05");
        ("capabilities", JObj []);
        ("clientInfo", JObj [("name", JStr "try-agent"); ("version", JStr "1.0.0")])].

Section Connect.

Variable JSON_parse : string -> Result string Json.
Variable env : string -> Server.

(** [await this.sendRequest(...)]: the request is written, the server's
    answer (if any) comes in through [handleServerData], and the timer
    fires if it is still armed after that. *)
Definition request (serverName method : string) (params : Json)
    (c : MCPClient) : Await Value * MCPClient :=
  match sendRequest serverName method params c with
  | (Throw e, c1) => (RejectedWith e, c1)
  | (Ok id, c1) =>
      let c2 := fold_left (fun c d => handleServerData JSON_parse serverName d c)
                  (respond (env serverName) (Request id method params)) c1 in
      let c3 := timeout_fires id c2 in
      match settlement id c3 with
      | Some (Resolved v) => (Fulfilled v, c3)
      | Some (Rejected e) => (RejectedWith e, c3)
      | None => (NeverSettles, c3)
      end
  end.

(** [initialize], [listTools] and the tail of [connectServer], for the
    connection object [a] created by this call. *)
Definition handshake (name : string) (a : nat) (c : MCPClient)
    : Await Json * MCPClient :=
  match request name "initialize" initialize_params c with
  | (Fulfilled _, c1) =>
      let c2 := sendNotification name "notifications/initialized" (JObj []) c1 in
      match request name "tools/list" (JObj []) c2 with
      | (Fulfilled result, c3) =>
          let tools := tools_of result in
          let c4 := on_object a (set_ready tools) c3 in
          (Fulfilled tools, emit (EvServerReady name (length_of tools)) c4)
      | (RejectedWith e, c3) => (RejectedWith e, c3)
      | (NeverSettles, c3) => (NeverSettles, c3)
      end
  | (RejectedWith e, c1) => (RejectedWith e, c1)
  | (NeverSettles, c1) => (NeverSettles, c1)
  end.

Definition in_config (name : string) (c : MCPClient) : bool :=
  bool_decide (name ∈ mcpServers c).

Definition connectServer (name : string) (c : MCPClient)
    : Await Json * MCPClient :=
  if negb (in_config name c) then (RejectedWith (NotInConfig name), c)
  else
    match get_connection name c with
    | Some (_, {| tools := t; ready := true |}) => (Fulfilled t, c)
    | _ =>
        let a := new_address c in
        let c1 := spawn name c in
        match startup (env name) with
        | SpawnError message =>
            (RejectedWith (StartFailed message), on_error name message c1)
        | Exited code => handshake name a (on_exit name code c1)
        | Started output =>
            handshake name a
              (fold_left (fun c d => handleServerData JSON_parse name d c) output c1)
        end
    end.

(** The loop of [connectAll] over [Object.keys(mcpServers)]. *)
Fixpoint connectAll_loop (names : list string) (results : gmap string Json)
    (c : MCPClient) : Await (gmap string Json) * MCPClient :=
  match names with
  | [] => (Fulfilled results, c)
  | name :: names' =>
      match connectServer name c with
      | (Fulfilled tools, c1) => connectAll_loop names' (<[name := tools]> results) c1
      | (RejectedWith e, c1) =>
          connectAll_loop names' results (emit (EvServerError name e) c1)
      | (NeverSettles, c1) => (NeverSettles, c1)
      end
  end.

Definition connectAll (c : MCPClient) : Await (gmap string Json) * MCPClient :=
  connectAll_loop (mcpServers c) ∅ c.

(** *** Kinds of servers *)

(** The server answers every [method] request with [result], in a line of
    its own: whatever the id and the parameters, the chunks it prints
    decode to one line, which parses to a response that bears the id of
    the request, has no [error] and carries [result]. *)
Definition answers (srv : Server) (method : string) (result : Value) : Prop :=
  forall id params, exists line response,
    decoded (respond srv (Request id method params)) = line +:+ String newline EmptyString
    /\ complete line = []
    /\ trim line <> EmptyString
    /\ JSON_parse (trim line) = Ok response
    /\ prop response "id" = Some (JNum id)
    /\ outcome response = Some (Resolved result).

(** A server that starts without a word, answers [initialize] and lists
    the tools [t]. *)
Definition lists_tools (srv : Server) (t : Json) : Prop :=
  startup srv = Started []
  /\ (exists result, answers srv "initialize" result)
  /\ (exists result, answers srv "tools/list" result /\ tools_of result = t).

(** A server that starts without a word and never answers [initialize]. *)
Definition never_answers (srv : Server) : Prop :=
  startup srv = Started []
  /\ forall id params, respond srv (Request id "initialize" params) = [].

(** The await of a request to server [name] never ends: the request has
    neither a timer nor a settlement, a line the server printed in answer
    to it having been an error whose message cannot be converted to a
    string ([leftover] is what the buffer held before). *)
Definition hangs (name : string) (c : MCPClient) : Prop :=
  exists id method params leftover line response,
    0 < id <= requestId c /\ timers c !! id = None /\ (id ∉ map fst (settled c))
    /\ line ∈ complete (leftover +:+ decoded (respond (env name) (Request id method params)))
    /\ JSON_parse (trim line) = Ok response
    /\ prop response "id" = Some (JNum id)
    /\ outcome response = None.

End Connect.

(** *** Runs of one client *)

(** What can happen to a client: its own calls and the callbacks the event
    loop runs. *)
Inductive Op : Type :=
| OSpawn (name : string)
| OSendRequest (serverName method : string) (params : Json)
| OSendNotification (serverName method : string) (params : Json)
| OData (serverName : string) (data : Buffer)
| OTimeout (id : Z)
| ODisconnect (name : string)
| OExit (name : string) (code : Z)
| OError (name message : string)
| OReady (a : nat) (tools : Json).

Section Runs.

Variable JSON_parse : string -> Result string Json.

Definition step (c : MCPClient) (o : Op) : MCPClient :=
  match o with
  | OSpawn name => spawn name c
  | OSendRequest n m p => (sendRequest n m p c).2
  | OSendNotification n m p => sendNotification n m p c
  | OData n data => handleServerData JSON_parse n data c
  | OTimeout id => timeout_fires id c
  | ODisconnect n => disconnectServer n c
  | OExit n code => on_exit n code c
  | OError n msg => on_error n msg c
  | OReady a t => on_object a (set_ready t) c
  end.

Definition run (ops : list Op) (c : MCPClient) : MCPClient :=
  fold_left step ops c.

(** The ids the calls of [sendRequest] in a run returned, in order. *)
Fixpoint issued (ops : list Op) (c : MCPClient) : list Z :=
  match ops with
  | [] => []
  | o :: ops' =>
      match o with
      | OSendRequest n m p =>
          match (sendRequest n m p c).1 with
          | Ok id => id :: issued ops' (step c o)
          | Throw _ => issued ops' (step c o)
          end
      | _ => issued ops' (step c o)
      end
  end.

End Runs.

(** The promises settled so far, one entry per call of [resolve]/[reject]. *)
Definition settled_ids (c : MCPClient) : list Z := map fst (settled c).

(** A connection object some server name still maps to. *)
Definition live (a : nat) (c : MCPClient) : Prop :=
  exists name, connections c !! name = Some a.

(** *** The invariant of the pending-request discipline *)

Record Inv (c : MCPClient) : Prop := mkInv {
  inv_pending : forall a conn id p,
      objects c !! a = Some conn -> pendingRequests conn !! id = Some p ->
      promise p = id /\ timer p = id /\ id <= requestId c /\
      (((exists cb, timers c !! id = Some cb /\ tc_connection cb = a)
        /\ id ∉ settled_ids c)
       \/ (~ live a c /\ timers c !! id = None /\ id ∈ settled_ids c));
  inv_timers : forall id cb,
      timers c !! id = Some cb ->
      id <= requestId c /\ (id ∉ settled_ids c) /\
      (exists conn, objects c !! tc_connection cb = Some conn
                    /\ is_Some (pendingRequests conn !! id));
  inv_nodup : NoDup (settled_ids c);
  inv_settled : forall id, id ∈ settled_ids c -> id <= requestId c;
  inv_connections : forall name a,
      connections c !! name = Some a -> is_Some (objects c !! a);
  inv_injective : forall n1 n2 a,
      connections c !! n1 = Some a -> connections c !! n2 = Some a -> n1 = n2;
  inv_counter : 0 <= requestId c
}.

(** *** What [connectAll] keeps and establishes *)

(** The part of a connection that says whether it was set up or torn down. *)
Definition status (conn : ServerConnection) : Json * bool * bool * bool :=
  (tools conn, ready conn, stdin_ended conn, killed conn).

(** [c'] has the servers, the connection map and the connection objects of
    [c], each object with the status it had, and every event of [c]. *)
Record Keeps (c c' : MCPClient) : Prop := mkKeeps {
  keeps_servers : mcpServers c' = mcpServers c;
  keeps_connections : connections c' = connections c;
  keeps_objects : forall a,
      status <$> objects c' !! a = status <$> objects c !! a;
  keeps_events : forall e, e ∈ events c -> e ∈ events c'
}.

(** What [connectServer] does for a server that has no connection yet. *)
Definition connected_after (name : string) (c : MCPClient) (r : Await Json)
    (c' : MCPClient) : Prop :=
  let a := new_address c in
  Inv c'
  /\ mcpServers c' = mcpServers c
  /\ (forall n, n <> name -> connections c' !! n = connections c !! n)
  /\ (forall e, e ∈ events c -> e ∈ events c')
  /\ (forall a', a' <> a -> status <$> objects c' !! a' = status <$> objects c !! a')
  /\ (exists conn',
        objects c' !! a = Some conn'
        /\ stdin_ended conn' = false /\ killed conn' = false
        /\ forall t, r = Fulfilled t ->
             connections c' !! name = Some a /\ ready conn' = true /\ tools conn' = t).

(** The state of the loop of [connectAll] once the servers [done] have
    been gone through. *)
Record Loop (done : list string) (results : gmap string Json) (c : MCPClient)
    : Prop := mkLoop {
  loop_inv : Inv c;
  loop_connections : forall n a, connections c !! n = Some a -> n ∈ done;
  loop_spawned : size (objects c) = length done;
  loop_results : forall n, n ∈ done ->
      match results !! n with
      | Some t => exists a conn,
          connections c !! n = Some a /\ objects c !! a = Some conn
          /\ ready conn = true /\ tools conn = t
      | None => exists e, EvServerError n e ∈ events c
      end;
  loop_pending : forall n, n ∉ done -> results !! n = None;
  loop_alive : forall a conn,
      objects c !! a = Some conn -> stdin_ended conn = false /\ killed conn = false
}.


(** *** The line buffers *)

(** No connection object's buffer holds a complete line. *)
Definition buffers_incomplete (c : MCPClient) : Prop :=
  forall a conn, objects c !! a = Some conn -> complete (buffer conn) = [].

(** *** Worked examples *)

(** A client whose one server, [fs], has just been spawned. *)
Definition fs_client : MCPClient := spawn "fs" (new_client ["fs"]).

(** A line [{"jsonrpc":"2.0","id":<id>,"result":<result>}]. *)
Definition answer (id : Z) (result : string) : Buffer :=
  buffer_of (json_text ("{'jsonrpc':'2.0','id':" +:+ pretty id
                        +:+ ",'result':" +:+ result +:+ "}")
             +:+ String newline EmptyString).

(** A server that starts, answers [initialize] and lists one tool. *)
Definition good_server : Server :=
  {| startup := Started [];
     respond := fun w =>
       match w with
       | Request id method _ =>
           if String.eqb method "initialize" then [answer id "{'capabilities':{}}"]
           else [answer id "{'tools':[{'name':'read_file'}]}"]
       | Notification _ _ => []
       end |}.

(** A line [{"jsonrpc":"2.0","id":<id>,"error":{"message":{"toString":1}}}]:
    an error whose message cannot be converted to a string. *)
Definition odd_error (id : Z) : Buffer :=
  buffer_of (json_text ("{'jsonrpc':'2.0','id':" +:+ pretty id
                        +:+ ",'error':{'message':{'toString':1}}}")
             +:+ String newline EmptyString).

(** A server that answers every request with that error. *)
Definition odd_server : Server :=
  {| startup := Started [];
     respond := fun w =>
       match w with
       | Request id _ _ => [odd_error id]
       | Notification _ _ => []
       end |}.

(** A server that starts and never answers. *)
Definition silent_server : Server :=
  {| startup := Started []; respond := fun _ => [] |}.

(** Three configured servers; the second never answers. *)
Definition three_servers (name : string) : Server :=
  if String.eqb name "b" then silent_server else good_server.

Definition read_file_tools : Json := JArr [JObj [("name", JStr "read_file")]].

(** The two bytes of U+00E9. *)
Definition e_acute : Buffer := [xc3; xa9].

(** The line [{"method":"é"}] as the server writes it. *)
Definition ping : Buffer :=
  buffer_of (json_text "{'method':'") ++ e_acute
  ++ buffer_of (json_text "'}" +:+ String newline EmptyString).


(** A server whose process exits at once, with code 1. *)
Definition crashing_server : Server :=
  {| startup := Exited 1; respond := fun _ => [] |}.

(** A server whose command does not exist. *)
Definition missing_server : Server :=
  {| startup := SpawnError "spawn nothing ENOENT"; respond := fun _ => [] |}.

(** A server that answers [initialize] and lists the tools [listed]. *)
Definition lists (listed : string) : Server :=
  {| startup := Started [];
     respond := fun w =>
       match w with
       | Request id method _ =>
           if String.eqb method "initialize" then [answer id "{'capabilities':{}}"]
           else [answer id ("{'tools':" +:+ listed +:+ "}")]
       | Notification _ _ => []
       end |}.

(** Three tools, the second without an [inputSchema]. *)
Definition careless_server : Server :=
  lists "[{'name':'read','inputSchema':{}},{'name':'broken'},{'name':'write','inputSchema':{}}]".

(** Two tools as the protocol has them. *)
Definition tidy_server : Server :=
  lists "[{'name':'read','inputSchema':{}},{'name':'write','inputSchema':{}}]".

End Mcp.

(** ** Provider types (providers/types.ts) *)

Module Types.

Inductive MessageRole : Type := system | user | assistant | tool.

Definition role_name (r : MessageRole) : string :=
  match r with
  | system => "system"
  | user => "user"
  | assistant => "assistant"
  | tool => "tool"
  end.

(** [{ id, type: 'function', function: { name, arguments } }]. *)
Record ToolCall : Type := mkToolCall {
  call_id : string;
  function_name : string;
  function_arguments : string
}.

Record Message : Type := mkMessage {
  role : MessageRole;
  content : string;
  tool_calls : option (list ToolCall);
  tool_call_id : option string
}.

Record ToolDefinition : Type := mkToolDefinition {
  def_name : string;
  def_description : string;
  def_parameters : JS.Json
}.

(** [ModelResponse]: [content] may be [null], [tool_calls] absent. *)
Record ModelResponse : Type := mkResponse {
  response_content : option string;
  response_tool_calls : option (list ToolCall)
}.

(** [provider.chat(messages, tools)]: the response, or what it throws. *)
Definition Backend : Type :=
  list Message -> option (list ToolDefinition) -> Result JS.Thrown ModelResponse.

(** A system turn, a user turn. *)
Definition system_message (text : string) : Message :=
  mkMessage system text None None.

Definition user_message (text : string) : Message :=
  mkMessage user text None None.

Definition is_system (m : Message) : bool :=
  match role m with
  | system => true
  | _ => false
  end.

(** [x || fallback] for a string or [null]: the empty string is falsy. *)
Definition or_else (x : option string) (fallback : string) : string :=
  match x with
  | Some (String c rest) => String c rest
  | _ => fallback
  end.

Definition nl : string := String JS.newline EmptyString.

End Types.

(** ** History compression (chat-compress-service.ts) *)

Module Compress.
Import JS Types.

Record CompressConfig : Type := mkCompressConfig {
  maxTokens : Z;
  targetTokens : Z;
  keepRecentMessages : Z
}.

Definition DEFAULT_CONFIG : CompressConfig :=
  {| maxTokens := 24000; targetTokens := 8000; keepRecentMessages := 4 |}.

(** [Array.prototype.slice(start, end)]. *)
Definition slice {A : Type} (l : list A) (start stop : Z) : list A :=
  let len := Z.of_nat (length l) in
  let from := if start <? 0 then Z.max (len + start) 0 else Z.min start len in
  let to := if stop <? 0 then Z.max (len + stop) 0 else Z.min stop len in
  take (Z.to_nat (to - from)) (drop (Z.to_nat from) l).

(** [slice(start)]: to the end. *)
Definition slice_from {A : Type} (l : list A) (start : Z) : list A :=
  slice l start (Z.of_nat (length l)).

(** [Array.prototype.join]. *)
Fixpoint join (sep : string) (l : list string) : string :=
  match l with
  | [] => EmptyString
  | [x] => x
  | x :: rest => x +:+ sep +:+ join sep rest
  end.

Definition json_of_tool_call (tc : ToolCall) : Json :=
  JObj [("id", JStr (call_id tc)); ("type", JStr "function");
        ("function", JObj [("name", JStr (function_name tc));
                           ("arguments", JStr (function_arguments tc))])].

Definition summary_instruction : string :=
  "你是一个对话摘要助手。请将以下对话内容压缩成简洁的摘要，保留关键信息和上下文。摘要应该包含：主要讨论的话题、做出的决定、完成的任务、待解决的问题。".

Definition summary_placeholder : string := "无法生成摘要".

Definition summary_heading : string := "[对话历史摘要]".

Section Service.

Variable JSON_stringify : Json -> string.
Variable client_chat : Backend.
Variable config : CompressConfig.

(** [estimateTokens]: a third of the characters, rounded up. *)
Definition message_chars (msg : Message) : Z :=
  Z.of_nat (js_length (content msg))
  + match tool_calls msg with
    | Some calls =>
        Z.of_nat (js_length (JSON_stringify (JArr (map json_of_tool_call calls))))
    | None => 0
    end.

Definition estimateTokens (messages : list Message) : Z :=
  let totalChars := fold_left (fun acc msg => acc + message_chars msg) messages 0 in
  (totalChars + 2) / 3.

Definition needsCompression (messages : list Message) : bool :=
  maxTokens config <? estimateTokens messages.

(** The two turns [generateSummary] sends to the backend. *)
Definition summary_request (messages : list Message) : list Message :=
  let conversationText :=
    join (nl +:+ nl)
      (map (fun m => role_name (role m) +:+ ": " +:+ content m) messages) in
  [system_message summary_instruction;
   user_message ("请总结以下对话：" +:+ nl +:+ nl +:+ conversationText)].

Definition generateSummary (messages : list Message) : Result Thrown string :=
  match client_chat (summary_request messages) None with
  | Ok response => Ok (or_else (response_content response) summary_placeholder)
  | Throw e => Throw e
  end.

(** The turns other than system turns, and their split into the
    [keepRecentMessages] latest and the ones before. *)
Definition conversationMessages (messages : list Message) : list Message :=
  filter (fun m => is_system m = false) messages.

Definition recentMessages (messages : list Message) : list Message :=
  slice_from (conversationMessages messages) (- keepRecentMessages config).

Definition oldMessages (messages : list Message) : list Message :=
  slice (conversationMessages messages) 0 (- keepRecentMessages config).

Definition compress (messages : list Message) : Result Thrown (list Message) :=
  if negb (needsCompression messages) then Ok messages
  else
    let systemMessage := find is_system messages in
    match oldMessages messages with
    | [] => Ok messages
    | _ :: _ =>
        match generateSummary (oldMessages messages) with
        | Throw e => Throw e
        | Ok summary =>
            Ok (match systemMessage with
                | Some m => [m]
                | None => []
                end
                ++ [system_message (summary_heading +:+ nl +:+ summary)]
                ++ recentMessages messages)
        end
    end.

End Service.

End Compress.

(** ** The agent (chat.ts) and the tool registry (tool-registry.ts) *)

Module Chat.
Import JS Types Compress.

Record AgentConfig : Type := mkAgentConfig {
  maxIterations : nat;
  verbose : bool
}.

Record AgentState : Type := mkState {
  messages : list Message;
  iterations : nat;
  isRunning : bool
}.

Definition max_iterations_message : string := "达到最大迭代次数，任务可能未完成。".

Definition error_prefix : string := "发生错误: ".

Definition push (m : Message) (s : AgentState) : AgentState :=
  {| messages := messages s ++ [m]; iterations := iterations s;
     isRunning := isRunning s |}.

Definition stop (s : AgentState) : AgentState :=
  {| messages := messages s; iterations := iterations s; isRunning := false |}.

Definition next_iteration (s : AgentState) : AgentState :=
  {| messages := messages s; iterations := S (iterations s);
     isRunning := isRunning s |}.

Section Agent.

(** What the tools act on (files, processes, tool servers). *)
Variable World : Type.

(** [ToolExecutor]: the text it returns or what it throws, and the world
    it leaves behind. *)
Definition ToolExecutor : Type := Json -> World -> Result Thrown string * World.

Record RegisteredTool : Type := mkTool {
  definition : ToolDefinition;
  executor : ToolExecutor
}.

Variable JSON_parse : string -> Result string Json.
Variable JSON_stringify : Json -> string.
(** [Number.prototype.toString], for the template literals. *)
Variable number_text : Json -> string.
Variable client_chat : Backend.
Variable compress_config : CompressConfig.
(** [toolRegistry], in registration order. *)
Variable registry : list (string * RegisteredTool).
(** The system prompt [initialize] assembles. *)
Variable systemPrompt : string.
Variable config : AgentConfig.

Fixpoint registry_get (name : string) (tools : list (string * RegisteredTool))
    : option RegisteredTool :=
  match tools with
  | [] => None
  | (k, t) :: tools' => if String.eqb k name then Some t else registry_get name tools'
  end.

(** [toolRegistry.execute]. *)
Definition execute (name : string) (args : Json) (w : World)
    : Result Thrown string * World :=
  match registry_get name registry with
  | None => (Throw (error ("Tool not found: " +:+ name)), w)
  | Some t => executor t args w
  end.

(** [JSON.stringify({ success: false, error: error.message })]: a property
    whose value is [undefined] is left out. *)
Definition failure (message : Value) : string :=
  JSON_stringify (JObj (("success", JBool false)
                        :: match message with
                           | Some v => [("error", v)]
                           | None => []
                           end)).

(** The [catch] block of a tool call: the text of the result turn, or what
    the block throws in its turn.  Reading [error.message] throws when the
    value caught is [null] or [undefined]; when [verbose], the template
    literal of the line it logs throws on a message that cannot be
    converted to a string. *)
Definition catch_tool (e : Thrown) : Result Thrown string :=
  match read_message e with
  | Throw e' => Throw e'
  | Ok message =>
      if verbose config then
        match ToString number_text message with
        | Ok _ => Ok (failure message)
        | Throw e' => Throw e'
        end
      else Ok (failure message)
  end.

(** The [try]/[catch] of one tool call: the text of its result turn, or
    what leaves the [catch]. *)
Definition run_tool (call : ToolCall) (w : World) : Result Thrown string * World :=
  match JSON_parse (function_arguments call) with
  | Throw e => (catch_tool (error e), w)
  | Ok args =>
      match execute (function_name call) args w with
      | (Ok result, w') => (Ok result, w')
      | (Throw e, w') => (catch_tool e, w')
      end
  end.

Definition tool_message (call : ToolCall) (result : string) : Message :=
  mkMessage tool result None (Some (call_id call)).

(** The [for (const toolCall of toolCalls)] loop: the state and the world
    it leaves, and what it throws if a [catch] block throws. *)
Fixpoint tool_rounds (calls : list ToolCall) (s : AgentState) (w : World)
    : option Thrown * AgentState * World :=
  match calls with
  | [] => (None, s, w)
  | call :: calls' =>
      match run_tool call w with
      | (Ok result, w') => tool_rounds calls' (push (tool_message call result) s) w'
      | (Throw e, w') => (Some e, s, w')
      end
  end.

Definition handleToolCalls (toolCalls : list ToolCall) (text : option string)
    (s : AgentState) (w : World) : option Thrown * AgentState * World :=
  let s1 := push (mkMessage assistant (or_else text EmptyString)
                    (Some toolCalls) None) s in
  tool_rounds toolCalls s1 w.

(** *** The tool calls, one after the other

    What a call is to do, by the registry alone: its arguments are parsed
    and the tool registered under its name is run on them, in the world
    the calls before it left. *)
Definition tool_result (call : ToolCall) (w : World) : Result Thrown string * World :=
  match JSON_parse (function_arguments call) with
  | Throw e => (Throw (error e), w)
  | Ok args =>
      match registry_get (function_name call) registry with
      | None => (Throw (error ("Tool not found: " +:+ function_name call)), w)
      | Some t => executor t args w
      end
  end.

(** The world after the calls have run, one after the other. *)
Definition world_after (calls : list ToolCall) (w : World) : World :=
  fold_left (fun w call => (tool_result call w).2) calls w.

(** [toolRegistry.getDefinitions()], passed as [undefined] when empty. *)
Definition tools_argument : option (list ToolDefinition) :=
  match registry with
  | [] => None
  | _ :: _ => Some (map (fun e => definition e.2) registry)
  end.

(** The [catch] block of the loop: the final response it sets, or what it
    throws in its turn, on a value whose [message] cannot be read or
    cannot be converted to a string. *)
Definition caught (e : Thrown) : Result Thrown string :=
  match read_message e with
  | Throw e' => Throw e'
  | Ok message =>
      match ToString number_text message with
      | Ok text => Ok (error_prefix +:+ text)
      | Throw e' => Throw e'
      end
  end.

(** The ReAct [while] loop: the final response, or what the [catch] block
    threw; [fuel] bounds the number of rounds. *)
Fixpoint react (fuel : nat) (s : AgentState) (finalResponse : string) (w : World)
    : option (Result Thrown string * AgentState * World) :=
  if isRunning s && (iterations s <? maxIterations config)%nat then
    match fuel with
    | O => None
    | S fuel' =>
        let s1 := next_iteration s in
        match client_chat (messages s1) tools_argument with
        | Ok response =>
            match response_tool_calls response with
            | Some (call :: calls) =>
                match handleToolCalls (call :: calls) (response_content response) s1 w with
                | (None, s2, w2) => react fuel' s2 finalResponse w2
                | (Some e, s2, w2) =>
                    match caught e with
                    | Ok text => react fuel' (stop s2) text w2
                    | Throw e' => Some (Throw e', s2, w2)
                    end
                end
            | _ =>
                let answer := or_else (response_content response) EmptyString in
                react fuel'
                  (stop (push (mkMessage assistant answer None None) s1)) answer w
            end
        | Throw e =>
            match caught e with
            | Ok text => react fuel' (stop s1) text w
            | Throw e' => Some (Throw e', s1, w)
            end
        end
    end
  else Some (Ok finalResponse, s, w).

Definition initialize (s : AgentState) : AgentState :=
  {| messages := [system_message systemPrompt]; iterations := iterations s;
     isRunning := isRunning s |}.

(** The state once [chat] has seeded the conversation, if it was empty,
    and appended the user turn. *)
Definition with_user_turn (userMessage : string) (s : AgentState) : AgentState :=
  push (user_message userMessage)
    (match messages s with
     | [] => initialize s
     | _ :: _ => s
     end).

(** Whether a response asks for no tool:
    [!(response.tool_calls && response.tool_calls.length > 0)]. *)
Definition plain (response : ModelResponse) : bool :=
  match response_tool_calls response with
  | Some (_ :: _) => false
  | _ => true
  end.

(** [chat]: the text it returns or what it throws, with the state and
    world it leaves; [None] if the loop ran out of fuel. *)
Definition chat (userMessage : string) (s : AgentState) (w : World)
    : option (Result Thrown string * AgentState * World) :=
  let s1 := with_user_turn userMessage s in
  let compressed :=
    if needsCompression JSON_stringify compress_config (messages s1)
    then compress JSON_stringify client_chat compress_config (messages s1)
    else Ok (messages s1) in
  match compressed with
  | Throw e => Some (Throw e, s1, w)
  | Ok history =>
      let s2 := {| messages := history; iterations := 0; isRunning := true |} in
      match react (maxIterations config) s2 EmptyString w with
      | None => None
      | Some (Throw e, s3, w3) => Some (Throw e, s3, w3)
      | Some (Ok finalResponse, s3, w3) =>
          Some (Ok (if (maxIterations config <=? iterations s3)%nat
                    then max_iterations_message
                    else finalResponse), s3, w3)
      end
  end.

End Agent.

(** The turns the loop appends are the model's and the tools'. *)
Definition loop_turn (m : Message) : Prop := role m = assistant \/ role m = tool.

(** *** Worked examples *)

(** A registry with one tool, [echo], which answers [pong] and counts its
    calls in the world (a number). *)
Definition echo : RegisteredTool nat :=
  mkTool nat (mkToolDefinition "echo" "Echo" (JObj []))
    (fun _ w => (Ok "pong", S w)).

Definition echo_registry : list (string * RegisteredTool nat) := [("echo", echo)].

(** A backend that asks for [echo] as long as the conversation has fewer
    than [n] turns, and then answers [done]. *)
Definition asks_until (n : nat) : Backend :=
  fun messages _ =>
    if (length messages <? n)%nat
    then Ok (mkResponse None (Some [mkToolCall "call_1" "echo" "{}"]))
    else Ok (mkResponse (Some "done") None).

(** A backend that answers [hi] at once. *)
Definition answers_hi : Backend :=
  fun _ _ => Ok (mkResponse (Some "hi") None).

(** A backend whose every call fails. *)
Definition fails : Backend := fun _ _ => Throw (error "API error: 500").

(** A backend whose every call throws [null]. *)
Definition throws_null : Backend := fun _ _ => Throw thrown_null.

(** A backend that asks for the tools [boom] and [echo] in one response,
    as long as the conversation has fewer than [n] turns. *)
Definition asks_boom_then_echo (n : nat) : Backend :=
  fun messages _ =>
    if (length messages <? n)%nat
    then Ok (mkResponse None (Some [mkToolCall "call_1" "boom" "{}";
                                    mkToolCall "call_2" "echo" "{}"]))
    else Ok (mkResponse (Some "done") None).

(** A tool that throws [null], and a registry with it and [echo]. *)
Definition boom : RegisteredTool nat :=
  mkTool nat (mkToolDefinition "boom" "Boom" (JObj []))
    (fun _ w => (Throw thrown_null, S w)).

Definition boom_registry : list (string * RegisteredTool nat) :=
  [("boom", boom); ("echo", echo)].

(** [JSON.stringify] and [Number.prototype.toString] for runs that never
    consult them. *)
Definition no_stringify : Json -> string := fun _ => EmptyString.

Definition no_number : Json -> string := fun _ => EmptyString.

(** A ceiling of zero tokens: every conversation needs compression. *)
Definition tight : CompressConfig :=
  {| maxTokens := 0; targetTokens := 0; keepRecentMessages := 4 |}.

(** A conversation that was compressed once already: the system prompt,
    the summary turn of the first compression, and five later turns. *)
Definition earlier_summary : Message :=
  system_message (summary_heading +:+ nl +:+ "the user asked for a report").

Definition compressed_once : list Message :=
  [system_message "You are an agent."; earlier_summary;
   user_message "one"; mkMessage assistant "two" None None;
   user_message "three"; mkMessage assistant "four" None None;
   user_message "five"].

(** An agent that resumes that conversation. *)
Definition resumed : AgentState :=
  {| messages := compressed_once; iterations := 0; isRunning := false |}.

Definition fresh : AgentState :=
  {| messages := []; iterations := 0; isRunning := false |}.

(** The agent with the default bound of 20 rounds. *)
Definition default_agent : AgentConfig := {| maxIterations := 20; verbose := true |}.

End Chat.

(** ** The tool registry (tool-registry.ts) *)

Module Registry.
Import JS Types Chat.

Section ToolRegistry.

Variable World : Type.

(** The [tools] map of a [ToolRegistry], in insertion order. *)
Definition Tools : Type := list (string * RegisteredTool World).

(** [this.tools.set(name, entry)]: a name that is in the map keeps its
    place and takes the new entry; a new name goes to the end. *)
Fixpoint map_set (name : string) (entry : RegisteredTool World) (tools : Tools) : Tools :=
  match tools with
  | [] => [(name, entry)]
  | (k, t) :: tools' =>
      if String.eqb k name then (k, entry) :: tools'
      else (k, t) :: map_set name entry tools'
  end.

(** [this.tools.delete(name)]: the map without the name. *)
Fixpoint map_delete (name : string) (tools : Tools) : Tools :=
  match tools with
  | [] => []
  | (k, t) :: tools' =>
      if String.eqb k name then tools' else (k, t) :: map_delete name tools'
  end.

Definition register (name description : string) (parameters : Json)
    (executor : ToolExecutor World) (tools : Tools) : Tools :=
  map_set name (mkTool World (mkToolDefinition name description parameters) executor) tools.

Definition get (name : string) (tools : Tools) : option (RegisteredTool World) :=
  registry_get World name tools.

Definition has (name : string) (tools : Tools) : bool :=
  match registry_get World name tools with
  | Some _ => true
  | None => false
  end.

(** [unregister]: what [delete] returns, whether the name was there, and
    the map it leaves. *)
Definition unregister (name : string) (tools : Tools) : bool * Tools :=
  (has name tools, map_delete name tools).

Definition getDefinitions (tools : Tools) : list ToolDefinition :=
  map (fun e => definition World e.2) tools.

Definition getNames (tools : Tools) : list string := map fst tools.

Definition size (tools : Tools) : nat := length tools.

(** The calls that change a registry. *)
Inductive Call : Type :=
| Register (name description : string) (parameters : Json) (executor : ToolExecutor World)
| Unregister (name : string).

Definition call (tools : Tools) (c : Call) : Tools :=
  match c with
  | Register name description parameters executor =>
      register name description parameters executor tools
  | Unregister name => (unregister name tools).2
  end.

(** The registry a sequence of calls leaves, starting from [new ToolRegistry()]. *)
Definition after (calls : list Call) : Tools := fold_left call calls [].

(** The entries of a registry built by calls: a name occurs once, and an
    entry's definition bears the name the entry is filed under. *)
Definition consistent (tools : Tools) : Prop :=
  NoDup (getNames tools)
  /\ Forall (fun e => def_name (definition World e.2) = e.1) tools.

End ToolRegistry.

End Registry.

(** ** The bridge from MCP tools to the registry (tools/mcp-bridge.ts) *)

Module Bridge.
Import JS Registry.

(** [ToolCallLog]. *)
Record ToolCallLog : Type := mkLog {
  log_timestamp : Z;
  log_server : string;
  log_tool : Value;
  log_args : Json;
  log_result : string;
  log_duration : Z;
  log_success : bool
}.

(** The end of an executor's run: [toolCallLogs.push(entry)], after which
    only the latest 100 entries are kept
    ([toolCallLogs.splice(0, toolCallLogs.length - 100)]). *)
Definition record_call (entry : ToolCallLog) (logs : list ToolCallLog)
    : list ToolCallLog :=
  let logs' := logs ++ [entry] in
  if (100 <? length logs')%nat then drop (length logs' - 100) logs' else logs'.

(** [getToolCallLogs(limit = 50)]: [toolCallLogs.slice(-limit)]. *)
Definition getToolCallLogs (limit : option Z) (logs : list ToolCallLog)
    : list ToolCallLog :=
  Compress.slice_from logs (- match limit with
                                | Some n => n
                                | None => 50
                                end).

(** [clearToolCallLogs]: [toolCallLogs.length = 0]. *)
Definition clearToolCallLogs (logs : list ToolCallLog) : list ToolCallLog := [].

Section McpBridge.

Variable World : Type.

(** [Number.prototype.toString], for the template literals. *)
Variable number_text : Json -> string.

(** [createMCPExecutor(serverName, toolName)]. *)
Variable createMCPExecutor : string -> Value -> Chat.ToolExecutor World.

(** [`mcp_${serverName}_${tool.name}`], or the [TypeError] of a name that
    cannot be converted to a string. *)
Definition registeredName (serverName : string) (t : Json) : Result Thrown string :=
  match ToString number_text (prop t "name") with
  | Ok name => Ok ("mcp_" +:+ serverName +:+ "_" +:+ name)
  | Throw e => Throw e
  end.

(** [`[MCP:${serverName}] ${tool.description}`]. *)
Definition description_of (serverName : string) (t : Json) : Result Thrown string :=
  match ToString number_text (prop t "description") with
  | Ok description => Ok ("[MCP:" +:+ serverName +:+ "] " +:+ description)
  | Throw e => Throw e
  end.

(** [{ type: 'object', properties: schema.properties || {}, required:
    schema.required }]; a [required] that is [undefined] is left out, as
    [JSON.stringify] leaves it out. *)
Definition parameters_of (schema : Json) : Json :=
  JObj ([("type", JStr "object");
         ("properties", match prop schema "properties" with
                        | Some p => if truthy (Some p) then p else JObj []
                        | None => JObj []
                        end)]
        ++ match prop schema "required" with
           | Some r => [("required", r)]
           | None => []
           end).

(** One round of the loop over the tools of a server; [None] when it
    throws, before [register] is called: reading [tool.name] of [null]
    throws, a name or a description that cannot be converted to a string
    makes its template literal throw, and so does reading
    [tool.inputSchema.properties] when the tool has no [inputSchema] (or
    [null] for it). *)
Definition register_tool (serverName : string) (t : Json) (tools : Tools World)
    : option (Tools World) :=
  match t with
  | JNull => None
  | _ =>
      match registeredName serverName t, description_of serverName t with
      | Ok name, Ok description =>
          match prop t "inputSchema" with
          | None | Some JNull => None
          | Some schema =>
              Some (register World name description (parameters_of schema)
                      (createMCPExecutor serverName (prop t "name")) tools)
          end
      | _, _ => None
      end
  end.

(** How far the loops of [registerMCPTools] got: to their end, or to a
    throw; either way with [totalTools] and the registry as they are then. *)
Inductive Progress : Type :=
| Completed (total : nat) (tools : Tools World)
| Threw (total : nat) (tools : Tools World).

Definition count_of (p : Progress) : nat :=
  match p with
  | Completed total _ | Threw total _ => total
  end.

Definition registry_of (p : Progress) : Tools World :=
  match p with
  | Completed _ tools | Threw _ tools => tools
  end.

Fixpoint register_tools (serverName : string) (items : list Json) (total : nat)
    (tools : Tools World) : Progress :=
  match items with
  | [] => Completed total tools
  | t :: items' =>
      match register_tool serverName t tools with
      | Some tools' => register_tools serverName items' (S total) tools'
      | None => Threw total tools
      end
  end.

(** [for (const tool of tools)] for the value one server listed: an array
    is gone through; a string is iterable too, and its first character, a
    string, has no [inputSchema]; no other value is iterable. *)
Definition register_server (serverName : string) (listed : Json) (total : nat)
    (tools : Tools World) : Progress :=
  match listed with
  | JArr items => register_tools serverName items total tools
  | JStr EmptyString => Completed total tools
  | _ => Threw total tools
  end.

(** [for (const [serverName, tools] of results)]. *)
Fixpoint register_results (results : list (string * Json)) (total : nat)
    (tools : Tools World) : Progress :=
  match results with
  | [] => Completed total tools
  | (serverName, listed) :: results' =>
      match register_server serverName listed total tools with
      | Completed total' tools' => register_results results' total' tools'
      | Threw total' tools' => Threw total' tools'
      end
  end.

Variable JSON_parse : string -> Result string Json.
Variable env : string -> Mcp.Server.

(** The entries of the map [connectAll] returns, in insertion order: the
    configured names that have an entry, in the order of the
    configuration ([Object.keys] lists a name once). *)
Definition entries (names : list string) (results : gmap string Json)
    : list (string * Json) :=
  omap (fun name => match results !! name with
                    | Some listed => Some (name, listed)
                    | None => None
                    end) names.

(** [registerMCPTools]: the count it returns, the registry and the client
    it leaves.  The [catch] turns a throw into the count reached. *)
Definition registerMCPTools (c : Mcp.MCPClient) (tools : Tools World)
    : Mcp.Await nat * Tools World * Mcp.MCPClient :=
  match Mcp.connectAll JSON_parse env c with
  | (Mcp.Fulfilled results, c') =>
      let p := register_results (entries (Mcp.mcpServers c) results) 0 tools in
      (Mcp.Fulfilled (count_of p), registry_of p, c')
  | (Mcp.RejectedWith _, c') => (Mcp.Fulfilled 0%nat, tools, c')
  | (Mcp.NeverSettles, c') => (Mcp.NeverSettles, tools, c')
  end.

(** [unregisterMCPTools]: over the names [getNames] returned. *)
Definition unregisterMCPTools (tools : Tools World) : Tools World :=
  fold_left (fun tools name =>
               if String.prefix "mcp_" name then (unregister World name tools).2
               else tools)
    (getNames World tools) tools.

(** A registry that is [base] followed by MCP tools only. *)
Definition extends (base tools : Tools World) : Prop :=
  exists m, tools = base ++ m
            /\ Forall (fun e : string * Chat.RegisteredTool World =>
                         String.prefix "mcp_" e.1 = true) m.

End McpBridge.

(** *** Worked examples *)

(** Every MCP tool answers [pong]. *)
Definition pong_executor : string -> Value -> Chat.ToolExecutor nat :=
  fun _ _ => Chat.executor nat Chat.echo.

(** The registry with the built-in tool [echo]. *)
Definition builtin_calls : list (Call nat) :=
  [Register nat "echo" "Echo" (JObj []) (Chat.executor nat Chat.echo)].

(** A log entry, and a tool that records it. *)
Definition logged : ToolCallLog :=
  mkLog 0 "fs" (Some (JStr "echo")) (JObj []) "pong" 0 true.

Definition logging_echo : Chat.RegisteredTool (list ToolCallLog) :=
  Chat.mkTool (list ToolCallLog) (Types.mkToolDefinition "echo" "Echo" (JObj []))
    (fun _ w => (Ok "pong", record_call logged w)).

End Bridge.

(** ** The web server (server.ts) *)

Module WebServer.
Import JS Types Compress Chat Bridge.

(** An [Agent]: its client, the system prompt [initialize] assembles for
    it, its configuration and its state. *)
Record Agent : Type := mkAgent {
  agent_client : Backend;
  agent_prompt : string;
  agent_config : AgentConfig;
  agent_state : AgentState
}.

(** What a route answers: the status and the body; nothing when the
    handler throws. *)
Inductive Reply : Type :=
| NotFound (error : string)                                    (* 404 *)
| Success (response : string) (toolCalls : list ToolCallLog)   (* 200 *)
| Failure (error : Value)                                      (* 500 *)
| NoReply.

Definition no_session : string := "会话不存在，请先创建会话".

Section Routes.

Variable World : Type.
Variable JSON_parse : string -> Result string Json.
Variable JSON_stringify : Json -> string.
Variable number_text : Json -> string.
Variable registry : list (string * RegisteredTool World).
(** The [toolCallLogs] array of the bridge. *)
Variable logs : World -> list ToolCallLog.

(** [agent.chat(message)]. *)
Definition agent_chat (message : string) (agent : Agent) (w : World)
    : option (Result Thrown string * Agent * World) :=
  match chat World JSON_parse JSON_stringify number_text (agent_client agent) DEFAULT_CONFIG
          registry (agent_prompt agent) (agent_config agent) message
          (agent_state agent) w with
  | Some (r, s, w') =>
      Some (r, {| agent_client := agent_client agent; agent_prompt := agent_prompt agent;
                  agent_config := agent_config agent; agent_state := s |}, w')
  | None => None
  end.

(** [POST /api/chat]; [None] if [chat] ran out of fuel. *)
Definition post_chat (sessionId message : string) (agents : gmap string Agent)
    (w : World) : option (Reply * gmap string Agent * World) :=
  match agents !! sessionId with
  | None => Some (NotFound no_session, agents, w)
  | Some agent =>
      let logsBefore := length (getToolCallLogs None (logs w)) in
      match agent_chat message agent w with
      | None => None
      | Some (Ok response, agent', w') =>
          let allLogs := getToolCallLogs None (logs w') in
          let newLogs := slice_from allLogs (Z.of_nat logsBefore) in
          Some (Success response newLogs, <[sessionId := agent']> agents, w')
      | Some (Throw e, agent', w') =>
          (* [res.status(500).json({ success: false, error: error.message })] *)
          match read_message e with
          | Ok message => Some (Failure message, <[sessionId := agent']> agents, w')
          | Throw _ => Some (NoReply, <[sessionId := agent']> agents, w')
          end
      end
  end.

(** [GET /api/mcp/logs]: [limit] is what [parseInt(req.query.limit)]
    returned, [None] for [NaN]. *)
Definition get_mcp_logs (limit : option Z) (w : World) : list ToolCallLog :=
  let limit := match limit with
               | Some n => if n =? 0 then 50 else n
               | None => 50
               end in
  getToolCallLogs (Some limit) (logs w).

End Routes.

(** *** Worked examples *)

(** A session whose backend asks for [echo] once and then answers [done]. *)
Definition session : Agent :=
  {| agent_client := asks_until 4; agent_prompt := "You are an agent.";
     agent_config := default_agent; agent_state := fresh |}.

End WebServer.

(** * Proofs *)

Import JS Mcp.

(** ** Field lemmas *)


Lemma lookup_on_object a a' f c :
  objects (on_object a f c) !! a'
  = if decide (a = a') then f <$> objects c !! a' else objects c !! a'.
Proof.
  unfold on_object; simpl.
  destruct (objects c !! a) as [conn|] eqn:E.
  - case_decide; subst.
    + rewrite lookup_insert_eq, E. reflexivity.
    + rewrite lookup_insert_ne by done. reflexivity.
  - case_decide; subst; [rewrite E|]; reflexivity.
Qed.

Lemma objects_on_object a f c conn :
  objects c !! a = Some conn ->
  objects (on_object a f c) = <[a := f conn]> (objects c).
Proof. intros H. unfold on_object; simpl. by rewrite H. Qed.

Lemma connections_on_object a f c : connections (on_object a f c) = connections c.
Proof. reflexivity. Qed.

Lemma timers_on_object a f c : timers (on_object a f c) = timers c.
Proof. reflexivity. Qed.

Lemma requestId_on_object a f c : requestId (on_object a f c) = requestId c.
Proof. reflexivity. Qed.

Lemma settled_on_object a f c : settled (on_object a f c) = settled c.
Proof. reflexivity. Qed.

Lemma events_on_object a f c : events (on_object a f c) = events c.
Proof. reflexivity. Qed.

Lemma mcpServers_on_object a f c : mcpServers (on_object a f c) = mcpServers c.
Proof. reflexivity. Qed.

#[global] Opaque on_object.

Create Rewrite HintDb client.
#[export] Hint Rewrite connections_on_object timers_on_object requestId_on_object
  settled_on_object events_on_object mcpServers_on_object : client.

(** Unfold the views of a state and push field reads through updates. *)
Ltac simp_state :=
  unfold settled_ids, live in *; simpl in *;
  autorewrite with client in *; simpl in *.

Lemma get_connection_Some name c a conn :
  get_connection name c = Some (a, conn) <->
  connections c !! name = Some a /\ objects c !! a = Some conn.
Proof.
  unfold get_connection.
  destruct (connections c !! name) as [a0|]; [|split; [discriminate|intros [? _]; discriminate]].
  destruct (objects c !! a0) as [conn0|] eqn:E; split.
  - intros [= <- <-]. auto.
  - intros [[= <-] H]. rewrite E in H. congruence.
  - discriminate.
  - intros [[= <-] H]. rewrite E in H. discriminate.
Qed.

(** ** The invariant holds in every run *)

Lemma Inv_new servers : Inv (new_client servers).
Proof.
  split; simpl; try (intros; simplify_map_eq; fail).
  - constructor.
  - unfold settled_ids; simpl. intros id H. inversion H.
  - done.
Qed.

Lemma Inv_emit e c : Inv c -> Inv (emit e c).
Proof. intros [IP IT IN IS IC II IZ]. split; assumption. Qed.

Lemma Inv_sendRequest n m p c : Inv c -> Inv (sendRequest n m p c).2.
Proof.
  intros I. unfold sendRequest.
  destruct (get_connection n c) as [[a conn]|] eqn:G; [|exact I].
  apply get_connection_Some in G as [Gc Go].
  destruct I as [IP IT IN IS IC II IZ].
  simpl. split.
  - intros a' conn' id p'. rewrite lookup_on_object. simp_state.
    case_decide as Ea.
    + subst a'. rewrite Go. simpl. intros [= <-]. simpl.
      destruct (decide (id = requestId c + 1)) as [->|Hne].
      * rewrite !lookup_insert_eq. intros [= <-]. simpl.
        repeat split; [lia|]. left. split; [eauto|].
        intros Hin. apply IS in Hin. lia.
      * rewrite !lookup_insert_ne by done. intros Hp.
        destruct (IP _ _ _ _ Go Hp) as (? & ? & ? & Hd).
        repeat split; [done|done|lia|]. exact Hd.
    + intros Ho Hp. destruct (IP _ _ _ _ Ho Hp) as (? & ? & ? & Hd).
      repeat split; [done|done|lia|].
      rewrite lookup_insert_ne by lia. exact Hd.
  - intros id cb. simp_state.
    destruct (decide (id = requestId c + 1)) as [->|Hne].
    + rewrite lookup_insert_eq. intros [= <-]. simpl.
      split; [lia|]. split; [intros Hin; apply IS in Hin; lia|].
      rewrite lookup_on_object. simpl. rewrite decide_True by done. rewrite Go. simpl.
      eexists; split; [done|]. simpl. rewrite lookup_insert_eq. eauto.
    + rewrite lookup_insert_ne by done. intros H.
      apply IT in H as (? & ? & conn0 & Ho0 & Hp0). split; [lia|]. split; [done|].
      rewrite lookup_on_object. simpl. rewrite Ho0.
      case_decide; simpl; eexists; (split; [done|]); [|done].
      simpl. by rewrite lookup_insert_ne.
  - exact IN.
  - intros id Hin. simp_state. apply IS in Hin. lia.
  - intros name a' Hc. simp_state.
    destruct (IC _ _ Hc) as [x Hx]. rewrite lookup_on_object. simpl. rewrite Hx.
    case_decide; simpl; eauto.
  - exact II.
  - simp_state. lia.
Qed.

(** An update of an object that keeps its pending entries keeps the invariant. *)
Lemma Inv_on_object a f c :
  (forall conn, pendingRequests (f conn) = pendingRequests conn) ->
  Inv c -> Inv (on_object a f c).
Proof.
  intros Hf [IP IT IN IS IC II IZ]. split; simp_state; try done.
  - intros a' conn' id p. rewrite lookup_on_object.
    case_decide.
    + destruct (objects c !! a') as [conn0|] eqn:E; [|discriminate].
      simpl. intros [= <-]. rewrite Hf. by apply IP.
    + apply IP.
  - intros id cb H. apply IT in H as (? & ? & conn0 & Ho0 & Hp0).
    repeat split; [done..|]. rewrite lookup_on_object, Ho0.
    case_decide; simpl; eexists; (split; [done|]); [by rewrite Hf|done].
  - intros name a' Hc. rewrite lookup_on_object.
    destruct (IC _ _ Hc) as [x Hx]. rewrite Hx. case_decide; simpl; eauto.
Qed.

Lemma Inv_sendNotification n m p c : Inv c -> Inv (sendNotification n m p c).
Proof.
  intros I. unfold sendNotification.
  destruct (get_connection n c) as [[a conn]|]; [|exact I].
  by apply Inv_on_object.
Qed.

(** Forgetting a server name keeps the invariant. *)
Lemma Inv_forget name c : Inv c -> Inv (set_connections (delete name) c).
Proof.
  intros [IP IT IN IS IC II IZ]. split; simp_state; try done.
  - intros a conn id p Ho Hp.
    destruct (IP _ _ _ _ Ho Hp) as (? & ? & ? & Hd). repeat split; [done..|].
    destruct Hd as [Hd|(Hl & ? & ?)]; [by left|right].
    repeat split; [|done..]. intros [n' Hn']. apply Hl. exists n'.
    by apply lookup_delete_Some in Hn' as [_ ?].
  - intros n' a H. apply lookup_delete_Some in H as [_ H]. eauto.
  - intros n1 n2 a H1 H2.
    apply lookup_delete_Some in H1 as [_ H1]. apply lookup_delete_Some in H2 as [_ H2]. eauto.
Qed.

Lemma Inv_on_exit n code c : Inv c -> Inv (on_exit n code c).
Proof. intros I. apply Inv_forget, Inv_emit, I. Qed.

Lemma Inv_on_error n msg c : Inv c -> Inv (on_error n msg c).
Proof. intros I. apply Inv_forget, Inv_emit, I. Qed.

Lemma new_address_fresh c : objects c !! new_address c = None.
Proof.
  unfold new_address. apply not_elem_of_dom. apply is_fresh.
Qed.

Lemma Inv_spawn name c : Inv c -> Inv (spawn name c).
Proof.
  intros [IP IT IN IS IC II IZ]. pose proof (new_address_fresh c) as Hf.
  unfold spawn. split; simp_state; try done.
  - intros a conn id p Ho Hp.
    destruct (decide (a = new_address c)) as [->|Hne].
    + rewrite lookup_insert_eq in Ho. injection Ho as <-. simpl in Hp.
      rewrite lookup_empty in Hp. discriminate.
    + rewrite lookup_insert_ne in Ho by done.
      destruct (IP _ _ _ _ Ho Hp) as (? & ? & ? & Hd). repeat split; [done..|].
      destruct Hd as [Hd|(Hl & ? & ?)]; [by left|right].
      repeat split; [|done..]. intros [n' Hn']. apply Hl. exists n'.
      apply lookup_insert_Some in Hn' as [[_ ?]|[_ ?]]; [congruence|done].
  - intros id cb H. apply IT in H as (? & ? & conn0 & Ho0 & Hp0).
    repeat split; [done..|]. exists conn0. split; [|done].
    rewrite lookup_insert_ne; [done|]. intros E. rewrite <- E in Ho0. congruence.
  - intros n' a H. apply lookup_insert_Some in H as [[_ <-]|[_ H]].
    + rewrite lookup_insert_eq. eauto.
    + destruct (IC _ _ H) as [x Hx]. rewrite lookup_insert_ne; [eauto|].
      intros <-. congruence.
  - intros n1 n2 a H1 H2.
    apply lookup_insert_Some in H1 as [[<- <-]|[Hn1 H1]];
      apply lookup_insert_Some in H2 as [[<- E2]|[Hn2 H2]]; try done.
    + destruct (IC _ _ H2) as [x Hx]. congruence.
    + subst a. destruct (IC _ _ H1) as [x Hx]. congruence.
    + eauto.
Qed.

(** The loop of [disconnectServer], field by field. *)
Lemma fold_reject_fields l c :
  let c' := fold_left reject_disconnected l c in
  objects c' = objects c /\ connections c' = connections c /\
  requestId c' = requestId c /\
  (forall id, timers c' !! id
     = if decide (id ∈ map (fun e : Z * Pending => timer e.2) l) then None else timers c !! id) /\
  settled_ids c' = rev (map (fun e : Z * Pending => promise e.2) l) ++ settled_ids c.
Proof.
  revert c. induction l as [|e l IH]; intros c; simpl.
  - repeat split; try done. 
  - destruct (IH (reject_disconnected c e)) as (Ho & Hc & Hr & Ht & Hs).
    rewrite Ho, Hc, Hr, Hs. repeat split; try done.
    + intros id. rewrite Ht. simpl.
      destruct (decide (id = timer e.2)) as [->|Hne].
      * rewrite lookup_delete_eq. rewrite (decide_True (P := _ ∈ _ :: _)) by left.
        by case_decide.
      * rewrite lookup_delete_ne by done.
        case_decide as H1; case_decide as H2; try done.
        -- exfalso. apply H2. by right.
        -- exfalso. apply elem_of_cons in H2 as [?|?]; done.
    + unfold settled_ids. simpl. rewrite <- app_assoc. done.
Qed.

Lemma elem_of_rev {A} (x : A) l : x ∈ rev l <-> x ∈ l.
Proof. rewrite !list_elem_of_In. symmetry. apply in_rev. Qed.

Lemma NoDup_rev' {A} (l : list A) : NoDup l -> NoDup (rev l).
Proof. rewrite !NoDup_ListNoDup. apply NoDup_rev. Qed.

Lemma pending_entries_Permutation (m : gmap Z Pending) :
  pending_entries m ≡ₚ map_to_list m.
Proof. apply merge_sort_Permutation. Qed.

Lemma elem_of_pending_entries (m : gmap Z Pending) id p :
  (id, p) ∈ pending_entries m <-> m !! id = Some p.
Proof. rewrite pending_entries_Permutation. apply elem_of_map_to_list. Qed.

Lemma pending_entries_keys (m : gmap Z Pending) f :
  (forall id p, m !! id = Some p -> f p = id) ->
  map (fun e : Z * Pending => f e.2) (pending_entries m) = map fst (pending_entries m).
Proof.
  intros H. apply map_ext_in. intros [id p] Hin. simpl.
  apply H. apply elem_of_pending_entries. by apply list_elem_of_In.
Qed.

Lemma elem_of_keys (m : gmap Z Pending) id :
  id ∈ map fst (pending_entries m) <-> is_Some (m !! id).
Proof.
  split.
  - intros H. apply list_elem_of_In, in_map_iff in H as ([i p] & <- & H).
    apply list_elem_of_In, elem_of_pending_entries in H. eauto.
  - intros [p H]. apply list_elem_of_In, in_map_iff. exists (id, p). split; [done|].
    by apply list_elem_of_In, elem_of_pending_entries.
Qed.

Lemma NoDup_keys (m : gmap Z Pending) : NoDup (map fst (pending_entries m)).
Proof.
  change (NoDup ((pending_entries m).*1)). rewrite pending_entries_Permutation.
  apply NoDup_fst_map_to_list.
Qed.

Lemma disconnectServer_fields name c a conn :
  Inv c -> connections c !! name = Some a -> objects c !! a = Some conn ->
  let c' := disconnectServer name c in
  let K := map fst (pending_entries (pendingRequests conn)) in
  (forall a', objects c' !! a'
     = if decide (a = a') then end_and_kill <$> objects c !! a' else objects c !! a') /\
  connections c' = delete name (connections c) /\
  requestId c' = requestId c /\
  (forall id, timers c' !! id = if decide (id ∈ K) then None else timers c !! id) /\
  settled_ids c' = rev K ++ settled_ids c /\
  events c' = events c.
Proof.
  intros I Gc Go. unfold disconnectServer, get_connection. rewrite Gc, Go.
  pose proof (fold_reject_fields (pending_entries (pendingRequests conn)) c) as F.
  simpl in F. destruct F as (Fo & Fc & Fr & Ft & Fs).
  assert (F1 : forall id p, pendingRequests conn !! id = Some p ->
            promise p = id /\ timer p = id).
  { intros id p Hp. by destruct (inv_pending _ I _ _ _ _ Go Hp) as (? & ? & _). }
  rewrite (pending_entries_keys _ timer) in Ft by (intros ? ? H; by apply F1 in H as (? & ?)).
  rewrite (pending_entries_keys _ promise) in Fs by (intros ? ? H; by apply F1 in H as (? & ?)).
  simpl. repeat split.
  - intros a'. rewrite lookup_on_object, Fo. done.
  - autorewrite with client. by rewrite Fc.
  - autorewrite with client. done.
  - intros id. autorewrite with client. apply Ft.
  - unfold settled_ids in *. simpl. autorewrite with client. done.
  - autorewrite with client. clear. 
    generalize (pending_entries (pendingRequests conn)). intros l. revert c.
    induction l as [|e l IH]; intros c; simpl; [done|]. by rewrite IH.
Qed.

Lemma Inv_disconnectServer name c : Inv c -> Inv (disconnectServer name c).
Proof.
  intros I.
  destruct (get_connection name c) as [[a conn]|] eqn:G;
    [|unfold disconnectServer; rewrite G; exact I].
  apply get_connection_Some in G as [Gc Go].
  destruct (disconnectServer_fields name c a conn I Gc Go) as (Eo & Ec & Er & Et & Es & _).
  generalize dependent (disconnectServer name c). intros c'. simpl. intros Eo Ec Er Et Es.
  destruct I as [IP IT IN IS IC II IZ].
  assert (F1 : forall id p, pendingRequests conn !! id = Some p ->
            promise p = id /\ timer p = id /\ id <= requestId c /\
            id ∉ settled_ids c).
  { intros id p Hp. destruct (IP _ _ _ _ Go Hp) as (? & ? & ? & [[_ ?]|(Hl & _)]); [done|].
    exfalso. apply Hl. by exists name. }
  assert (Hlive : forall a', live a' c' -> live a' c /\ a' <> a).
  { intros a' [n' Hn']. rewrite Ec in Hn'.
    apply lookup_delete_Some in Hn' as [Hne Hn']. split; [by exists n'|].
    intros ->. apply Hne. eauto. }
  split.
  - intros a' conn' id p. rewrite Eo, Er, Es, Et. intros Ho Hp.
    case_decide as Ea.
    + subst a'. rewrite Go in Ho. simpl in Ho. injection Ho as <-. simpl in Hp.
      destruct (F1 _ _ Hp) as (? & ? & ? & ?). repeat split; [done..|]. right.
      assert (id ∈ map fst (pending_entries (pendingRequests conn))) as Hk
        by (apply elem_of_keys; eauto).
      repeat split.
      * intros Hl. by apply Hlive in Hl as [_ ?].
      * by rewrite decide_True.
      * apply elem_of_app. left. by apply elem_of_rev.
    + destruct (IP _ _ _ _ Ho Hp) as (? & ? & ? & Hd). repeat split; [done..|].
      destruct Hd as [[(cb & Hcb & Hc) Hn]|(Hl & Ht' & Hin)]; [left|right].
      * assert (id ∉ map fst (pending_entries (pendingRequests conn))) as Hk.
        { intros Hk. apply elem_of_keys in Hk as [p0 Hp0].
          destruct (IP _ _ _ _ Go Hp0) as (_ & _ & _ & [[(cb' & Hcb' & Hc') _]|(_ & _ & ?)]);
            [|done]. congruence. }
        rewrite decide_False by done. split; [eauto|].
        rewrite elem_of_app, elem_of_rev. tauto.
      * repeat split.
        -- intros Hl'. apply Hlive in Hl' as [? _]. done.
        -- case_decide; done.
        -- apply elem_of_app. by right.
  - intros id cb. rewrite Et, Er, Es. case_decide as Hk; [discriminate|]. intros H.
    apply IT in H as (? & ? & conn0 & Ho0 & Hp0). split; [done|].
    split; [rewrite elem_of_app, elem_of_rev; tauto|].
    rewrite Eo, Ho0. case_decide; simpl; eexists; (split; [done|]); done.
  - rewrite Es. apply NoDup_app. repeat split.
    + apply NoDup_rev', NoDup_keys.
    + intros id Hk. apply elem_of_rev, elem_of_keys in Hk as [p Hp].
      by apply F1 in Hp as (_ & _ & _ & ?).
    + done.
  - intros id. rewrite Es, Er, elem_of_app, elem_of_rev. intros [Hk|?]; [|by apply IS].
    apply elem_of_keys in Hk as [p Hp]. by apply F1 in Hp as (_ & _ & ? & _).
  - intros n' a'. rewrite Ec, Eo. intros H.
    apply lookup_delete_Some in H as [_ H]. destruct (IC _ _ H) as [x Hx].
    rewrite Hx. case_decide; simpl; eauto.
  - intros n1 n2 a'. rewrite Ec. intros H1 H2.
    apply lookup_delete_Some in H1 as [_ H1]. apply lookup_delete_Some in H2 as [_ H2]. eauto.
  - by rewrite Er.
Qed.

(** Request [z] loses its timer and its entry and is not settled. *)
Lemma Inv_abandon c a z cb :
  Inv c -> timers c !! z = Some cb -> tc_connection cb = a ->
  Inv (on_object a (set_pending (delete z)) (set_timers (delete z) c)).
Proof.
  intros [IP IT IN IS IC II IZ] Ht Ha.
  destruct (IT _ _ Ht) as (Hle & Hns & _).
  split.
  - intros a' conn' id p'. simp_state. rewrite lookup_on_object. simpl.
    intros Ho Hp.
    assert (id <> z /\ exists conn0, objects c !! a' = Some conn0
                        /\ pendingRequests conn0 !! id = Some p') as [Hne (conn0 & Ho0 & Hp0)].
    { case_decide as Ea.
      - subst a'. destruct (objects c !! a) as [conn0|] eqn:E; [|discriminate].
        simpl in Ho. injection Ho as <-. simpl in Hp.
        destruct (decide (id = z)) as [->|Hne]; [rewrite lookup_delete_eq in Hp; discriminate|].
        rewrite lookup_delete_ne in Hp by done. eauto.
      - split; [|eauto]. intros ->.
        destruct (IP _ _ _ _ Ho Hp) as (_ & _ & _ & [[(cb' & Hcb' & Hc') _]|(_ & _ & Hin)]).
        + rewrite Ht in Hcb'. injection Hcb' as <-. congruence.
        + contradiction. }
    destruct (IP _ _ _ _ Ho0 Hp0) as (? & ? & ? & Hd).
    repeat split; [done..|].
    rewrite lookup_delete_ne by done. exact Hd.
  - intros id cb'. simp_state. intros H.
    apply lookup_delete_Some in H as [Hne H].
    apply IT in H as (? & ? & conn0 & Ho0 & Hp0).
    split; [done|]. split; [done|].
    rewrite lookup_on_object. simpl. rewrite Ho0.
    case_decide; simpl; eexists; (split; [done|]); [|done].
    simpl. by rewrite lookup_delete_ne.
  - simp_state. done.
  - intros id. simp_state. apply IS.
  - intros name a' Hc. simp_state. rewrite lookup_on_object. simpl.
    destruct (IC _ _ Hc) as [x Hx]. rewrite Hx. case_decide; simpl; eauto.
  - exact II.
  - simp_state. done.
Qed.

Lemma Inv_retire c a z cb s :
  Inv c -> timers c !! z = Some cb -> tc_connection cb = a ->
  Inv (settle z s (on_object a (set_pending (delete z)) (set_timers (delete z) c))).
Proof.
  intros [IP IT IN IS IC II IZ] Ht Ha.
  destruct (IT _ _ Ht) as (Hle & Hns & _).
  split.
  - intros a' conn' id p'. simp_state. rewrite lookup_on_object. simpl.
    intros Ho Hp.
    assert (id <> z /\ exists conn0, objects c !! a' = Some conn0
                        /\ pendingRequests conn0 !! id = Some p') as [Hne (conn0 & Ho0 & Hp0)].
    { case_decide as Ea.
      - subst a'. destruct (objects c !! a) as [conn0|] eqn:E; [|discriminate].
        simpl in Ho. injection Ho as <-. simpl in Hp.
        destruct (decide (id = z)) as [->|Hne]; [rewrite lookup_delete_eq in Hp; discriminate|].
        rewrite lookup_delete_ne in Hp by done. eauto.
      - split; [|eauto]. intros ->.
        destruct (IP _ _ _ _ Ho Hp) as (_ & _ & _ & [[(cb' & Hcb' & Hc') _]|(_ & _ & Hin)]).
        + rewrite Ht in Hcb'. injection Hcb' as <-. congruence.
        + contradiction. }
    destruct (IP _ _ _ _ Ho0 Hp0) as (? & ? & ? & Hd).
    repeat split; [done..|].
    rewrite lookup_delete_ne by done.
    destruct Hd as [[Hcb Hn]|(Hl & Hn & Hin)]; [left|right].
    + split; [done|]. rewrite not_elem_of_cons. done.
    + repeat split; [done..|]. apply elem_of_cons. by right.
  - intros id cb'. simp_state. intros H.
    apply lookup_delete_Some in H as [Hne H].
    apply IT in H as (? & ? & conn0 & Ho0 & Hp0).
    split; [done|]. split; [rewrite not_elem_of_cons; done|].
    rewrite lookup_on_object. simpl. rewrite Ho0.
    case_decide; simpl; eexists; (split; [done|]); [|done].
    simpl. by rewrite lookup_delete_ne.
  - simp_state. constructor; done.
  - intros id. simp_state. rewrite elem_of_cons. intros [->|H]; [done|by apply IS].
  - intros name a' Hc. simp_state. rewrite lookup_on_object. simpl.
    destruct (IC _ _ Hc) as [x Hx]. rewrite Hx. case_decide; simpl; eauto.
  - exact II.
  - simp_state. done.
Qed.

Lemma Inv_timeout_fires id c : Inv c -> Inv (timeout_fires id c).
Proof.
  intros I. unfold timeout_fires.
  destruct (timers c !! id) as [cb|] eqn:Ht; [|exact I].
  eapply Inv_retire; eauto.
Qed.

(** What [handleResponse] does: nothing, or it forwards a notification, or
    it retires the pending request that bears the id of the response. *)
Lemma handleResponse_cases n a r c :
  handleResponse n a r c = c
  \/ (prop r "id" = None /\ handleResponse n a r c = emit (EvNotification n r) c)
  \/ exists z conn p,
       prop r "id" = Some (JNum z) /\ objects c !! a = Some conn
       /\ pendingRequests conn !! z = Some p
       /\ let c2 := on_object a (set_pending (delete z)) (clearTimeout (timer p) c) in
          handleResponse n a r c = match outcome r with
                                   | Some s => settle (promise p) s c2
                                   | None => c2
                                   end.
Proof.
  unfold handleResponse.
  destruct (prop r "id") as [id|] eqn:Hid.
  - destruct (objects c !! a) as [conn|] eqn:Ho; [|left; by destruct r].
    destruct id as [| | z | | | |]; simpl; try (left; by destruct r).
    destruct (pendingRequests conn !! z) as [p|] eqn:Hp; [|left; by destruct r].
    destruct r; try discriminate Hid.
    right. right. exists z, conn, p. done.
  - destruct r; [by left|right; left; done..].
Qed.

Lemma Inv_handleResponse n a r c :
  Inv c -> live a c -> Inv (handleResponse n a r c).
Proof.
  intros I La.
  destruct (handleResponse_cases n a r c)
    as [->|[[_ ->]|(z & conn & p & _ & Ho & Hp & ->)]]; [done|by apply Inv_emit|].
  destruct (inv_pending _ I _ _ _ _ Ho Hp) as (Hpr & Htm & _ & [[(cb & Hcb & Hc) _]|(Hl & _)]);
    [|contradiction].
  rewrite Hpr, Htm. unfold clearTimeout.
  destruct (outcome r); [eapply Inv_retire|eapply Inv_abandon]; eauto.
Qed.

Section RunInvariant.

Variable JSON_parse : string -> Result string Json.

Lemma live_handleResponse n a r c a' :
  live a' (handleResponse n a r c) <-> live a' c.
Proof.
  destruct (handleResponse_cases n a r c)
    as [->|[[_ ->]|(z & conn & p & _ & _ & _ & ->)]]; [done..|].
  by destruct (outcome r).
Qed.

Lemma Inv_handleLine n a c line :
  Inv c -> live a c -> Inv (handleLine JSON_parse n a c line) /\ live a (handleLine JSON_parse n a c line).
Proof.
  intros I La. unfold handleLine.
  destruct (String.eqb _ _); [done|].
  destruct (JSON_parse _); [|done].
  split; [by apply Inv_handleResponse|by apply live_handleResponse].
Qed.

Lemma Inv_set_buffer a b c : Inv c -> Inv (on_object a (set_buffer b) c).
Proof. by apply Inv_on_object. Qed.

Lemma Inv_handleServerData n data c :
  Inv c -> Inv (handleServerData JSON_parse n data c).
Proof.
  intros I. unfold handleServerData.
  destruct (get_connection n c) as [[a conn]|] eqn:G; [|exact I].
  apply get_connection_Some in G as [Gc Go].
  destruct (pop _) as [lines rest].
  assert (Inv (on_object a (set_buffer (or_empty rest)) c)
          /\ live a (on_object a (set_buffer (or_empty rest)) c)) as H.
  { split; [by apply Inv_set_buffer|by exists n]. }
  revert H. generalize (on_object a (set_buffer (or_empty rest)) c).
  induction lines as [|l ls IH]; intros c0 [I0 L0]; simpl; [done|].
  apply IH. by apply Inv_handleLine.
Qed.


Lemma Inv_step c o : Inv c -> Inv (step JSON_parse c o).
Proof.
  intros I. destruct o; simpl.
  - by apply Inv_spawn.
  - by apply Inv_sendRequest.
  - by apply Inv_sendNotification.
  - by apply Inv_handleServerData.
  - by apply Inv_timeout_fires.
  - by apply Inv_disconnectServer.
  - by apply Inv_on_exit.
  - by apply Inv_on_error.
  - by apply Inv_on_object.
Qed.

Lemma Inv_run ops c : Inv c -> Inv (run JSON_parse ops c).
Proof.
  revert c. induction ops as [|o ops IH]; intros c I; simpl; [done|].
  apply IH, Inv_step, I.
Qed.

(** *** The request counter only moves in [sendRequest] *)

Lemma requestId_handleResponse n a r c :
  requestId (handleResponse n a r c) = requestId c.
Proof.
  destruct (handleResponse_cases n a r c)
    as [->|[[_ ->]|(z & conn & p & _ & _ & _ & ->)]]; [done..|].
  by destruct (outcome r).
Qed.

Lemma requestId_handleServerData n data c :
  requestId (handleServerData JSON_parse n data c) = requestId c.
Proof.
  unfold handleServerData.
  destruct (get_connection n c) as [[a conn]|]; [|reflexivity].
  destruct (pop _) as [lines rest].
  change (requestId c) with (requestId (on_object a (set_buffer (or_empty rest)) c)).
  generalize (on_object a (set_buffer (or_empty rest)) c).
  induction lines as [|l ls IH]; intros c0; simpl; [done|].
  rewrite IH. unfold handleLine.
  destruct (String.eqb _ _); [done|].
  destruct (JSON_parse _); [apply requestId_handleResponse|done].
Qed.

Lemma requestId_disconnectServer n c :
  requestId (disconnectServer n c) = requestId c.
Proof.
  unfold disconnectServer.
  destruct (get_connection n c) as [[a conn]|]; [|reflexivity].
  simpl. autorewrite with client.
  by destruct (fold_reject_fields (pending_entries (pendingRequests conn)) c) as (_ & _ & ? & _).
Qed.

Lemma requestId_timeout_fires id c : requestId (timeout_fires id c) = requestId c.
Proof. unfold timeout_fires. by destruct (timers c !! id). Qed.

Lemma requestId_sendNotification n m p c :
  requestId (sendNotification n m p c) = requestId c.
Proof. unfold sendNotification. by destruct (get_connection n c) as [[a conn]|]. Qed.

Lemma sendRequest_id n m p c id :
  (sendRequest n m p c).1 = Ok id ->
  id = requestId c + 1 /\ requestId (sendRequest n m p c).2 = id.
Proof.
  unfold sendRequest. destruct (get_connection n c) as [[a conn]|]; simpl; [|done].
  intros [= <-]. done.
Qed.

Lemma requestId_step c o : requestId c <= requestId (step JSON_parse c o).
Proof.
  destruct o; simpl.
  - done.
  - unfold sendRequest. destruct (get_connection _ c) as [[a conn]|]; simpl;
      autorewrite with client; simpl; lia.
  - by rewrite requestId_sendNotification.
  - by rewrite requestId_handleServerData.
  - by rewrite requestId_timeout_fires.
  - by rewrite requestId_disconnectServer.
  - done.
  - done.
  - done.
Qed.

Lemma issued_increasing ops c :
  StronglySorted Z.lt (issued JSON_parse ops c)
  /\ Forall (fun id => requestId c < id) (issued JSON_parse ops c).
Proof.
  revert c. induction ops as [|o ops IH]; intros c; simpl.
  - split; constructor.
  - destruct (IH (step JSON_parse c o)) as [Hs Hf].
    pose proof (requestId_step c o) as Hle.
    assert (Forall (fun id => requestId c < id) (issued JSON_parse ops (step JSON_parse c o))) as Hf'.
    { eapply Forall_impl; [exact Hf|]. simpl. intros; lia. }
    destruct o; try (split; assumption).
    destruct ((sendRequest serverName method params c).1) as [id|e] eqn:E; [|split; assumption].
    apply sendRequest_id in E as [-> E]. simpl in Hf. rewrite E in Hf.
    split; constructor; try done. lia.
Qed.

End RunInvariant.

Lemma StronglySorted_lt_NoDup (l : list Z) : StronglySorted Z.lt l -> NoDup l.
Proof.
  induction 1 as [|x l Hs IH Hf]; constructor; [|done].
  intros Hin. rewrite Forall_forall in Hf. apply Hf in Hin. lia.
Qed.

(** In a state that satisfies the invariant, an id is pending in at most
    one connection object, the one its timer names. *)
Lemma pending_unique c a a' conn conn' z :
  Inv c -> live a c ->
  objects c !! a = Some conn -> is_Some (pendingRequests conn !! z) ->
  objects c !! a' = Some conn' -> is_Some (pendingRequests conn' !! z) ->
  a' = a.
Proof.
  intros I La Ho [p Hp] Ho' [p' Hp'].
  destruct (inv_pending _ I _ _ _ _ Ho Hp) as (_ & _ & _ & [[(cb & Hcb & Hc) Hn]|(Hl & _)]);
    [|contradiction].
  destruct (inv_pending _ I _ _ _ _ Ho' Hp') as (_ & _ & _ & [[(cb' & Hcb' & Hc') _]|(_ & _ & ?)]);
    [congruence|contradiction].
Qed.

(** ** Claims on the transport *)

Section TransportClaims.

Variable JSON_parse : string -> Result string Json.

(** *** A request and the lines that bear its id *)

Lemma settled_handleResponse n a r c id :
  id ∈ settled_ids c -> id ∈ settled_ids (handleResponse n a r c).
Proof.
  intros H.
  destruct (handleResponse_cases n a r c)
    as [->|[[_ ->]|(z & conn & p & _ & _ & _ & ->)]]; [done..|].
  destruct (outcome r); [|done]. unfold settled_ids in *. simpl. by right.
Qed.

Lemma settled_fold_handleLine n a lines c id :
  id ∈ settled_ids c -> id ∈ settled_ids (fold_left (handleLine JSON_parse n a) lines c).
Proof.
  revert c. induction lines as [|l ls IH]; intros c H; simpl; [done|].
  apply IH. unfold handleLine. destruct (String.eqb _ _); [done|].
  destruct (JSON_parse _); [by apply settled_handleResponse|done].
Qed.

(** A response leaves the timer of request [id] armed unless it bears
    that id and comes from the server the request was sent to. *)
Lemma handleResponse_timer n a r c id cb :
  Inv c -> live a c -> timers c !! id = Some cb ->
  timers (handleResponse n a r c) !! id = Some cb
  \/ (a = tc_connection cb /\ prop r "id" = Some (JNum id)
      /\ (id ∈ settled_ids (handleResponse n a r c) \/ outcome r = None)).
Proof.
  intros I La Ht.
  destruct (handleResponse_cases n a r c)
    as [->|[[_ ->]|(z & conn & p & Hid & Ho & Hp & ->)]]; [by left..|].
  destruct (inv_pending _ I _ _ _ _ Ho Hp) as (Hpr & Htm & _ & [[(cb' & Hcb' & Hc') _]|(Hl & _)]);
    [|contradiction].
  destruct (decide (z = id)) as [->|Hne].
  - right. rewrite Ht in Hcb'. injection Hcb' as <-.
    split; [done|]. split; [done|].
    destruct (outcome r); [left|by right].
    unfold settled_ids. simpl. autorewrite with client. rewrite Hpr. by left.
  - left. rewrite Htm.
    assert (timers (on_object a (set_pending (delete z)) (clearTimeout z c)) !! id = Some cb) as H.
    { autorewrite with client. simpl. by rewrite lookup_delete_ne. }
    by destruct (outcome r).
Qed.

Lemma fold_handleLine_timer n a lines c id cb :
  Inv c -> live a c -> timers c !! id = Some cb ->
  let c' := fold_left (handleLine JSON_parse n a) lines c in
  timers c' !! id = Some cb
  \/ (a = tc_connection cb
      /\ exists line response,
           line ∈ lines /\ JSON_parse (trim line) = Ok response
           /\ prop response "id" = Some (JNum id)
           /\ (id ∈ settled_ids c' \/ outcome response = None)).
Proof.
  revert c. induction lines as [|l ls IH]; intros c I La Ht; simpl; [by left|].
  destruct (Inv_handleLine JSON_parse n a c l I La) as [I1 L1].
  assert (timers (handleLine JSON_parse n a c l) !! id = Some cb
          \/ (a = tc_connection cb
              /\ exists response, JSON_parse (trim l) = Ok response
                   /\ prop response "id" = Some (JNum id)
                   /\ (id ∈ settled_ids (handleLine JSON_parse n a c l)
                       \/ outcome response = None))) as [H|(Ha & r & Hr & Hid & Hs)].
  { unfold handleLine. destruct (String.eqb _ _); [by left|].
    destruct (JSON_parse (trim l)) as [r|e]; [|by left].
    destruct (handleResponse_timer n a r c id cb I La Ht) as [?|(? & ? & ?)]; [by left|].
    right. split; [done|]. by exists r. }
  - destruct (IH _ I1 L1 H) as [?|(Ha & line & r & Hin & ?)]; [by left|].
    right. split; [done|]. exists line, r. split; [by right|done].
  - right. split; [done|]. exists l, r. split; [by left|]. split; [done|]. split; [done|].
    destruct Hs as [Hs|Hs]; [left|by right]. by apply settled_fold_handleLine.
Qed.

(** The same for a chunk of standard output: the lines it completes are
    those of the buffer followed by the chunk. *)
Lemma handleServerData_timer n data c id cb :
  Inv c -> timers c !! id = Some cb ->
  let c' := handleServerData JSON_parse n data c in
  timers c' !! id = Some cb
  \/ exists conn line response,
       get_connection n c = Some (tc_connection cb, conn)
       /\ line ∈ complete (buffer conn +:+ toString data)
       /\ JSON_parse (trim line) = Ok response
       /\ prop response "id" = Some (JNum id)
       /\ (id ∈ settled_ids c' \/ outcome response = None).
Proof.
  intros I Ht c'. subst c'. unfold handleServerData, complete, pop.
  destruct (get_connection n c) as [[a conn]|] eqn:G; [|by left].
  apply get_connection_Some in G as [Gc Go]. simpl.
  set (lines := removelast _). set (rest := last _).
  destruct (fold_handleLine_timer n a lines (on_object a (set_buffer (or_empty rest)) c) id cb)
    as [?|(-> & line & r & ?)]; [by apply Inv_set_buffer|by exists n|done|by left|].
  right. by exists conn, line, r.
Qed.



(** C3, as amended.  A parsed line whose value is not [null] and has no
    [id] property is forwarded as a [notification] event; the line [null]
    is dropped, and so is a parsed line that has an [id] which matches no
    pending request of the connection: the state, and with it the list of
    emitted events, is unchanged. *)
Theorem unmatched_message_is_forwarded_only_without_id
    (name : string) (a : nat) (line : string) (response : Json) (c : MCPClient) :
  JSON_parse (trim line) = Ok response ->
  trim line <> EmptyString ->
  (prop response "id" = None -> response <> JNull ->
   handleLine JSON_parse name a c line = emit (EvNotification name response) c)
  /\ (response = JNull -> handleLine JSON_parse name a c line = c)
  /\ (forall id, prop response "id" = Some id ->
        (forall conn, objects c !! a = Some conn ->
                      pending_get id (pendingRequests conn) = None) ->
        handleLine JSON_parse name a c line = c).
Proof.
  intros Hparse Hne. unfold handleLine. rewrite Hparse.
  destruct (String.eqb_spec (trim line) EmptyString) as [E|_]; [contradiction|].
  unfold handleResponse. split; [|split].
  - intros Hid Hnull. rewrite Hid. by destruct response.
  - by intros ->.
  - intros id Hid Hnone. rewrite Hid.
    destruct (objects c !! a) as [conn|] eqn:Ho.
    + rewrite (Hnone conn eq_refl). by destruct response.
    + by destruct response.
Qed.
End TransportClaims.

(** C3, witness: a line [{"method":"ping"}] is forwarded. *)
Lemma unmatched_message_witness :
  events (handleServerData parse "fs" (buffer_of (json_text "{'method':'ping'}" +:+ Types.nl))
            fs_client)
  = [EvNotification "fs" (JObj [("method", JStr "ping")])].
Proof.
  pose proof (unmatched_message_is_forwarded_only_without_id parse "fs" 0
                (json_text "{'method':'ping'}") (JObj [("method", JStr "ping")])
                (on_object 0 (set_buffer EmptyString) fs_client)) as H.
  destruct H as [H _]; [vm_compute; reflexivity | vm_compute; discriminate |].
  change (handleServerData parse "fs"
            (buffer_of (json_text "{'method':'ping'}" +:+ Types.nl)) fs_client)
    with (handleLine parse "fs" 0 (on_object 0 (set_buffer EmptyString) fs_client)
            (json_text "{'method':'ping'}")).
  rewrite H; [reflexivity | reflexivity | discriminate].
Defined.

(** C3, counterexample to the claim as stated: an object with the numeric id
    7, which no pending request bears, is not forwarded to observers. *)
Lemma response_with_unknown_id_is_dropped :
  parse (trim (json_text "{'jsonrpc':'2.0','id':7,'result':{}}"))
  = Ok (JObj [("jsonrpc", JStr "2.0"); ("id", JNum 7); ("result", JObj [])])
  /\ (pendingRequests <$> (snd <$> get_connection "fs" fs_client)) = Some ∅
  /\ events (handleServerData parse "fs"
               (buffer_of (json_text "{'jsonrpc':'2.0','id':7,'result':{}}" +:+ Types.nl))
               fs_client) = [].
Proof.
  split; [vm_compute; reflexivity|]. split; vm_compute; reflexivity.
Qed.




(** C6, as amended.  [callTool] on a server with no connection entry throws
    at once and leaves the client as it is (no id is taken, nothing is
    written); on a server that has a connection entry, ready or not, it
    takes the next id and writes the [tools/call] request to the
    subprocess. *)
Theorem callTool_requires_a_connection_not_readiness
    (serverName toolName : string) (args : Json) (c : MCPClient) :
  match get_connection serverName c with
  | None =>
      callTool serverName toolName args c = (Throw (NotConnected serverName), c)
  | Some (a, conn) =>
      (callTool serverName toolName args c).1 = Ok (requestId c + 1)
      /\ exists conn',
           objects (callTool serverName toolName args c).2 !! a = Some conn'
           /\ stdin conn'
              = stdin conn ++ [Request (requestId c + 1) "tools/call"
                                 (JObj [("name", JStr toolName); ("arguments", args)])]
           /\ ready conn' = ready conn
  end.
Proof.
  unfold callTool, sendRequest.
  destruct (get_connection serverName c) as [[a conn]|] eqn:G; [|done].
  apply get_connection_Some in G as [Gc Go]. simpl. split; [done|].
  rewrite lookup_on_object. simpl. rewrite decide_True by done. rewrite Go. simpl.
  eexists. split; [done|]. done.
Qed.

(** C6, counterexample to the claim as stated: the server has just been
    spawned ([ready] is false), and the request is sent all the same. *)
Lemma callTool_on_a_starting_server_sends :
  (ready <$> (snd <$> get_connection "fs" fs_client)) = Some false
  /\ (callTool "fs" "read_file" (JObj []) fs_client).1 = Ok 1
  /\ (stdin <$> objects (callTool "fs" "read_file" (JObj []) fs_client).2 !! 0%nat)
     = Some [Request 1 "tools/call"
               (JObj [("name", JStr "read_file"); ("arguments", JObj [])])].
Proof.
  split; [vm_compute; reflexivity|]. split; vm_compute; reflexivity.
Qed.

(** ** Lines and the partial line *)

Lemma split_newline_cons s : exists l ls, split_newline s = l :: ls.
Proof.
  induction s as [|c s (l & ls & IH)]; simpl; [eauto|].
  rewrite IH. destruct (Ascii.eqb c newline); eauto.
Qed.

Lemma complete_empty : complete EmptyString = [].
Proof. reflexivity. Qed.

Lemma partial_empty : partial EmptyString = EmptyString.
Proof. reflexivity. Qed.

Lemma complete_String c s :
  complete (String c s)
  = if Ascii.eqb c newline then EmptyString :: complete s
    else match complete s with
         | [] => []
         | l :: ls => String c l :: ls
         end.
Proof.
  unfold complete, pop. simpl.
  destruct (split_newline_cons s) as (l & ls & E). rewrite E.
  destruct (Ascii.eqb c newline); simpl; [done|].
  destruct ls; simpl; done.
Qed.

Lemma partial_String c s :
  partial (String c s)
  = if Ascii.eqb c newline then partial s
    else match complete s with
         | [] => String c (partial s)
         | _ :: _ => partial s
         end.
Proof.
  unfold partial, complete, pop. simpl.
  destruct (split_newline_cons s) as (l & ls & E). rewrite E.
  destruct (Ascii.eqb c newline); simpl.
  - done.
  - destruct ls as [|l' ls]; simpl; done.
Qed.

(** Feeding [s1] and then [s2] finds the lines of [s1 ++ s2]. *)
Lemma complete_partial_app s1 s2 :
  complete (s1 +:+ s2) = complete s1 ++ complete (partial s1 +:+ s2)
  /\ partial (s1 +:+ s2) = partial (partial s1 +:+ s2).
Proof.
  induction s1 as [|c s1 [IHc IHp]]; [done|].
  change (String c s1 +:+ s2) with (String c (s1 +:+ s2)).
  rewrite !complete_String, !partial_String.
  destruct (Ascii.eqb c newline) eqn:Ec.
  - rewrite IHc, IHp. done.
  - destruct (complete s1) as [|l ls] eqn:E.
    + change (String c (partial s1) +:+ s2) with (String c (partial s1 +:+ s2)).
      rewrite complete_String, partial_String, Ec. simpl in IHc.
      rewrite IHc, IHp. done.
    + rewrite IHc, IHp. done.
Qed.

Lemma complete_nil_String c s :
  complete (String c s) = [] <-> Ascii.eqb c newline = false /\ complete s = [].
Proof.
  rewrite complete_String. destruct (Ascii.eqb c newline); [split; [done|intros [? _]; done]|].
  destruct (complete s); split; try done. intros [_ ?]. done.
Qed.

Lemma partial_incomplete s : complete s = [] -> partial s = s.
Proof.
  induction s as [|c s IH]; [done|].
  intros H. apply complete_nil_String in H as [Hc Hs].
  rewrite partial_String, Hc, Hs. by rewrite IH.
Qed.

Lemma complete_partial s : complete (partial s) = [].
Proof.
  induction s as [|c s IH]; [done|].
  rewrite partial_String. destruct (Ascii.eqb c newline) eqn:Hc; [done|].
  destruct (complete s) eqn:Hs; [|done].
  apply complete_nil_String. done.
Qed.

Lemma complete_app_nil s1 s2 :
  complete s1 = [] -> complete s2 = [] -> complete (s1 +:+ s2) = [].
Proof.
  induction s1 as [|c s1 IH]; [done|].
  intros H1 H2. apply complete_nil_String in H1 as [Hc Hs].
  change (String c s1 +:+ s2) with (String c (s1 +:+ s2)).
  apply complete_nil_String. split; [done|by apply IH].
Qed.

(** ** Feeding a text in pieces *)

Lemma string_app_assoc (s1 s2 s3 : string) : (s1 +:+ s2) +:+ s3 = s1 +:+ s2 +:+ s3.
Proof.
  induction s1 as [|c s1 IH]; [done|].
  change (String c ((s1 +:+ s2) +:+ s3) = String c (s1 +:+ s2 +:+ s3)).
  by rewrite IH.
Qed.


Lemma client_ext (c c' : MCPClient) :
  mcpServers c = mcpServers c' -> objects c = objects c' ->
  connections c = connections c' -> requestId c = requestId c' ->
  timers c = timers c' -> settled c = settled c' -> events c = events c' ->
  c = c'.
Proof. destruct c, c'; simpl; intros; subst; reflexivity. Qed.

Lemma objects_on_object_None a f c :
  objects c !! a = None -> on_object a f c = c.
Proof.
  intros H. apply client_ext; try reflexivity.
  apply map_eq. intros a'. rewrite lookup_on_object.
  case_decide; [subst; by rewrite H|done].
Qed.

Lemma on_object_on_object a f g c :
  on_object a f (on_object a g c) = on_object a (fun conn => f (g conn)) c.
Proof.
  apply client_ext; try reflexivity.
  apply map_eq. intros a'. rewrite !lookup_on_object.
  case_decide; [|done]. by destruct (objects c !! a').
Qed.

Lemma on_object_ext a f g c :
  (forall conn, f conn = g conn) -> on_object a f c = on_object a g c.
Proof.
  intros H. apply client_ext; try reflexivity.
  apply map_eq. intros a'. rewrite !lookup_on_object.
  case_decide; [|done]. destruct (objects c !! a'); simpl; [by rewrite H|done].
Qed.

Section Chunks.

Variable JSON_parse : string -> Result string Json.

Lemma handleServerData_handleText name data c :
  handleServerData JSON_parse name data c = handleText JSON_parse name (toString data) c.
Proof.
  unfold handleServerData, handleText, complete, partial.
  destruct (get_connection name c) as [[a conn]|]; [|done].
  by destruct (pop _).
Qed.

(** Setting the buffer commutes with handling a line. *)
Lemma handleResponse_set_buffer n a b r c :
  handleResponse n a r (on_object a (set_buffer b) c)
  = on_object a (set_buffer b) (handleResponse n a r c).
Proof.
  unfold handleResponse.
  assert (forall id,
    match objects (on_object a (set_buffer b) c) !! a with
    | Some conn =>
        match pending_get id (pendingRequests conn) with
        | Some pending =>
            match outcome r with
            | Some s =>
                settle (promise pending) s
                  (on_object a (set_pending (pending_delete id))
                     (clearTimeout (timer pending) (on_object a (set_buffer b) c)))
            | None =>
                on_object a (set_pending (pending_delete id))
                  (clearTimeout (timer pending) (on_object a (set_buffer b) c))
            end
        | None => on_object a (set_buffer b) c
        end
    | None => on_object a (set_buffer b) c
    end
    = on_object a (set_buffer b)
        match objects c !! a with
        | Some conn =>
            match pending_get id (pendingRequests conn) with
            | Some pending =>
                match outcome r with
                | Some s =>
                    settle (promise pending) s
                      (on_object a (set_pending (pending_delete id))
                         (clearTimeout (timer pending) c))
                | None =>
                    on_object a (set_pending (pending_delete id))
                      (clearTimeout (timer pending) c)
                end
            | None => c
            end
        | None => c
        end) as H.
  { intros id. rewrite lookup_on_object, decide_True by done.
    destruct (objects c !! a) as [conn|] eqn:Ho; simpl; [|done].
    destruct (pending_get id (pendingRequests conn)) as [p|]; [|done].
    destruct (outcome r);
      (apply client_ext; try reflexivity;
       apply map_eq; intros a'; simpl; rewrite !lookup_on_object; simpl;
       rewrite !lookup_on_object; simpl;
       case_decide; [|done]; subst a'; rewrite Ho; done). }
  destruct r; try done; (destruct (prop _ "id"); [apply H|done]).
Qed.

Lemma handleLine_set_buffer n a b c line :
  handleLine JSON_parse n a (on_object a (set_buffer b) c) line
  = on_object a (set_buffer b) (handleLine JSON_parse n a c line).
Proof.
  unfold handleLine. destruct (String.eqb _ _); [done|].
  destruct (JSON_parse _); [apply handleResponse_set_buffer|done].
Qed.

Lemma fold_handleLine_set_buffer n a b lines c :
  fold_left (handleLine JSON_parse n a) lines (on_object a (set_buffer b) c)
  = on_object a (set_buffer b) (fold_left (handleLine JSON_parse n a) lines c).
Proof.
  revert c. induction lines as [|l ls IH]; intros c; simpl; [done|].
  by rewrite handleLine_set_buffer, IH.
Qed.

Lemma connections_handleResponse n a r c :
  connections (handleResponse n a r c) = connections c.
Proof.
  destruct (handleResponse_cases n a r c)
    as [->|[[_ ->]|(z & conn & p & _ & _ & _ & ->)]]; [done..|].
  by destruct (outcome r).
Qed.

Lemma buffer_handleResponse n a r c a' :
  buffer <$> objects (handleResponse n a r c) !! a' = buffer <$> objects c !! a'.
Proof.
  destruct (handleResponse_cases n a r c)
    as [->|[[_ ->]|(z & conn & p & _ & _ & _ & ->)]]; [done..|].
  assert (buffer <$> objects (on_object a (set_pending (delete z))
                                (clearTimeout (timer p) c)) !! a'
          = buffer <$> objects c !! a') as H.
  { rewrite lookup_on_object. simpl. case_decide; [|done]. by destruct (objects c !! a'). }
  by destruct (outcome r).
Qed.

Lemma handleLine_frame n a c line :
  connections (handleLine JSON_parse n a c line) = connections c
  /\ forall a', buffer <$> objects (handleLine JSON_parse n a c line) !! a'
                = buffer <$> objects c !! a'.
Proof.
  unfold handleLine. destruct (String.eqb _ _); [done|].
  destruct (JSON_parse _); [|done].
  split; [apply connections_handleResponse|intros; apply buffer_handleResponse].
Qed.

Lemma fold_handleLine_frame n a lines c :
  let c' := fold_left (handleLine JSON_parse n a) lines c in
  connections c' = connections c
  /\ forall a', buffer <$> objects c' !! a' = buffer <$> objects c !! a'.
Proof.
  revert c. induction lines as [|l ls IH]; intros c; simpl; [done|].
  destruct (IH (handleLine JSON_parse n a c l)) as [Hc Hb].
  destruct (handleLine_frame n a c l) as [Hc' Hb'].
  split; [congruence|]. intros a'. by rewrite Hb, Hb'.
Qed.

(** Two chunks of text, one after the other, are handled as their
    concatenation is. *)
Lemma handleText_app name t1 t2 c :
  handleText JSON_parse name t2 (handleText JSON_parse name t1 c)
  = handleText JSON_parse name (t1 +:+ t2) c.
Proof.
  unfold handleText at 2 3.
  destruct (get_connection name c) as [[a conn]|] eqn:G.
  2:{ unfold handleText. by rewrite G. }
  apply get_connection_Some in G as [Gc Go].
  set (t := buffer conn +:+ t1).
  destruct (complete_partial_app t t2) as [Ec Ep].
  replace (buffer conn +:+ t1 +:+ t2) with (t +:+ t2)
    by (unfold t; apply string_app_assoc).
  rewrite Ec, Ep, fold_left_app.
  set (c1 := fold_left (handleLine JSON_parse name a) (complete t)
               (on_object a (set_buffer (partial t)) c)).
  destruct (fold_handleLine_frame name a (complete t)
              (on_object a (set_buffer (partial t)) c)) as [Hc Hb].
  fold c1 in Hc, Hb.
  assert (exists conn1, get_connection name c1 = Some (a, conn1)
                        /\ buffer conn1 = partial t) as (conn1 & G1 & B1).
  { specialize (Hb a). rewrite lookup_on_object, decide_True, Go in Hb by done.
    simpl in Hb. destruct (objects c1 !! a) as [conn1|] eqn:E; [|done].
    exists conn1. split; [|by injection Hb].
    apply get_connection_Some. split; [|done]. by rewrite Hc. }
  unfold handleText. rewrite G1, B1.
  f_equal. unfold c1.
  rewrite !fold_handleLine_set_buffer, on_object_on_object.
  f_equal.
Qed.

Lemma string_app_empty (s : string) : s +:+ EmptyString = s.
Proof.
  induction s as [|c s IH]; [done|].
  change (String c (s +:+ EmptyString) = String c s). by rewrite IH.
Qed.

Lemma fold_handleText name chunks t c :
  fold_left (fun c d => handleServerData JSON_parse name d c) chunks
    (handleText JSON_parse name t c)
  = handleText JSON_parse name (t +:+ decoded chunks) c.
Proof.
  revert t. induction chunks as [|d ds IH]; intros t; simpl.
  - by rewrite string_app_empty.
  - rewrite handleServerData_handleText, handleText_app, IH.
    by rewrite string_app_assoc.
Qed.

Theorem chunks_are_handled_as_their_concatenation
    (name : string) (d : Buffer) (ds : list Buffer) (c : MCPClient) :
  toString (concat (d :: ds)) = decoded (d :: ds) ->
  fold_left (fun c x => handleServerData JSON_parse name x c) (d :: ds) c
  = handleServerData JSON_parse name (concat (d :: ds)) c.
Proof.
  intros H. simpl fold_left.
  rewrite !handleServerData_handleText, fold_handleText, H. done.
Qed.

End Chunks.

(** ** Chunks that end between characters decode piecewise *)

Lemma in_range_apart lo hi lo' hi' b :
  in_range lo hi b = true -> (hi < lo' \/ hi' < lo)%N -> in_range lo' hi' b = false.
Proof.
  unfold in_range. rewrite andb_true_iff, andb_false_iff, !N.leb_le, !N.leb_gt. lia.
Qed.

Lemma toString_app (a b : Buffer) :
  well_formed a -> toString (a ++ b) = toString a +:+ toString b.
Proof.
  induction 1 as [|x rest Hx _ IH|x c rest Hx Hc _ IH
                  |x c d rest Hx Hc Hd _ IH|x c d e rest Hx Hc Hd He _ IH].
  - done.
  - cbn [app toString]. rewrite Hx, IH. done.
  - cbn [app toString].
    rewrite (in_range_apart _ _ 0 127 _ Hx) by lia. rewrite Hx, Hc, IH. done.
  - cbn [app toString].
    rewrite (in_range_apart _ _ 0 127 _ Hx), (in_range_apart _ _ 194 223 _ Hx) by lia.
    rewrite Hx, Hc, Hd, IH. done.
  - cbn [app toString].
    rewrite (in_range_apart _ _ 0 127 _ Hx), (in_range_apart _ _ 194 223 _ Hx),
      (in_range_apart _ _ 224 239 _ Hx) by lia.
    rewrite Hx, Hc, Hd, He, IH. done.
Qed.

Lemma toString_concat (chunks : list Buffer) :
  Forall well_formed chunks -> toString (concat chunks) = decoded chunks.
Proof.
  induction 1 as [|d ds Hd _ IH]; [done|].
  simpl. by rewrite toString_app, IH.
Qed.

(** ** Claims on chunked standard output *)

Section ChunkClaims.

Variable JSON_parse : string -> Result string Json.

(** Chunks that each end between two characters (in particular every
    splitting of an ASCII stream, mid-line or not) leave the client in
    the state the whole stream leaves it in: same messages parsed in the
    same order, same requests settled, same events, same buffer. *)
Theorem aligned_chunks_are_handled_as_whole_lines
    (name : string) (d : Buffer) (ds : list Buffer) (c : MCPClient) :
  Forall well_formed (d :: ds) ->
  fold_left (fun c x => handleServerData JSON_parse name x c) (d :: ds) c
  = handleServerData JSON_parse name (concat (d :: ds)) c.
Proof.
  intros H. apply chunks_are_handled_as_their_concatenation.
  by apply toString_concat.
Qed.

(** A line [JSON.parse] rejects is dropped and leaves the state as it
    was, so the lines after it are handled as if it had not been there. *)
Theorem malformed_line_is_discarded
    (name : string) (a : nat) (line e : string) (c : MCPClient) :
  JSON_parse (trim line) = Throw e ->
  handleLine JSON_parse name a c line = c.
Proof.
  intros H. unfold handleLine. rewrite H. by destruct (String.eqb _ _).
Qed.
End ChunkClaims.

(** Witness: a line that is no JSON, between two that are; only the two
    are forwarded. *)
Lemma malformed_line_witness :
  events (handleServerData parse "fs"
            (buffer_of (json_text "{'method':'a'}" +:+ Types.nl +:+ "Listening on stdio"
                        +:+ Types.nl +:+ json_text "{'method':'b'}" +:+ Types.nl))
            fs_client)
  = [EvNotification "fs" (JObj [("method", JStr "b")]);
     EvNotification "fs" (JObj [("method", JStr "a")])].
Proof.
  pose proof (malformed_line_is_discarded parse "fs" 0 "Listening on stdio" "SyntaxError"
                (handleLine parse "fs" 0 (on_object 0 (set_buffer EmptyString) fs_client)
                   (json_text "{'method':'a'}"))) as H.
  change (handleServerData parse "fs"
            (buffer_of (json_text "{'method':'a'}" +:+ Types.nl +:+ "Listening on stdio"
                        +:+ Types.nl +:+ json_text "{'method':'b'}" +:+ Types.nl))
            fs_client)
    with (handleLine parse "fs" 0
            (handleLine parse "fs" 0
               (handleLine parse "fs" 0 (on_object 0 (set_buffer EmptyString) fs_client)
                  (json_text "{'method':'a'}"))
               "Listening on stdio")
            (json_text "{'method':'b'}")).
  rewrite H; [|vm_compute; reflexivity].
  vm_compute. reflexivity.
Defined.

(** Witness: the line [ping] split mid-line, between two characters. *)
Lemma aligned_chunks_witness :
  events (fold_left (fun c x => handleServerData parse "fs" x c)
            [take 5 ping; drop 5 ping] fs_client)
  = [EvNotification "fs" (JObj [("method", JStr (toString e_acute))])].
Proof.
  rewrite (aligned_chunks_are_handled_as_whole_lines parse "fs" (take 5 ping) [drop 5 ping]).
  - vm_compute. reflexivity.
  - vm_compute.
    constructor; [|constructor; [|constructor]];
      repeat first [ apply wf_nil
                   | apply wf_one; [reflexivity|]
                   | apply wf_two; [reflexivity|reflexivity|] ].
Defined.

(** C4, the failing input.  The line [{"method":"é"}] arrives in two chunks
    that split the two bytes of [é]: whole, the message carries [é]; in
    chunks, each half is decoded on its own ([data.toString()]) and the
    message carries two replacement characters instead. *)
Theorem chunk_boundary_inside_a_character_changes_the_message :
  take 12 ping ++ drop 12 ping = ping
  /\ events (handleServerData parse "fs" ping fs_client)
     = [EvNotification "fs" (JObj [("method", JStr (toString e_acute))])]
  /\ events (fold_left (fun c x => handleServerData parse "fs" x c)
               [take 12 ping; drop 12 ping] fs_client)
     = [EvNotification "fs" (JObj [("method", JStr (replacement +:+ replacement))])]
  /\ toString e_acute <> replacement +:+ replacement.
Proof.
  repeat split; try (vm_compute; reflexivity). vm_compute. discriminate.
Qed.

(** ** How a promise was settled *)

Lemma omap_settled_nil id (l : list (Z * Settlement)) :
  id ∉ l.*1 ->
  omap (fun e : Z * Settlement => if decide (e.1 = id) then Some e.2 else None) l = [].
Proof.
  induction l as [|[i s] l IH]; [done|].
  intros Hn. apply not_elem_of_cons in Hn as [Hne Hn].
  cbn [omap list_omap]. simpl. rewrite decide_False by done. by apply IH.
Qed.

Lemma settlement_fresh id st c :
  id ∉ settled_ids c -> settlement id (settle id st c) = Some st.
Proof.
  intros Hn. unfold settlement.
  change (settled (settle id st c)) with ((id, st) :: settled c).
  cbn [omap list_omap]. simpl. rewrite decide_True by done.
  change (list_omap _ _ ?f ?l) with (omap f l).
  by rewrite omap_settled_nil.
Qed.

Lemma settlement_app id (l : list (Z * Settlement)) c c' :
  settled c' = l ++ settled c -> id ∉ l.*1 -> settlement id c' = settlement id c.
Proof.
  intros E Hn. unfold settlement. rewrite E, omap_app.
  by rewrite omap_settled_nil.
Qed.

Lemma settlement_Some_elem id st c : settlement id c = Some st -> id ∈ settled_ids c.
Proof.
  unfold settlement, settled_ids. intros H.
  apply last_Some in H as [l' E].
  assert (st ∈ omap (fun e : Z * Settlement => if decide (e.1 = id) then Some e.2 else None)
                 (settled c)) as Hin.
  { rewrite E. apply elem_of_app. right. by left. }
  apply list_elem_of_omap in Hin as ([i s] & He & Hf). simpl in Hf.
  case_decide; [|done]. subst i.
  apply list_elem_of_fmap. by exists (id, s).
Qed.

(** ** Claims on connecting *)

(** ** What a handshake leaves alone *)

Lemma Keeps_refl c : Keeps c c.
Proof. by split. Qed.

Lemma Keeps_trans c1 c2 c3 : Keeps c1 c2 -> Keeps c2 c3 -> Keeps c1 c3.
Proof.
  intros [S1 C1 O1 E1] [S2 C2 O2 E2]. split.
  - congruence.
  - congruence.
  - intros a. by rewrite O2.
  - eauto.
Qed.

Lemma Keeps_on_object a f c :
  (forall conn, status (f conn) = status conn) -> Keeps c (on_object a f c).
Proof.
  intros Hf. split; try done.
  intros a'. rewrite lookup_on_object. case_decide; [|done].
  destruct (objects c !! a'); simpl; [by rewrite Hf|done].
Qed.

Lemma Keeps_sendRequest n m p c : Keeps c (sendRequest n m p c).2.
Proof.
  unfold sendRequest. destruct (get_connection n c) as [[a conn]|]; [|apply Keeps_refl].
  simpl. split; try done.
  intros a'. rewrite lookup_on_object. simpl. case_decide; [|done].
  by destruct (objects c !! a').
Qed.

Lemma Keeps_sendNotification n m p c : Keeps c (sendNotification n m p c).
Proof.
  unfold sendNotification. destruct (get_connection n c) as [[a conn]|]; [|apply Keeps_refl].
  by apply Keeps_on_object.
Qed.

Lemma Keeps_timeout_fires id c : Keeps c (timeout_fires id c).
Proof.
  unfold timeout_fires. destruct (timers c !! id) as [cb|]; [|apply Keeps_refl].
  split; try done.
  intros a'. simpl. rewrite lookup_on_object. simpl. case_decide; [|done].
  by destruct (objects c !! a').
Qed.

Lemma Keeps_handleResponse n a r c : Keeps c (handleResponse n a r c).
Proof.
  destruct (handleResponse_cases n a r c)
    as [->|[[_ ->]|(z & conn & p & _ & _ & _ & ->)]]; [apply Keeps_refl| |].
  { split; try done. intros e He. simpl. by right. }
  assert (Keeps c (on_object a (set_pending (delete z)) (clearTimeout (timer p) c))) as H.
  { split; try done. intros a'. simpl. rewrite lookup_on_object. simpl.
    case_decide; [|done]. by destruct (objects c !! a'). }
  destruct (outcome r); [|done].
  destruct H as [K1 K2 K3 K4]. by split.
Qed.

Section ConnectClaims.

Variable JSON_parse : string -> Result string Json.

Lemma Keeps_handleServerData n data c : Keeps c (handleServerData JSON_parse n data c).
Proof.
  unfold handleServerData.
  destruct (get_connection n c) as [[a conn]|]; [|apply Keeps_refl].
  destruct (pop _) as [lines rest].
  eapply Keeps_trans; [by apply (Keeps_on_object a (set_buffer (or_empty rest)))|].
  generalize (on_object a (set_buffer (or_empty rest)) c). clear.
  induction lines as [|l ls IH]; intros c; simpl; [apply Keeps_refl|].
  eapply Keeps_trans; [|apply IH].
  unfold handleLine. destruct (String.eqb _ _); [apply Keeps_refl|].
  destruct (JSON_parse _); [apply Keeps_handleResponse|apply Keeps_refl].
Qed.

Lemma Keeps_fold_handleServerData n chunks c :
  Keeps c (fold_left (fun c d => handleServerData JSON_parse n d c) chunks c).
Proof.
  revert c. induction chunks as [|d ds IH]; intros c; simpl; [apply Keeps_refl|].
  eapply Keeps_trans; [apply Keeps_handleServerData|apply IH].
Qed.

Lemma Inv_fold_handleServerData n chunks c :
  Inv c -> Inv (fold_left (fun c d => handleServerData JSON_parse n d c) chunks c).
Proof.
  revert c. induction chunks as [|d ds IH]; intros c I; simpl; [done|].
  by apply IH, Inv_handleServerData.
Qed.

Lemma requestId_fold_handleServerData n chunks c :
  requestId (fold_left (fun c d => handleServerData JSON_parse n d c) chunks c)
  = requestId c.
Proof.
  revert c. induction chunks as [|d ds IH]; intros c; simpl; [done|].
  by rewrite IH, requestId_handleServerData.
Qed.


Lemma settlement_is_Some id c : id ∈ settled_ids c -> is_Some (settlement id c).
Proof.
  unfold settled_ids, settlement. intros Hin.
  apply list_elem_of_fmap in Hin as ([id' st] & -> & Hin). simpl.
  assert (st ∈ omap (fun e : Z * Settlement => if decide (e.1 = id') then Some e.2 else None)
                 (settled c)) as H.
  { apply list_elem_of_omap. exists (id', st). split; [done|]. simpl.
    by rewrite decide_True. }
  destruct (omap _ _) as [|x l] eqn:E; [by apply elem_of_nil in H|].
  apply last_is_Some. done.
Qed.

(** *** One awaited request *)

(** What [sendRequest] leaves behind on a connected server. *)
Lemma sendRequest_armed n m p c a conn :
  Inv c -> get_connection n c = Some (a, conn) ->
  let id := requestId c + 1 in
  exists c1 conn1,
    sendRequest n m p c = (Ok id, c1)
    /\ Inv c1
    /\ timers c1 !! id = Some (mkTimer a m n)
    /\ get_connection n c1 = Some (a, conn1)
    /\ buffer conn1 = buffer conn
    /\ pendingRequests conn1 !! id = Some (mkPending id id)
    /\ (id ∉ settled_ids c1)
    /\ requestId c1 = id.
Proof.
  intros I G id. pose proof (Inv_sendRequest n m p c I) as I1.
  pose proof G as G'. apply get_connection_Some in G' as [Gc Go].
  unfold sendRequest in *. rewrite G in *. simpl in I1. fold id in I1 |- *.
  eexists _, (write (Request id m p) (set_pending <[id := mkPending id id]> conn)).
  split; [done|]. split; [done|].
  split; [autorewrite with client; simpl; by rewrite lookup_insert_eq|].
  split.
  { apply get_connection_Some. autorewrite with client. split; [done|].
    rewrite lookup_on_object, decide_True by done. simpl. by rewrite Go. }
  split; [done|]. split; [simpl; by rewrite lookup_insert_eq|].
  split; [|by autorewrite with client].
  unfold settled_ids. autorewrite with client. simpl.
  intros Hin. apply (inv_settled _ I) in Hin. unfold id in Hin. lia.
Qed.

(** The response to a pending request. *)
Lemma handleResponse_pending n a r c z conn p :
  prop r "id" = Some (JNum z) -> objects c !! a = Some conn ->
  pendingRequests conn !! z = Some p ->
  handleResponse n a r c
  = let c2 := on_object a (set_pending (delete z)) (clearTimeout (timer p) c) in
    match outcome r with
    | Some s => settle (promise p) s c2
    | None => c2
    end.
Proof.
  intros Hid Ho Hp. unfold handleResponse. rewrite Hid, Ho. simpl. rewrite Hp.
  by destruct r.
Qed.

(** A line on its own. *)
Lemma complete_line line :
  complete line = [] ->
  complete (line +:+ String newline EmptyString) = [line]
  /\ partial (line +:+ String newline EmptyString) = EmptyString.
Proof.
  induction line as [|ch line IH]; intros H.
  - done.
  - apply complete_nil_String in H as [Hc Hs]. destruct (IH Hs) as [E1 E2].
    change (String ch line +:+ String newline EmptyString)
      with (String ch (line +:+ String newline EmptyString)).
    rewrite complete_String, partial_String, Hc, E1, E2. done.
Qed.

Lemma handleText_line n a conn c line :
  get_connection n c = Some (a, conn) -> buffer conn = EmptyString ->
  complete line = [] ->
  handleText JSON_parse n (line +:+ String newline EmptyString) c
  = handleLine JSON_parse n a (on_object a (set_buffer EmptyString) c) line.
Proof.
  intros G Hb Hl. unfold handleText. rewrite G, Hb.
  change (EmptyString +:+ ?x) with x.
  destruct (complete_line line Hl) as [-> ->]. done.
Qed.

(** Chunks are handled as the text they decode to. *)
Lemma fold_chunks_handleText n chunks c :
  chunks <> [] ->
  fold_left (fun c d => handleServerData JSON_parse n d c) chunks c
  = handleText JSON_parse n (decoded chunks) c.
Proof.
  destruct chunks as [|d ds]; [done|]. intros _. simpl.
  by rewrite handleServerData_handleText, fold_handleText.
Qed.

Lemma handleText_timer n text c id cb :
  Inv c -> timers c !! id = Some cb ->
  let c' := handleText JSON_parse n text c in
  timers c' !! id = Some cb
  \/ exists conn line response,
       get_connection n c = Some (tc_connection cb, conn)
       /\ line ∈ complete (buffer conn +:+ text)
       /\ JSON_parse (trim line) = Ok response
       /\ prop response "id" = Some (JNum id)
       /\ (id ∈ settled_ids c' \/ outcome response = None).
Proof.
  intros I Ht c'. subst c'. unfold handleText.
  destruct (get_connection n c) as [[a conn]|] eqn:G; [|by left].
  apply get_connection_Some in G as [Gc Go].
  destruct (fold_handleLine_timer JSON_parse n a (complete (buffer conn +:+ text))
              (on_object a (set_buffer (partial (buffer conn +:+ text))) c) id cb)
    as [?|(-> & line & r & ?)]; [by apply Inv_set_buffer|by exists n|done|by left|].
  right. by exists conn, line, r.
Qed.

Lemma fold_chunks_timer n chunks c id cb :
  Inv c -> timers c !! id = Some cb ->
  let c' := fold_left (fun c d => handleServerData JSON_parse n d c) chunks c in
  timers c' !! id = Some cb
  \/ exists conn line response,
       get_connection n c = Some (tc_connection cb, conn)
       /\ line ∈ complete (buffer conn +:+ decoded chunks)
       /\ JSON_parse (trim line) = Ok response
       /\ prop response "id" = Some (JNum id)
       /\ (id ∈ settled_ids c' \/ outcome response = None).
Proof.
  intros I Ht. destruct chunks as [|d ds]; [by left|].
  rewrite fold_chunks_handleText by done. by apply handleText_timer.
Qed.

Variable env : string -> Server.

Local Abbreviation request := (request JSON_parse env).
Local Abbreviation handshake := (handshake JSON_parse env).
Local Abbreviation connectServer := (connectServer JSON_parse env).
Local Abbreviation hangs := (hangs JSON_parse env).
Local Abbreviation answers := (answers JSON_parse).
Local Abbreviation lists_tools := (lists_tools JSON_parse).

(** An awaited request leaves the connections as they were. *)
Lemma request_spec n m p c :
  Inv c ->
  Inv (request n m p c).2
  /\ Keeps c (request n m p c).2
  /\ (connections c !! n = None -> exists e, (request n m p c).1 = RejectedWith e).
Proof.
  intros I. unfold Mcp.request.
  pose proof (Inv_sendRequest n m p c I) as I1.
  pose proof (Keeps_sendRequest n m p c) as K1.
  assert (connections c !! n = None -> exists e, (sendRequest n m p c).1 = Throw e) as Hnone.
  { intros H. unfold sendRequest, get_connection. rewrite H. eauto. }
  destruct (sendRequest n m p c) as [[id|e] c1]; simpl in *.
  2:{ split; [done|]. split; [done|]. intros _. eauto. }
  set (c2 := fold_left _ _ c1).
  assert (I2 : Inv c2) by (by apply Inv_fold_handleServerData).
  assert (K2 : Keeps c c2).
  { eapply Keeps_trans; [exact K1|apply Keeps_fold_handleServerData]. }
  assert (I3 : Inv (timeout_fires id c2)) by (by apply Inv_timeout_fires).
  assert (K3 : Keeps c (timeout_fires id c2)).
  { eapply Keeps_trans; [exact K2|apply Keeps_timeout_fires]. }
  assert (forall e, @Ok JsError Z id <> Throw e) as Hne by done.
  destruct (settlement id (timeout_fires id c2)) as [[v|e]|]; simpl;
    (split; [done|]); (split; [done|]); intros H; destruct (Hnone H) as [e' He']; done.
Qed.

(** An awaited request that never ends was answered by an error whose
    message cannot be converted. *)
Lemma request_hangs n m p c :
  Inv c -> (request n m p c).1 = NeverSettles -> hangs n (request n m p c).2.
Proof.
  intros I. unfold Mcp.request.
  destruct (get_connection n c) as [[a conn]|] eqn:G.
  2:{ unfold sendRequest. rewrite G. done. }
  destruct (sendRequest_armed n m p c a conn I G)
    as (c1 & conn1 & -> & I1 & Ht1 & G1 & Hb1 & Hp1 & Hn1 & R1).
  set (id := requestId c + 1) in *.
  set (chunks := respond (env n) (Request id m p)).
  set (c2 := fold_left _ chunks c1).
  assert (I2 : Inv c2) by (by apply Inv_fold_handleServerData).
  assert (R2 : requestId c2 = id) by (unfold c2; by rewrite requestId_fold_handleServerData).
  destruct (settlement id (timeout_fires id c2)) as [[v|e]|] eqn:Es; [done..|]. simpl. intros _.
  assert (Hns : id ∉ settled_ids (timeout_fires id c2)).
  { intros Hin. apply settlement_is_Some in Hin as [st Hst]. congruence. }
  assert (Ht2 : timers c2 !! id = None).
  { destruct (timers c2 !! id) as [cb|] eqn:E; [|done].
    exfalso. apply Hns. unfold timeout_fires. rewrite E. unfold settled_ids. simpl. by left. }
  assert (E3 : timeout_fires id c2 = c2) by (unfold timeout_fires; by rewrite Ht2).
  rewrite E3 in *.
  destruct (fold_chunks_timer n chunks c1 id _ I1 Ht1)
    as [H|(conn0 & line & r & G0 & Hin & Hr & Hid & [Hs|Ho])].
  - fold c2 in H. congruence.
  - fold c2 in Hs. done.
  - exists id, m, p, (buffer conn0), line, r.
    pose proof (inv_counter _ I). rewrite R2.
    split; [unfold id; lia|]. split; [done|]. split; [done|]. done.
Qed.

(** A request a server answers with a result is fulfilled with it. *)
Lemma request_answered n m p c a conn result :
  Inv c -> get_connection n c = Some (a, conn) -> buffer conn = EmptyString ->
  answers (env n) m result ->
  exists c' conn',
    request n m p c = (Fulfilled result, c')
    /\ get_connection n c' = Some (a, conn') /\ buffer conn' = EmptyString.
Proof.
  intros I G Hb Hans. unfold Mcp.request.
  destruct (sendRequest_armed n m p c a conn I G)
    as (c1 & conn1 & -> & I1 & Ht1 & G1 & Hb1 & Hp1 & Hn1 & R1).
  set (id := requestId c + 1) in *.
  destruct (Hans id p) as (line & r & Hdec & Hl & Htrim & Hr & Hid & Hout).
  assert (Hchunks : respond (env n) (Request id m p) <> []).
  { intros E. rewrite E in Hdec. simpl in Hdec. by destruct line. }
  rewrite fold_chunks_handleText by done. rewrite Hdec.
  rewrite (handleText_line n a conn1) by (done || congruence).
  pose proof G1 as G1'. apply get_connection_Some in G1' as [Gc1 Go1].
  set (c1' := on_object a (set_buffer EmptyString) c1).
  assert (Ho1' : objects c1' !! a = Some (set_buffer EmptyString conn1)).
  { unfold c1'. rewrite lookup_on_object, decide_True by done. by rewrite Go1. }
  unfold handleLine.
  destruct (String.eqb_spec (trim line) EmptyString) as [?|_]; [done|].
  rewrite Hr, (handleResponse_pending n a r c1' id _ (mkPending id id)) by done.
  rewrite Hout. cbv zeta. simpl promise. simpl timer.
  set (c2 := on_object a (set_pending (delete id)) (clearTimeout id c1')).
  assert (Et : timeout_fires id (settle id (Resolved result) c2)
               = settle id (Resolved result) c2).
  { unfold timeout_fires. simpl. unfold c2. autorewrite with client. simpl.
    by rewrite lookup_delete_eq. }
  rewrite Et.
  rewrite (settlement_fresh id (Resolved result) c2).
  2:{ unfold c2, c1', settled_ids. by autorewrite with client. }
  eexists _, (set_pending (delete id) (set_buffer EmptyString conn1)).
  split; [done|]. split; [|done].
  apply get_connection_Some. simpl. unfold c2, c1'. autorewrite with client. split; [done|].
  rewrite !lookup_on_object, !decide_True by done. simpl.
  rewrite lookup_on_object, decide_True by done. by rewrite Go1.
Qed.

(** A request that gets no answer is rejected when its timer fires. *)
Lemma request_unanswered n m p c a conn :
  Inv c -> get_connection n c = Some (a, conn) ->
  respond (env n) (Request (requestId c + 1) m p) = [] ->
  (request n m p c).1 = RejectedWith (RequestTimeout m n).
Proof.
  intros I G Hnone. unfold Mcp.request.
  destruct (sendRequest_armed n m p c a conn I G)
    as (c1 & conn1 & -> & I1 & Ht1 & G1 & Hb1 & Hp1 & Hn1 & R1).
  rewrite Hnone. simpl fold_left.
  unfold timeout_fires. rewrite Ht1. simpl tc_method. simpl tc_server.
  rewrite settlement_fresh; [done|].
  unfold settled_ids. by autorewrite with client.
Qed.

(** *** The handshake *)

(** The handshake of a connection object [a]: what it leaves alone, and
    that on success the object is ready with the tools listed. *)
Lemma handshake_spec name a c :
  Inv c -> is_Some (objects c !! a) ->
  Inv (handshake name a c).2
  /\ mcpServers (handshake name a c).2 = mcpServers c
  /\ connections (handshake name a c).2 = connections c
  /\ (forall e, e ∈ events c -> e ∈ events (handshake name a c).2)
  /\ (forall a', a' <> a ->
        status <$> objects (handshake name a c).2 !! a' = status <$> objects c !! a')
  /\ (exists conn conn',
        objects c !! a = Some conn /\ objects (handshake name a c).2 !! a = Some conn'
        /\ stdin_ended conn' = stdin_ended conn /\ killed conn' = killed conn
        /\ (forall t, (handshake name a c).1 = Fulfilled t -> ready conn' = true /\ tools conn' = t)
        /\ ((forall t, (handshake name a c).1 <> Fulfilled t) -> ready conn' = ready conn))
  /\ (connections c !! name = None -> exists e, (handshake name a c).1 = RejectedWith e).
Proof.
  intros I [conn Ho]. unfold Mcp.handshake.
  destruct (request_spec name "initialize" initialize_params c I) as (I1 & K1 & R1).
  destruct (request name "initialize" initialize_params c) as [r1 c1]. simpl in *.
  assert (Hframe : forall c', Keeps c c' ->
            mcpServers c' = mcpServers c /\ connections c' = connections c
            /\ (forall e, e ∈ events c -> e ∈ events c')
            /\ (forall a', a' <> a -> status <$> objects c' !! a' = status <$> objects c !! a')
            /\ (exists conn', objects c' !! a = Some conn'
                  /\ stdin_ended conn' = stdin_ended conn /\ killed conn' = killed conn
                  /\ ready conn' = ready conn)).
  { intros c' [KS KC KO KE].
    split; [done|]. split; [done|]. split; [done|]. split; [intros; apply KO|].
    specialize (KO a). rewrite Ho in KO. simpl in KO.
    destruct (objects c' !! a) as [conn'|]; [|done]. injection KO as ? ? ? ?. eauto 10. }
  assert (Hfail : forall (r : Await Json) c', (forall t, r <> Fulfilled t) ->
            Inv c' -> Keeps c c' ->
            (connections c !! name = None -> exists e, r = RejectedWith e) ->
            Inv c' /\ mcpServers c' = mcpServers c /\ connections c' = connections c
            /\ (forall e, e ∈ events c -> e ∈ events c')
            /\ (forall a', a' <> a -> status <$> objects c' !! a' = status <$> objects c !! a')
            /\ (exists conn0 conn',
                  objects c !! a = Some conn0 /\ objects c' !! a = Some conn'
                  /\ stdin_ended conn' = stdin_ended conn0 /\ killed conn' = killed conn0
                  /\ (forall t, r = Fulfilled t -> ready conn' = true /\ tools conn' = t)
                  /\ ((forall t, r <> Fulfilled t) -> ready conn' = ready conn0))
            /\ (connections c !! name = None -> exists e0, r = RejectedWith e0)).
  { intros r c' Hr I' K' Hn.
    destruct (Hframe c' K') as (H1 & H2 & H3 & H4 & conn' & H5 & H6 & H7 & H8).
    split; [done|]. split; [done|]. split; [done|].
    split; [done|]. split; [done|].
    split; [|done]. exists conn, conn'.
    split; [done|]. split; [done|]. split; [done|]. split; [done|].
    split; [intros t Ht; by apply Hr in Ht|done]. }
  destruct r1 as [v1|e1|].
  2:{ apply Hfail; try done. intros _. eauto. }
  2:{ apply Hfail; try done. intros Hn. destruct (R1 Hn) as [e He]. done. }
  set (c2 := sendNotification name _ _ c1).
  assert (I2 : Inv c2) by (by apply Inv_sendNotification).
  assert (K2 : Keeps c c2).
  { eapply Keeps_trans; [exact K1|apply Keeps_sendNotification]. }
  destruct (request_spec name "tools/list" (JObj []) c2 I2) as (I3 & K3 & R3).
  destruct (request name "tools/list" (JObj []) c2) as [r3 c3]. simpl in *.
  assert (K3' : Keeps c c3) by (eapply Keeps_trans; eauto).
  assert (Hn1 : connections c !! name = None -> False).
  { intros Hn. destruct (R1 Hn) as [e He]. done. }
  destruct r3 as [v3|e3|].
  2:{ apply Hfail; try done; intros Hn; by apply Hn1 in Hn. }
  2:{ apply Hfail; try done; intros Hn; by apply Hn1 in Hn. }
  simpl.
  destruct (Hframe c3 K3') as (HS & HC & HE & HO & conn3 & Ho3 & Hs3 & Hk3 & _).
  split; [apply Inv_emit; by apply Inv_on_object|].
  split; [done|]. split; [done|].
  split; [intros e He; right; by apply HE|].
  split.
  { intros a' Hne. rewrite lookup_on_object, decide_False by done. by apply HO. }
  split.
  { exists conn, (set_ready (tools_of v3) conn3).
    rewrite lookup_on_object, decide_True, Ho3 by done. simpl.
    split; [done|]. split; [done|]. split; [done|]. split; [done|].
    split; [by intros t [= <-]|]. intros H. by destruct (H (tools_of v3)). }
  intros Hn. by apply Hn1 in Hn.
Qed.

Lemma handshake_hangs name a c :
  Inv c -> (handshake name a c).1 = NeverSettles -> hangs name (handshake name a c).2.
Proof.
  intros I. unfold Mcp.handshake.
  pose proof (request_hangs name "initialize" initialize_params c I) as H1.
  destruct (request_spec name "initialize" initialize_params c I) as (I1 & _).
  destruct (request name "initialize" initialize_params c) as [[v1|e1|] c1]; simpl in *;
    [|done|by auto].
  set (c2 := sendNotification name _ _ c1).
  assert (I2 : Inv c2) by (by apply Inv_sendNotification).
  pose proof (request_hangs name "tools/list" (JObj []) c2 I2) as H3.
  destruct (request name "tools/list" (JObj []) c2) as [[v3|e3|] c3]; simpl in *;
    [done|done|by auto].
Qed.

(** A server that answers both requests is connected with the tools it
    listed. *)
Lemma handshake_answered name a c conn t :
  Inv c -> get_connection name c = Some (a, conn) -> buffer conn = EmptyString ->
  (exists result, answers (env name) "initialize" result) ->
  (exists result, answers (env name) "tools/list" result /\ tools_of result = t) ->
  (handshake name a c).1 = Fulfilled t.
Proof.
  intros I G Hb [r1 H1] (r2 & H2 & <-). unfold Mcp.handshake.
  destruct (request_spec name "initialize" initialize_params c I) as (I1 & _).
  destruct (request_answered name "initialize" initialize_params c a conn r1 I G Hb H1)
    as (c1 & conn1 & E1 & G1 & Hb1).
  rewrite E1 in *. simpl in I1.
  set (c2 := sendNotification name _ _ c1).
  assert (I2 : Inv c2) by (by apply Inv_sendNotification).
  assert (G2 : get_connection name c2
               = Some (a, write (Notification "notifications/initialized" (JObj [])) conn1)).
  { unfold c2, sendNotification. rewrite G1.
    apply get_connection_Some in G1 as [Gc1 Go1].
    apply get_connection_Some. autorewrite with client. split; [done|].
    rewrite lookup_on_object, decide_True by done. by rewrite Go1. }
  destruct (request_answered name "tools/list" (JObj []) c2 a _ r2 I2 G2 Hb1 H2)
    as (c3 & conn3 & E3 & _).
  rewrite E3. done.
Qed.

(** *** [connectServer] on a server that has no connection *)

Lemma handshake_after_spawn name c c1 :
  Inv c1 ->
  mcpServers c1 = mcpServers c ->
  (forall n, n <> name -> connections c1 !! n = connections c !! n) ->
  (connections c1 !! name = Some (new_address c) \/ connections c1 !! name = None) ->
  (forall e, e ∈ events c -> e ∈ events c1) ->
  (forall a', status <$> objects c1 !! a'
              = status <$> (<[new_address c := new_connection]> (objects c)) !! a') ->
  connected_after name c (handshake name (new_address c) c1).1
    (handshake name (new_address c) c1).2.
Proof.
  intros I1 S1 C1 N1 E1 O1. set (a := new_address c) in *.
  assert (exists conn1, objects c1 !! a = Some conn1
                        /\ stdin_ended conn1 = false /\ killed conn1 = false)
    as (conn1 & Ho1 & Hs1 & Hk1).
  { specialize (O1 a). rewrite lookup_insert_eq in O1. simpl in O1.
    destruct (objects c1 !! a) as [conn1|]; [|done]. injection O1 as ? ? ? ?. eauto. }
  destruct (handshake_spec name a c1 I1) as (HI & HS & HC & HE & HO & HA & HR); [eauto|].
  destruct HA as (conn & conn' & Ho & Ho' & Hs & Hk & Ht & _).
  rewrite Ho1 in Ho. injection Ho as <-.
  unfold connected_after. fold a.
  split; [done|]. split; [congruence|].
  split; [intros n Hn; rewrite HC; by apply C1|].
  split; [intros e He; by apply HE, E1|].
  split.
  { intros a' Hne. rewrite HO, O1 by done. by rewrite lookup_insert_ne. }
  exists conn'. split; [done|]. split; [congruence|]. split; [congruence|].
  intros t Hful. destruct (Ht t Hful) as [? ?]. split; [|done].
  rewrite HC. destruct N1 as [?|Hnone]; [done|].
  destruct (HR Hnone) as [e He]. congruence.
Qed.

(** [connectServer] on a server that has no connection takes the branch
    that spawns a process. *)
Lemma connectServer_spawns name c :
  name ∈ mcpServers c -> connections c !! name = None ->
  connectServer name c
  = let a := new_address c in
    let c1 := spawn name c in
    match startup (env name) with
    | SpawnError message =>
        (RejectedWith (StartFailed message), on_error name message c1)
    | Exited code => handshake name a (on_exit name code c1)
    | Started output =>
        handshake name a
          (fold_left (fun c d => handleServerData JSON_parse name d c) output c1)
    end.
Proof.
  intros Hin Hnone.
  assert (G : get_connection name c = None) by (unfold get_connection; by rewrite Hnone).
  unfold Mcp.connectServer, in_config.
  rewrite bool_decide_eq_true_2 by done. simpl. by rewrite G.
Qed.

Lemma connectServer_fresh name c :
  Inv c -> name ∈ mcpServers c -> connections c !! name = None ->
  connected_after name c (connectServer name c).1 (connectServer name c).2.
Proof.
  intros I Hin Hnone. rewrite connectServer_spawns by done. cbv zeta.
  pose proof (Inv_spawn name c I) as I1.
  pose proof (new_address_fresh c) as Hfresh.
  destruct (startup (env name)) as [output|message|code].
  - apply handshake_after_spawn.
    + by apply Inv_fold_handleServerData.
    + by rewrite (keeps_servers _ _ (Keeps_fold_handleServerData name output _)).
    + intros n Hn.
      rewrite (keeps_connections _ _ (Keeps_fold_handleServerData name output _)).
      simpl. by rewrite lookup_insert_ne.
    + left.
      rewrite (keeps_connections _ _ (Keeps_fold_handleServerData name output _)).
      simpl. by rewrite lookup_insert_eq.
    + intros e He.
      by apply (keeps_events _ _ (Keeps_fold_handleServerData name output _)).
    + intros a'.
      by rewrite (keeps_objects _ _ (Keeps_fold_handleServerData name output _)).
  - simpl. unfold connected_after.
    split; [by apply Inv_on_error|]. split; [done|].
    split; [intros n Hn; simpl; by rewrite lookup_delete_ne, lookup_insert_ne|].
    split; [intros e He; by right|].
    split; [intros a' Hne; simpl; by rewrite lookup_insert_ne|].
    exists new_connection. simpl. rewrite lookup_insert_eq.
    split; [done|]. split; [done|]. split; [done|]. done.
  - apply handshake_after_spawn.
    + by apply Inv_on_exit.
    + done.
    + intros n Hn. simpl. by rewrite lookup_delete_ne, lookup_insert_ne.
    + right. simpl. by rewrite lookup_delete_eq.
    + intros e He. by right.
    + intros a'. done.
Qed.

Lemma connectServer_hangs name c :
  Inv c -> name ∈ mcpServers c -> connections c !! name = None ->
  (connectServer name c).1 = NeverSettles -> hangs name (connectServer name c).2.
Proof.
  intros I Hin Hnone. rewrite connectServer_spawns by done. cbv zeta.
  pose proof (Inv_spawn name c I) as I1.
  destruct (startup (env name)) as [output|message|code].
  - apply handshake_hangs. by apply Inv_fold_handleServerData.
  - done.
  - apply handshake_hangs. by apply Inv_on_exit.
Qed.

(** The four kinds of servers. *)
Lemma connectServer_lists_tools name c t :
  Inv c -> name ∈ mcpServers c -> connections c !! name = None ->
  lists_tools (env name) t ->
  (connectServer name c).1 = Fulfilled t.
Proof.
  intros I Hin Hnone (Hs & H1 & H2). rewrite connectServer_spawns by done. cbv zeta.
  rewrite Hs. simpl fold_left.
  apply (handshake_answered name (new_address c) (spawn name c) new_connection);
    [by apply Inv_spawn| |done..].
  apply get_connection_Some. simpl. by rewrite !lookup_insert_eq.
Qed.

Lemma connectServer_never_answers name c :
  Inv c -> name ∈ mcpServers c -> connections c !! name = None ->
  never_answers (env name) ->
  (connectServer name c).1 = RejectedWith (RequestTimeout "initialize" name)
  /\ connections (connectServer name c).2 !! name = Some (new_address c)
  /\ exists conn, objects (connectServer name c).2 !! new_address c = Some conn
                  /\ ready conn = false.
Proof.
  intros I Hin Hnone [Hs Hr].
  pose proof (connectServer_fresh name c I Hin Hnone) as Hc.
  rewrite connectServer_spawns in * by done. cbv zeta in *.
  rewrite Hs in *. simpl fold_left in *.
  pose proof (Inv_spawn name c I) as I1.
  assert (G : get_connection name (spawn name c) = Some (new_address c, new_connection)).
  { apply get_connection_Some. simpl. by rewrite !lookup_insert_eq. }
  pose proof (request_unanswered name "initialize" initialize_params (spawn name c) _ _ I1 G
                (Hr _ _)) as Hreq.
  destruct (handshake_spec name (new_address c) (spawn name c) I1)
    as (_ & _ & HC & _ & _ & (conn & conn' & Ho & Ho' & _ & _ & _ & Hready) & _).
  { simpl. rewrite lookup_insert_eq. eauto. }
  assert (E : (handshake name (new_address c) (spawn name c)).1
              = RejectedWith (RequestTimeout "initialize" name)).
  { unfold Mcp.handshake.
    destruct (request name "initialize" initialize_params (spawn name c)) as [r1 c1].
    simpl in Hreq. by subst r1. }
  split; [done|]. split; [rewrite HC; simpl; by rewrite lookup_insert_eq|].
  exists conn'. split; [done|]. rewrite Hready; [|by rewrite E].
  simpl in Ho. rewrite lookup_insert_eq in Ho. by injection Ho as <-.
Qed.

Lemma connectServer_exited name c code :
  name ∈ mcpServers c -> connections c !! name = None ->
  startup (env name) = Exited code ->
  connectServer name c
  = (RejectedWith (NotConnected name), on_exit name code (spawn name c)).
Proof.
  intros Hin Hnone Hs. rewrite connectServer_spawns by done. cbv zeta. rewrite Hs.
  unfold Mcp.handshake, Mcp.request, sendRequest, get_connection. simpl.
  by rewrite lookup_delete_eq.
Qed.

Lemma connectServer_spawn_error name c message :
  name ∈ mcpServers c -> connections c !! name = None ->
  startup (env name) = SpawnError message ->
  connectServer name c
  = (RejectedWith (StartFailed message), on_error name message (spawn name c)).
Proof.
  intros Hin Hnone Hs. rewrite connectServer_spawns by done. cbv zeta. by rewrite Hs.
Qed.

(** *** The loop of [connectAll] *)

Lemma status_eq (o o' : option ServerConnection) conn :
  status <$> o' = status <$> o -> o = Some conn ->
  exists conn', o' = Some conn' /\ tools conn' = tools conn /\ ready conn' = ready conn
                /\ stdin_ended conn' = stdin_ended conn /\ killed conn' = killed conn.
Proof.
  intros H ->. destruct o' as [conn'|]; [|done].
  simpl in H. injection H as ? ? ? ?. eauto 10.
Qed.

Lemma Loop_step name done results c r c' :
  Loop done results c -> name ∉ done ->
  connected_after name c r c' ->
  match r with
  | Fulfilled t => Loop (done ++ [name]) (<[name := t]> results) c'
  | RejectedWith e => Loop (done ++ [name]) results (emit (EvServerError name e) c')
  | NeverSettles => size (objects c') = S (length done)
  end.
Proof.
  intros [LI LC LS LR LP LA] Hname (HI & HSv & HC & HE & HO & conn' & Ho' & Hs' & Hk' & Ht).
  pose proof (new_address_fresh c) as Hfresh. set (a := new_address c) in *.
  assert (Hold : forall a0 conn0, objects c !! a0 = Some conn0 ->
            a0 <> a /\ exists conn1, objects c' !! a0 = Some conn1
              /\ tools conn1 = tools conn0 /\ ready conn1 = ready conn0
              /\ stdin_ended conn1 = stdin_ended conn0 /\ killed conn1 = killed conn0).
  { intros a0 conn0 H0. assert (a0 <> a) as Hne by congruence.
    split; [done|]. eapply status_eq; [by apply HO|done]. }
  assert (Hsize : size (objects c') = length (done ++ [name])).
  { rewrite length_app, <- LS. simpl.
    rewrite <- !size_dom.
    assert (dom (objects c') = {[a]} ∪ dom (objects c)) as ->.
    { apply set_eq. intros a0. rewrite elem_of_union, elem_of_singleton, !elem_of_dom.
      destruct (decide (a0 = a)) as [->|Hne].
      - split; [by left|]. intros _. eauto.
      - specialize (HO a0 Hne). split.
        + intros [x Hx]. right. rewrite Hx in HO. simpl in HO.
          destruct (objects c !! a0); [eauto|done].
        + intros [?|[x Hx]]; [done|]. rewrite Hx in HO. simpl in HO.
          destruct (objects c' !! a0); [eauto|done]. }
    rewrite size_union, size_singleton; [lia|].
    apply disjoint_singleton_l. by apply not_elem_of_dom. }
  assert (Hconn : forall n a0, connections c' !! n = Some a0 -> n ∈ done ++ [name]).
  { intros n a0 H0. apply elem_of_app. destruct (decide (n = name)) as [->|Hne].
    - right. by left.
    - left. rewrite HC in H0 by done. eauto. }
  assert (Halive : forall a0 conn0, objects c' !! a0 = Some conn0 ->
            stdin_ended conn0 = false /\ killed conn0 = false).
  { intros a0 conn0 H0. destruct (decide (a0 = a)) as [->|Hne].
    - rewrite Ho' in H0. injection H0 as <-. done.
    - specialize (HO a0 Hne). rewrite H0 in HO. simpl in HO.
      destruct (objects c !! a0) as [conn1|] eqn:E1; [|done].
      injection HO as ? ? ? ?. destruct (LA _ _ E1). split; congruence. }
  assert (Hdone : forall n (res : gmap string Json), n ∈ done ->
            res !! n = results !! n ->
            forall evs : list Event, (forall e, e ∈ events c' -> e ∈ evs) ->
            match res !! n with
            | Some t => exists a0 conn0,
                connections c' !! n = Some a0 /\ objects c' !! a0 = Some conn0
                /\ ready conn0 = true /\ tools conn0 = t
            | None => exists e, EvServerError n e ∈ evs
            end).
  { intros n res Hn Hres evs Hevs. rewrite Hres. specialize (LR n Hn).
    assert (n <> name) as Hne by (intros ->; done).
    destruct (results !! n) as [t|].
    - destruct LR as (a0 & conn0 & Hc0 & Ho0 & Hr0 & Ht0).
      destruct (Hold _ _ Ho0) as (_ & conn1 & Ho1 & Ht1 & Hr1 & _).
      exists a0, conn1. rewrite HC by done. repeat split; try done; congruence.
    - destruct LR as [e He]. exists e. by apply Hevs, HE. }
  destruct r as [t|e|].
  - split; try done.
    + intros n Hn. apply elem_of_app in Hn as [Hn|Hn].
      * apply (Hdone n (<[name := t]> results) Hn); [|done].
        rewrite lookup_insert_ne; [done|]. intros ->. done.
      * apply list_elem_of_singleton in Hn as ->. rewrite lookup_insert_eq.
        destruct (Ht t eq_refl) as (? & ? & ?). eauto 10.
    + intros n Hn. rewrite not_elem_of_app in Hn. destruct Hn as [Hn1 Hn2].
      rewrite lookup_insert_ne; [by apply LP|].
      intros ->. apply Hn2. by left.
  - split; try done.
    + by apply Inv_emit.
    + intros n Hn. apply elem_of_app in Hn as [Hn|Hn].
      * apply (Hdone n results Hn); [done|]. intros e0 He0. by right.
      * apply list_elem_of_singleton in Hn as ->. rewrite (LP name Hname).
        exists e. by left.
    + intros n Hn. rewrite not_elem_of_app in Hn. destruct Hn as [Hn1 Hn2]. by apply LP.
  - rewrite Hsize, length_app. simpl. lia.
Qed.

(** The loop either goes through all the names, or stops at a server
    whose handshake never ends. *)
Lemma connectAll_loop_spec names done results c :
  Loop done results c -> NoDup (done ++ names) ->
  (forall n, n ∈ names -> n ∈ mcpServers c) ->
  match connectAll_loop JSON_parse env names results c with
  | (Fulfilled results', c') => Loop (done ++ names) results' c'
  | (RejectedWith _, _) => False
  | (NeverSettles, c') =>
      exists earlier name later,
        names = earlier ++ name :: later
        /\ hangs name c'
        /\ size (objects c') = S (length (done ++ earlier))
  end.
Proof.
  revert done results c.
  induction names as [|name names IH]; intros done results c L Hnd Hcfg.
  - simpl. by rewrite app_nil_r.
  - assert (name ∉ done) as Hname.
    { apply NoDup_app in Hnd as (_ & Hd & _). intros Hin. apply (Hd _ Hin). by left. }
    assert (connections c !! name = None) as Hnone.
    { destruct (connections c !! name) as [a|] eqn:E; [|done].
      exfalso. apply Hname. eapply loop_connections; eauto. }
    assert (Hin : name ∈ mcpServers c) by (apply Hcfg; by left).
    pose proof (connectServer_fresh name c (loop_inv _ _ _ L) Hin Hnone) as Hc.
    pose proof (connectServer_hangs name c (loop_inv _ _ _ L) Hin Hnone) as Hh.
    pose proof (Loop_step name done results c _ _ L Hname Hc) as Hstep.
    destruct Hc as (_ & HSv & _).
    simpl. destruct (connectServer name c) as [[t|e|] c1]; simpl in *.
    + specialize (IH (done ++ [name]) _ _ Hstep).
      rewrite <- app_assoc in IH. specialize (IH Hnd).
      destruct (connectAll_loop _ _ names _ c1) as [[r'|e'|] c'].
      * apply IH. intros n Hn. rewrite HSv. apply Hcfg. by right.
      * apply IH. intros n Hn. rewrite HSv. apply Hcfg. by right.
      * destruct IH as (earlier & name' & later & -> & Hh' & Hsz).
        { intros n Hn. rewrite HSv. apply Hcfg. by right. }
        exists (name :: earlier), name', later. split; [done|]. split; [done|].
        rewrite Hsz. by rewrite <- app_assoc.
    + specialize (IH (done ++ [name]) _ _ Hstep).
      rewrite <- app_assoc in IH. specialize (IH Hnd).
      destruct (connectAll_loop _ _ names _ (emit _ c1)) as [[r'|e'|] c'].
      * apply IH. intros n Hn. simpl. rewrite HSv. apply Hcfg. by right.
      * apply IH. intros n Hn. simpl. rewrite HSv. apply Hcfg. by right.
      * destruct IH as (earlier & name' & later & -> & Hh' & Hsz).
        { intros n Hn. simpl. rewrite HSv. apply Hcfg. by right. }
        exists (name :: earlier), name', later. split; [done|]. split; [done|].
        rewrite Hsz. by rewrite <- app_assoc.
    + exists [], name, names. split; [done|]. split; [by apply Hh|].
      by rewrite app_nil_r.
Qed.

Lemma connectAll_loop_app l1 l2 results c :
  connectAll_loop JSON_parse env (l1 ++ l2) results c
  = match connectAll_loop JSON_parse env l1 results c with
    | (Fulfilled results1, c1) => connectAll_loop JSON_parse env l2 results1 c1
    | (RejectedWith e, c1) => (RejectedWith e, c1)
    | (NeverSettles, c1) => (NeverSettles, c1)
    end.
Proof.
  revert results c. induction l1 as [|name l1 IH]; intros results c; simpl; [done|].
  destruct (connectServer name c) as [[t|e|] c1]; [apply IH|apply IH|done].
Qed.

(** What the rest of the loop leaves of the servers gone through. *)
Lemma connectAll_loop_frame names done results c results' c' :
  Loop done results c -> NoDup (done ++ names) ->
  (forall n, n ∈ names -> n ∈ mcpServers c) ->
  connectAll_loop JSON_parse env names results c = (Fulfilled results', c') ->
  (forall n, n ∉ names ->
     results' !! n = results !! n /\ connections c' !! n = connections c !! n)
  /\ (forall e, e ∈ events c -> e ∈ events c')
  /\ (forall a, is_Some (objects c !! a) ->
        status <$> objects c' !! a = status <$> objects c !! a)
  /\ mcpServers c' = mcpServers c.
Proof.
  revert done results c.
  induction names as [|name names IH]; intros done results c L Hnd Hcfg E.
  - simpl in E. injection E as <- <-. done.
  - assert (name ∉ done) as Hname.
    { apply NoDup_app in Hnd as (_ & Hd & _). intros Hin. apply (Hd _ Hin). by left. }
    assert (connections c !! name = None) as Hnone.
    { destruct (connections c !! name) as [a|] eqn:Ec; [|done].
      exfalso. apply Hname. eapply loop_connections; eauto. }
    assert (Hin : name ∈ mcpServers c) by (apply Hcfg; by left).
    pose proof (connectServer_fresh name c (loop_inv _ _ _ L) Hin Hnone) as Hc.
    pose proof (Loop_step name done results c _ _ L Hname Hc) as Hstep.
    pose proof (new_address_fresh c) as Hfresh.
    destruct Hc as (_ & HSv & HC & HE & HO & _).
    simpl in E. destruct (connectServer name c) as [[t|e|] c1]; simpl in *; [| |done].
    + destruct (IH (done ++ [name]) _ _ Hstep) with (3 := E) as (F1 & F2 & F3 & F4).
      * by rewrite <- app_assoc.
      * intros n Hn. rewrite HSv. apply Hcfg. by right.
      * split; [|split; [|split]].
        -- intros n Hn. apply not_elem_of_cons in Hn as [Hne Hn].
           destruct (F1 n Hn) as [-> ->]. rewrite lookup_insert_ne by done.
           split; [done|]. by apply HC.
        -- intros e0 He0. by apply F2, HE.
        -- intros a [conn Ho]. assert (a <> new_address c) as Hne by congruence.
           specialize (HO a Hne). rewrite Ho in HO.
           rewrite F3; [by rewrite Ho|].
           destruct (objects c1 !! a) eqn:E1; [eauto|done].
        -- congruence.
    + destruct (IH (done ++ [name]) _ _ Hstep) with (3 := E) as (F1 & F2 & F3 & F4).
      * by rewrite <- app_assoc.
      * intros n Hn. simpl. rewrite HSv. apply Hcfg. by right.
      * split; [|split; [|split]].
        -- intros n Hn. apply not_elem_of_cons in Hn as [Hne Hn].
           destruct (F1 n Hn) as [-> ->]. split; [done|]. simpl. by apply HC.
        -- intros e0 He0. apply F2. simpl. right. by apply HE.
        -- intros a [conn Ho]. assert (a <> new_address c) as Hne by congruence.
           specialize (HO a Hne). rewrite Ho in HO.
           rewrite F3; [simpl; by rewrite Ho|]. simpl.
           destruct (objects c1 !! a) eqn:E1; [eauto|done].
        -- simpl in F4. congruence.
Qed.

(** The state the loop is in when it comes to a server, and what it keeps
    of the outcome for that server. *)
Lemma connectAll_server servers results c name :
  NoDup servers ->
  connectAll JSON_parse env (new_client servers) = (Fulfilled results, c) ->
  name ∈ servers ->
  exists c0,
    Inv c0 /\ name ∈ mcpServers c0 /\ connections c0 !! name = None
    /\ results !! name = match (connectServer name c0).1 with
                         | Fulfilled t => Some t
                         | _ => None
                         end
    /\ (forall e, (connectServer name c0).1 = RejectedWith e ->
          EvServerError name e ∈ events c)
    /\ (forall e, e ∈ events (connectServer name c0).2 -> e ∈ events c)
    /\ connections c !! name = connections (connectServer name c0).2 !! name
    /\ status <$> objects c !! new_address c0
       = status <$> objects (connectServer name c0).2 !! new_address c0.
Proof.
  intros Hnd E Hin.
  apply list_elem_of_split in Hin as (l1 & l2 & ->).
  assert (L0 : Loop [] ∅ (new_client (l1 ++ name :: l2))).
  { split.
    - apply Inv_new.
    - intros n a H. simpl in H. by rewrite lookup_empty in H.
    - done.
    - intros n H. by apply elem_of_nil in H.
    - intros n _. apply lookup_empty.
    - intros a conn H. simpl in H. by rewrite lookup_empty in H. }
  unfold connectAll in E. simpl mcpServers in E.
  rewrite connectAll_loop_app in E.
  pose proof (connectAll_loop_spec l1 [] ∅ (new_client (l1 ++ name :: l2)) L0) as L1.
  pose proof (connectAll_loop_frame l1 [] ∅ (new_client (l1 ++ name :: l2))) as F1.
  destruct (connectAll_loop _ _ l1 ∅ _) as [[r1|e1|] c0]; [|done..].
  simpl in L1.
  assert (Hnd1 : NoDup l1) by (by apply NoDup_app in Hnd as (? & _)).
  assert (Hcfg1 : forall n, n ∈ l1 -> n ∈ mcpServers (new_client (l1 ++ name :: l2))).
  { intros n Hn. simpl. apply elem_of_app. by left. }
  specialize (L1 Hnd1 Hcfg1).
  destruct (F1 r1 c0 L0 Hnd1 Hcfg1 eq_refl) as (_ & _ & _ & HS0). clear F1.
  simpl in HS0.
  assert (Hname : name ∉ l1).
  { apply NoDup_app in Hnd as (_ & Hd & _). intros H. apply (Hd _ H). by left. }
  assert (Hname2 : name ∉ l2).
  { apply NoDup_app in Hnd as (_ & _ & Hd). by apply NoDup_cons in Hd as [? _]. }
  assert (Hnone : connections c0 !! name = None).
  { destruct (connections c0 !! name) as [a|] eqn:Ec; [|done].
    exfalso. apply Hname. eapply loop_connections; eauto. }
  assert (Hin0 : name ∈ mcpServers c0).
  { rewrite HS0. apply elem_of_app. right. by left. }
  pose proof (connectServer_fresh name c0 (loop_inv _ _ _ L1) Hin0 Hnone) as Hc.
  pose proof (Loop_step name l1 r1 c0 _ _ L1 Hname Hc) as Hstep.
  destruct Hc as (_ & HSv & _ & _ & _ & conn' & Ho' & _).
  exists c0. split; [apply (loop_inv _ _ _ L1)|]. split; [done|]. split; [done|].
  simpl in E.
  assert (Hnd2 : NoDup ((l1 ++ [name]) ++ l2)) by (by rewrite <- app_assoc).
  destruct (connectServer name c0) as [[t|e|] c1]; simpl in *; [| |done].
  - destruct (connectAll_loop_frame l2 (l1 ++ [name]) _ c1 results c Hstep Hnd2)
      as (F1 & F2 & F3 & _); [|done|].
    { intros n Hn. rewrite HSv, HS0. apply elem_of_app. right. by right. }
    destruct (F1 name Hname2) as [-> ->]. rewrite lookup_insert_eq.
    split; [done|]. split; [done|]. split; [done|]. split; [done|].
    apply F3. eauto.
  - destruct (connectAll_loop_frame l2 (l1 ++ [name]) _ _ results c Hstep Hnd2)
      as (F1 & F2 & F3 & _); [|done|].
    { intros n Hn. simpl. rewrite HSv, HS0. apply elem_of_app. right. by right. }
    destruct (F1 name Hname2) as [-> ->]. rewrite (loop_pending _ _ _ L1 name Hname).
    split; [done|].
    split; [intros e0 [= <-]; apply F2; by left|].
    split; [intros e0 He0; apply F2; by right|]. split; [done|].
    apply F3. simpl. eauto.
Qed.


End ConnectClaims.



(** ** Claims on the agent loop *)

Import Types Compress Chat.

Section AgentClaims.

Variable World : Type.
Variable JSON_parse : string -> Result string Json.
Variable JSON_stringify : Json -> string.
Variable number_text : Json -> string.
Variable client_chat : Backend.
Variable compress_config : CompressConfig.
Variable registry : list (string * RegisteredTool World).
Variable systemPrompt : string.
Variable config : AgentConfig.

Local Abbreviation run_tool :=
  (run_tool World JSON_parse JSON_stringify number_text registry config).
Local Abbreviation tool_rounds :=
  (tool_rounds World JSON_parse JSON_stringify number_text registry config).
Local Abbreviation handleToolCalls :=
  (handleToolCalls World JSON_parse JSON_stringify number_text registry config).
Local Abbreviation tool_result := (tool_result World JSON_parse registry).
Local Abbreviation world_after := (world_after World JSON_parse registry).
Local Abbreviation catch_tool := (catch_tool JSON_stringify number_text config).
Local Abbreviation caught := (caught number_text).
Local Abbreviation failure := (failure JSON_stringify).

(** The [try]/[catch] of a call wraps what the registry makes of it. *)
Lemma run_tool_result call w :
  run_tool call w
  = match tool_result call w with
    | (Ok result, w') => (Ok result, w')
    | (Throw e, w') => (catch_tool e, w')
    end.
Proof.
  unfold Chat.run_tool, Chat.tool_result, Chat.execute.
  destruct (JSON_parse _); [|done]. by destruct (registry_get _ _ _).
Qed.

Lemma world_after_take_S calls i call w :
  calls !! i = Some call ->
  world_after (take (S i) calls) w
  = (tool_result call (world_after (take i calls) w)).2.
Proof.
  intros H. rewrite (take_S_r _ _ _ H). unfold Chat.world_after.
  by rewrite fold_left_app.
Qed.

(** An error with a string for its message is always caught. *)
Lemma catch_tool_error message :
  catch_tool (error message) = Ok (failure (Some (JStr message))).
Proof. unfold Chat.catch_tool. simpl. by destruct (verbose config). Qed.

Lemma catch_tool_readable e message :
  read_message e = Ok message ->
  verbose config = false \/ converts_value message = true ->
  catch_tool e = Ok (failure message).
Proof.
  intros Hr Hc. unfold Chat.catch_tool. rewrite Hr.
  destruct (verbose config); [|done].
  destruct Hc as [|Hc]; [done|]. unfold ToString.
  destruct message as [j|]; [|done]. simpl in Hc. by rewrite Hc.
Qed.

(** The loop over the calls: the turns it appends, how far it gets, and
    the world it leaves. *)
Lemma tool_rounds_spec calls s w :
  exists (turns : list Message) (thrown : option Thrown) (w' : World),
    tool_rounds calls s w
    = (thrown,
       {| messages := messages s ++ turns; iterations := iterations s;
          isRunning := isRunning s |}, w')
    /\ (length turns <= length calls)%nat
    /\ (forall i call, (i < length turns)%nat -> calls !! i = Some call ->
          exists result,
            turns !! i = Some (tool_message call result)
            /\ (run_tool call (world_after (take i calls) w)).1 = Ok result)
    /\ match thrown with
       | None => length turns = length calls /\ w' = world_after calls w
       | Some e =>
           exists call,
             calls !! length turns = Some call
             /\ (run_tool call (world_after (take (length turns) calls) w)).1 = Throw e
             /\ w' = world_after (take (S (length turns)) calls) w
       end.
Proof.
  revert s w. induction calls as [|call calls IH]; intros s w.
  - exists [], None, w. simpl. rewrite app_nil_r.
    split; [by destruct s|]. split; [done|]. split; [|done].
    intros i call Hi. simpl in Hi. lia.
  - simpl. pose proof (run_tool_result call w) as Hw.
    destruct (run_tool call w) as [[result|e] w1] eqn:E.
    + assert (w1 = (tool_result call w).2) as Ew.
      { destruct (tool_result call w) as [[?|?] ?]; simpl; congruence. }
      destruct (IH (push (tool_message call result) s) w1)
        as (turns & thrown & w' & Er & Hlen & Hturns & Hthrown).
      exists (tool_message call result :: turns), thrown, w'.
      rewrite Er. simpl. rewrite <- app_assoc. simpl.
      split; [done|]. split; [lia|]. split.
      * intros [|i] c Hi Hc; simpl in *.
        -- injection Hc as <-. exists result. by rewrite E.
        -- unfold Chat.world_after in *. simpl. rewrite <- Ew.
           apply Hturns; [lia|done].
      * unfold Chat.world_after in *. simpl. rewrite <- Ew.
        destruct thrown as [e|]; [|destruct Hthrown; split; [lia|done]].
        done.
    + assert (w1 = (tool_result call w).2) as Ew.
      { destruct (tool_result call w) as [[?|?] ?]; simpl; congruence. }
      exists [], (Some e), w1. simpl. rewrite app_nil_r.
      split; [by destruct s|]. split; [lia|]. split.
      * intros i c Hi. simpl in Hi. lia.
      * exists call. unfold Chat.world_after. simpl. by rewrite E.
Qed.


Local Abbreviation react :=
  (react World JSON_parse JSON_stringify number_text client_chat registry config).
Local Abbreviation chat :=
  (chat World JSON_parse JSON_stringify number_text client_chat compress_config registry
     systemPrompt config).

Lemma handleToolCalls_iterations calls text s w :
  iterations (handleToolCalls calls text s w).1.2 = iterations s
  /\ isRunning (handleToolCalls calls text s w).1.2 = isRunning s.
Proof.
  unfold Chat.handleToolCalls.
  destruct (tool_rounds_spec calls
              (push (mkMessage assistant (or_else text EmptyString) (Some calls) None) s) w)
    as (turns & thrown & w' & E & _).
  by rewrite E.
Qed.

(** The loop ends within [maxIterations - iterations] rounds. *)
Lemma react_returns fuel s final w :
  (maxIterations config - iterations s <= fuel)%nat ->
  is_Some (react fuel s final w).
Proof.
  revert s final w. induction fuel as [|fuel IH]; intros s final w Hfuel.
  - simpl. destruct (isRunning s); simpl; [|eauto].
    destruct (Nat.ltb_spec (iterations s) (maxIterations config)); [lia|eauto].
  - simpl. destruct (isRunning s); simpl; [|eauto].
    destruct (Nat.ltb_spec (iterations s) (maxIterations config)); [|eauto].
    destruct (client_chat _ _) as [response|e].
    2:{ destruct (caught e); [apply IH; simpl; lia|eauto]. }
    destruct (response_tool_calls response) as [[|call calls]|];
      try (apply IH; simpl; lia).
    pose proof (handleToolCalls_iterations (call :: calls)
                  (response_content response) (next_iteration s) w) as [Hi _].
    destruct (handleToolCalls (call :: calls) _ _ w) as [[thrown s2] w2] eqn:E.
    simpl in Hi.
    destruct thrown as [e|]; [|apply IH; lia].
    destruct (caught e); [apply IH; simpl; lia|eauto].
Qed.


Local Abbreviation with_user_turn := (with_user_turn systemPrompt).
Local Abbreviation tools_argument := (tools_argument World registry).

(** A round that gets a plain answer appends it and ends the loop. *)
Lemma react_plain fuel s final w response :
  isRunning s = true -> (iterations s < maxIterations config)%nat ->
  client_chat (messages s) tools_argument = Ok response ->
  plain response = true ->
  react (S fuel) s final w
  = Some (Ok (or_else (response_content response) EmptyString),
          {| messages := messages s
                         ++ [mkMessage assistant
                               (or_else (response_content response) EmptyString) None None];
             iterations := S (iterations s); isRunning := false |}, w).
Proof.
  intros Hrun Hit Hchat Hplain. simpl. rewrite Hrun.
  destruct (Nat.ltb_spec (iterations s) (maxIterations config)); [|lia]. simpl.
  rewrite Hchat. unfold plain in Hplain.
  destruct (response_tool_calls response) as [[|call calls]|]; try done;
    by destruct fuel.
Qed.

(** A plain answer on the first round is appended as an assistant turn
    and returned as the final answer when [maxIterations] is at least 2;
    when [maxIterations] is 1 the turn is appended all the same and the
    fixed message is returned in place of the answer. *)
Theorem plain_answer_is_returned_unless_on_the_last_round
    (userMessage : string) (s : AgentState) (w : World) (response : ModelResponse) :
  let s1 := with_user_turn userMessage s in
  needsCompression JSON_stringify compress_config (messages s1) = false ->
  client_chat (messages s1) tools_argument = Ok response ->
  plain response = true ->
  let answer := or_else (response_content response) EmptyString in
  let s3 := {| messages := messages s1 ++ [mkMessage assistant answer None None];
               iterations := 1; isRunning := false |} in
  chat userMessage s w
  = match maxIterations config with
    | 0%nat => Some (Ok max_iterations_message,
                     {| messages := messages s1; iterations := 0; isRunning := true |}, w)
    | 1%nat => Some (Ok max_iterations_message, s3, w)
    | _ => Some (Ok answer, s3, w)
    end.
Proof.
  intros s1 Hc Hchat Hplain answer s3. unfold Chat.chat. fold s1. rewrite Hc.
  destruct (maxIterations config) as [|[|n]] eqn:Hmax.
  - simpl. rewrite Hmax. done.
  - rewrite (react_plain _ _ _ _ response); [done|done|simpl; lia|done|done].
  - rewrite (react_plain _ _ _ _ response); [done|done|simpl; lia|done|done].
Qed.

End AgentClaims.


(** ** Claims on history compression *)

Local Open Scope Z_scope.

(** ** [slice] with a negative bound *)

Lemma slice_from_last {A} (l : list A) (k : Z) :
  0 < k -> slice_from l (- k) = drop (length l - Z.to_nat k) l.
Proof.
  intros Hk. unfold slice_from, slice.
  destruct (Z.ltb_spec (- k) 0); [|lia].
  destruct (Z.ltb_spec (Z.of_nat (length l)) 0); [lia|].
  rewrite Z.min_id.
  replace (Z.to_nat (Z.max (Z.of_nat (length l) + - k) 0))
    with (length l - Z.to_nat k)%nat by lia.
  apply take_ge. rewrite length_drop. lia.
Qed.

Lemma slice_but_last {A} (l : list A) (k : Z) :
  0 < k -> slice l 0 (- k) = take (length l - Z.to_nat k) l.
Proof.
  intros Hk. unfold slice.
  destruct (Z.ltb_spec (- k) 0); [|lia]. simpl.
  replace (Z.min 0 (Z.of_nat (length l))) with 0 by lia.
  rewrite Z.sub_0_r. simpl. f_equal. lia.
Qed.

Section CompressClaims.

Variable JSON_stringify : Json -> string.
Variable client_chat : Backend.
Variable config : CompressConfig.

Local Abbreviation compress := (compress JSON_stringify client_chat config).
Local Abbreviation needsCompression := (needsCompression JSON_stringify config).
Local Abbreviation estimateTokens := (estimateTokens JSON_stringify).
Local Abbreviation generateSummary := (generateSummary client_chat).

(** C9, as amended.  With [K = keepRecentMessages > 0]: [compress] returns
    the turns unchanged when the token estimate is at or below the ceiling,
    and when the turns other than system turns number at most [K]; in
    every other case it folds all but the [K] latest of them and returns
    the FIRST system turn of the state (if it has one), then one system
    turn holding the summary, then the [K] latest non-system turns.  System
    turns after the first are discarded with the folded turns. *)
Theorem compress_folds_all_but_the_latest_turns (messages : list Message) :
  0 < keepRecentMessages config ->
  let conversation := conversationMessages messages in
  let n := (length conversation - Z.to_nat (keepRecentMessages config))%nat in
  (needsCompression messages = false <-> estimateTokens messages <= maxTokens config)
  /\ compress messages
     = if negb (needsCompression messages) then Ok messages
       else if (length conversation <=? Z.to_nat (keepRecentMessages config))%nat
            then Ok messages
            else match generateSummary (take n conversation) with
                 | Throw e => Throw e
                 | Ok summary =>
                     Ok (match find is_system messages with
                         | Some m => [m]
                         | None => []
                         end
                         ++ [system_message (summary_heading +:+ nl +:+ summary)]
                         ++ drop n conversation)
                 end.
Proof.
  intros HK conversation n. split.
  - unfold Compress.needsCompression. rewrite Z.ltb_ge. done.
  - unfold Compress.compress, oldMessages, recentMessages.
    destruct (negb _); [done|].
    rewrite slice_but_last, slice_from_last by done.
    fold conversation. fold n.
    destruct (Nat.leb_spec (length conversation) (Z.to_nat (keepRecentMessages config))) as [Hle|Hgt].
    + replace n with 0%nat by lia. by rewrite take_0.
    + destruct (take n conversation) as [|m0 ms] eqn:E; [|done].
      apply (f_equal length) in E. rewrite length_take in E. simpl in E. lia.
Qed.

End CompressClaims.

(** C9, witness: a conversation of five turns, [K = 4]. *)
Lemma compress_witness :
  compress no_stringify answers_hi tight compressed_once
  = Ok [system_message "You are an agent.";
        system_message (summary_heading +:+ nl +:+ "hi");
        mkMessage assistant "two" None None; user_message "three";
        mkMessage assistant "four" None None; user_message "five"].
Proof.
  destruct (compress_folds_all_but_the_latest_turns no_stringify answers_hi tight
              compressed_once) as [_ H]; [reflexivity|].
  rewrite H. vm_compute. reflexivity.
Defined.

(** C9, counterexample to the claim as stated: the state has two system
    turns (the second is the summary of an earlier compression), and the
    result holds the first only. *)
Lemma compress_drops_the_second_system_turn :
  exists result,
    compress no_stringify answers_hi tight compressed_once = Ok result
    /\ is_system earlier_summary = true
    /\ earlier_summary ∈ compressed_once
    /\ earlier_summary ∉ result.
Proof.
  eexists. split; [vm_compute; reflexivity|]. split; [reflexivity|]. split.
  - unfold compressed_once. set_solver.
  - rewrite !not_elem_of_cons. repeat split; try (vm_compute; discriminate).
    apply not_elem_of_nil.
Qed.

Section SummaryClaims.

Variable World : Type.
Variable JSON_parse : string -> Result string Json.
Variable JSON_stringify : Json -> string.
Variable number_text : Json -> string.
Variable client_chat : Backend.
Variable compress_config : CompressConfig.
Variable registry : list (string * RegisteredTool World).
Variable systemPrompt : string.
Variable config : AgentConfig.

Local Abbreviation compress := (compress JSON_stringify client_chat compress_config).
Local Abbreviation needsCompression := (needsCompression JSON_stringify compress_config).
Local Abbreviation generateSummary := (generateSummary client_chat).
Local Abbreviation oldMessages := (oldMessages compress_config).
Local Abbreviation chat :=
  (chat World JSON_parse JSON_stringify number_text client_chat compress_config registry
     systemPrompt config).

(** C10, as amended.  The placeholder stands in for the summary when the
    backend answers with no text ([null] or the empty string).  When the
    backend call itself fails, the error leaves [generateSummary], then
    [compress], then the [chat] call that asked for the compression: no
    new state is produced, and the conversation keeps the user turn that
    [chat] had appended. *)
Theorem summary_placeholder_only_for_an_empty_answer (history : list Message) :
  generateSummary history
  = match client_chat (summary_request history) None with
    | Ok response =>
        Ok (match response_content response with
            | None => summary_placeholder
            | Some EmptyString => summary_placeholder
            | Some text => text
            end)
    | Throw e => Throw e
    end
  /\ (forall e,
        needsCompression history = true ->
        oldMessages history <> [] ->
        client_chat (summary_request (oldMessages history)) None = Throw e ->
        compress history = Throw e)
  /\ (forall e userMessage s w,
        needsCompression (messages (with_user_turn systemPrompt userMessage s)) = true ->
        compress (messages (with_user_turn systemPrompt userMessage s)) = Throw e ->
        chat userMessage s w
        = Some (Throw e, with_user_turn systemPrompt userMessage s, w)).
Proof.
  split; [|split].
  - unfold Compress.generateSummary. destruct (client_chat _ _) as [response|e]; [|done].
    by destruct (response_content response) as [[|c text]|].
  - intros e Hneed Hold Hfail. unfold Compress.compress. rewrite Hneed. simpl.
    destruct (oldMessages history) as [|m ms] eqn:E; [done|].
    unfold Compress.generateSummary. by rewrite Hfail.
  - intros e userMessage s w Hneed Hthrow. unfold Chat.chat. by rewrite Hneed, Hthrow.
Qed.

End SummaryClaims.

(** C10, counterexample to the claim as stated: the backend fails while
    the summary is generated, and both [compress] and [chat] throw. *)
Lemma summary_failure_aborts_compress_and_chat :
  compress no_stringify fails tight compressed_once = Throw (error "API error: 500")
  /\ chat nat parse no_stringify no_number fails tight echo_registry "You are an agent."
       default_agent "six" resumed 0%nat
     = Some (Throw (error "API error: 500"),
             {| messages := compressed_once ++ [user_message "six"];
                iterations := 0; isRunning := false |}, 0%nat).
Proof. split; vm_compute; reflexivity. Qed.

(** C7, the failing input.  With the default bound of 20 the backend asks
    for a tool on rounds 1 to 19 and gives the plain answer [done] on round
    20, within the budget: the assistant turn [done] is appended, and
    [chat] returns the fixed message instead of the answer. *)
Theorem answer_on_the_twentieth_round_is_replaced :
  exists s3,
    chat nat parse no_stringify no_number (asks_until 40) DEFAULT_CONFIG echo_registry
      "You are an agent." default_agent "call echo" fresh 0%nat
    = Some (Ok max_iterations_message, s3, 19%nat)
    /\ iterations s3 = 20%nat
    /\ length (messages s3) = 41%nat
    /\ last (messages s3) = Some (mkMessage assistant "done" None None).
Proof.
  eexists. split; [vm_compute; reflexivity|].
  split; [vm_compute; reflexivity|]. split; vm_compute; reflexivity.
Qed.

(** The same with a bound of one round and an immediate answer. *)
Lemma answer_on_the_only_round_is_replaced :
  chat nat parse no_stringify no_number answers_hi DEFAULT_CONFIG echo_registry
    "You are an agent." {| maxIterations := 1; verbose := true |} "hello" fresh 0%nat
  = Some (Ok max_iterations_message,
          {| messages := [system_message "You are an agent."; user_message "hello";
                          mkMessage assistant "hi" None None];
             iterations := 1; isRunning := false |}, 0%nat).
Proof. vm_compute. reflexivity. Qed.

(** Witness: with the default bound an immediate answer is returned. *)
Lemma plain_answer_witness :
  chat nat parse no_stringify no_number answers_hi DEFAULT_CONFIG echo_registry
    "You are an agent." default_agent "hello" fresh 0%nat
  = Some (Ok "hi",
          {| messages := [system_message "You are an agent."; user_message "hello";
                          mkMessage assistant "hi" None None];
             iterations := 1; isRunning := false |}, 0%nat).
Proof.
  rewrite (plain_answer_is_returned_unless_on_the_last_round nat parse no_stringify no_number
             answers_hi DEFAULT_CONFIG echo_registry "You are an agent." default_agent
             "hello" fresh 0%nat (mkResponse (Some "hi") None));
    vm_compute; reflexivity.
Defined.

(** * More of the MCP client *)

(** ** Disconnecting *)

Lemma fold_reject_settled l c :
  settled (fold_left reject_disconnected l c)
  = rev (map (fun e : Z * Pending => (promise e.2, Rejected ServerDisconnected)) l)
    ++ settled c.
Proof.
  revert c. induction l as [|e l IH]; intros c; simpl; [done|].
  rewrite IH. simpl. by rewrite <- app_assoc.
Qed.

Lemma last_omap_const id st (l : list (Z * Settlement)) :
  (forall e, e ∈ l -> e.2 = st) -> id ∈ l.*1 ->
  last (omap (fun e : Z * Settlement => if decide (e.1 = id) then Some e.2 else None) l)
  = Some st.
Proof.
  intros Hall Hin.
  set (f := fun e : Z * Settlement => if decide (e.1 = id) then Some e.2 else None).
  assert (Hne : omap f l <> []).
  { apply list_elem_of_fmap in Hin as ([i s] & -> & Hin).
    intros E. assert (s ∈ omap f l) as H; [|rewrite E in H; by apply elem_of_nil in H].
    apply list_elem_of_omap. exists (i, s). split; [done|]. unfold f. simpl.
    by rewrite decide_True. }
  assert (Hst : forall s, s ∈ omap f l -> s = st).
  { intros s Hs. apply list_elem_of_omap in Hs as (e & He & Hf).
    unfold f in Hf. case_decide; [|done]. injection Hf as <-. by apply Hall. }
  destruct (last (omap f l)) as [s|] eqn:E.
  - f_equal. apply Hst. apply last_Some in E as [l' ->]. apply elem_of_app. right. by left.
  - apply last_None in E. done.
Qed.

Lemma disconnectServer_settled name c a conn :
  connections c !! name = Some a -> objects c !! a = Some conn ->
  settled (disconnectServer name c)
  = rev (map (fun e : Z * Pending => (promise e.2, Rejected ServerDisconnected))
           (pending_entries (pendingRequests conn)))
    ++ settled c.
Proof.
  intros Gc Go. unfold disconnectServer, get_connection. rewrite Gc, Go.
  simpl. autorewrite with client. apply fold_reject_settled.
Qed.

Lemma mcpServers_run JSON_parse ops c : mcpServers (run JSON_parse ops c) = mcpServers c.
Proof.
  unfold run. revert c. induction ops as [|o ops IH]; intros c; simpl; [done|].
  rewrite IH.
  destruct o; simpl; try done.
  - unfold sendRequest. by destruct (get_connection _ _) as [[? ?]|].
  - unfold sendNotification. by destruct (get_connection _ _) as [[? ?]|].
  - apply (keeps_servers _ _ (Keeps_handleServerData JSON_parse _ _ _)).
  - apply (keeps_servers _ _ (Keeps_timeout_fires _ _)).
  - unfold disconnectServer. destruct (get_connection _ _) as [[? ?]|]; [|done].
    simpl. autorewrite with client.
    generalize (pending_entries (pendingRequests s)). intros l. revert c.
    induction l as [|e l IHl]; intros c; simpl; [done|]. by rewrite IHl.
Qed.


(** What [disconnectServer] does to a connected server, in a state that
    satisfies the invariant. *)
Lemma disconnectServer_spec name c a conn :
  Inv c -> connections c !! name = Some a -> objects c !! a = Some conn ->
  let c' := disconnectServer name c in
  connections c' = delete name (connections c)
  /\ objects c' = <[a := end_and_kill conn]> (objects c)
  /\ (forall id, is_Some (pendingRequests conn !! id) ->
        (id ∉ settled_ids c)
        /\ settlement id c' = Some (Rejected ServerDisconnected)
        /\ timers c' !! id = None)
  /\ (forall id, pendingRequests conn !! id = None ->
        settlement id c' = settlement id c /\ timers c' !! id = timers c !! id)
  /\ events c' = events c.
Proof.
  intros I Gc Go c'.
  destruct (disconnectServer_fields name c a conn I Gc Go) as (Eo & Ec & Er & Et & Es & Ee).
  pose proof (disconnectServer_settled name c a conn Gc Go) as Est.
  fold c' in Eo, Ec, Er, Et, Es, Ee, Est.
  assert (F1 : forall id p, pendingRequests conn !! id = Some p -> promise p = id).
  { intros id p Hp. by destruct (inv_pending _ I _ _ _ _ Go Hp) as (? & _). }
  assert (Hids : (rev (map (fun e : Z * Pending => (promise e.2, Rejected ServerDisconnected))
                        (pending_entries (pendingRequests conn)))).*1
                 = rev (map fst (pending_entries (pendingRequests conn)))).
  { rewrite <- (pending_entries_keys _ promise) by exact F1.
    unfold fmap, list_fmap. rewrite <- !map_rev.
    generalize (rev (pending_entries (pendingRequests conn))). intros l0.
    induction l0 as [|e l0 IH]; simpl; [done|]. by rewrite <- IH. }
  set (l := pending_entries (pendingRequests conn)) in *.
  split; [done|]. split.
  { apply map_eq. intros a'. rewrite Eo. destruct (decide (a = a')) as [<-|Hne].
    - by rewrite lookup_insert_eq, Go.
    - by rewrite lookup_insert_ne. }
  split.
  { intros id [p Hp].
    assert (id ∈ map fst l) as Hk by (apply elem_of_keys; eauto).
    destruct (inv_pending _ I _ _ _ _ Go Hp) as (_ & _ & _ & [[_ Hn]|(Hl & _)]);
      [|exfalso; apply Hl; by exists name].
    split; [done|]. split; [|by rewrite Et, decide_True].
    unfold settlement. rewrite Est, omap_app.
    rewrite (omap_settled_nil id (settled c)) by done. rewrite app_nil_r.
    apply last_omap_const.
    - intros e He. rewrite elem_of_rev in He.
      apply list_elem_of_In, in_map_iff in He as (x & <- & _). done.
    - rewrite Hids. by apply elem_of_rev. }
  split; [|done].
  intros id Hnone.
  assert (id ∉ map fst l) as Hk.
  { intros Hk. apply elem_of_keys in Hk as [p Hp]. congruence. }
  split; [|by rewrite Et, decide_False].
  eapply settlement_app; [exact Est|]. rewrite Hids. by rewrite elem_of_rev.
Qed.

Section Disconnect.
Variable JSON_parse : string -> Result string Json.

(** In every run, [disconnectServer] on a connected server removes its
    entry, closes the standard input of its process and kills it, and
    rejects every request pending on it with [Server disconnected], each
    once, clearing its timer; the requests of the other servers, settled
    or not, and their timers are as they were. *)
Theorem disconnectServer_rejects_every_pending_request
    (servers : list string) (ops : list Op) (name : string) (a : nat)
    (conn : ServerConnection) :
  let c := run JSON_parse ops (new_client servers) in
  get_connection name c = Some (a, conn) ->
  let c' := disconnectServer name c in
  connections c' = delete name (connections c)
  /\ objects c' = <[a := end_and_kill conn]> (objects c)
  /\ (forall id, is_Some (pendingRequests conn !! id) ->
        (id ∉ settled_ids c)
        /\ settlement id c' = Some (Rejected ServerDisconnected)
        /\ timers c' !! id = None)
  /\ (forall id, pendingRequests conn !! id = None ->
        settlement id c' = settlement id c /\ timers c' !! id = timers c !! id)
  /\ NoDup (settled_ids c')
  /\ events c' = events c.
Proof.
  intros c G c'.
  assert (I : Inv c) by apply Inv_run, Inv_new.
  apply get_connection_Some in G as [Gc Go].
  destruct (disconnectServer_spec name c a conn I Gc Go) as (H1 & H2 & H3 & H4 & H5).
  split; [done|]. split; [done|]. split; [done|]. split; [done|].
  split; [apply (inv_nodup _ (Inv_disconnectServer name c I))|done].
Qed.

(** In every run, once [disconnectServer] has returned the server is
    unknown to every entry point: output of the killed process that is
    still to be delivered is discarded, a second [disconnectServer] does
    nothing, [callTool] throws, and the timer of a request that was
    pending on the server does nothing should it run. *)
Theorem disconnected_server_is_inert
    (servers : list string) (ops : list Op) (name : string) :
  let c := run JSON_parse ops (new_client servers) in
  let c' := disconnectServer name c in
  isConnected name c' = false
  /\ disconnectServer name c' = c'
  /\ (forall data, handleServerData JSON_parse name data c' = c')
  /\ (forall toolName args,
        callTool name toolName args c' = (Throw (NotConnected name), c'))
  /\ (forall a conn id,
        get_connection name c = Some (a, conn) ->
        is_Some (pendingRequests conn !! id) ->
        timeout_fires id c' = c').
Proof.
  intros c c'.
  assert (I : Inv c) by apply Inv_run, Inv_new.
  assert (G' : get_connection name c' = None).
  { subst c'. destruct (get_connection name c) as [[a conn]|] eqn:G.
    - apply get_connection_Some in G as [Gc Go].
      destruct (disconnectServer_spec name c a conn I Gc Go) as (H1 & _).
      unfold get_connection. rewrite H1, lookup_delete_eq. done.
    - unfold disconnectServer. by rewrite G. }
  split; [unfold isConnected; by rewrite G'|].
  split; [unfold disconnectServer; by rewrite G'|].
  split; [intros data; unfold handleServerData; by rewrite G'|].
  split; [intros toolName args; unfold callTool, sendRequest; by rewrite G'|].
  intros a conn id G Hp. apply get_connection_Some in G as [Gc Go].
  destruct (disconnectServer_spec name c a conn I Gc Go) as (_ & _ & H3 & _).
  destruct (H3 id Hp) as (_ & _ & Ht). fold c' in Ht.
  unfold timeout_fires. by rewrite Ht.
Qed.

End Disconnect.

(** Witness: a request pending on [fs] when it is disconnected. *)
Lemma disconnectServer_witness :
  settlement 1 (disconnectServer "fs"
                  (run parse [OSpawn "fs"; OSendRequest "fs" "tools/list" (JObj [])]
                     (new_client ["fs"])))
  = Some (Rejected ServerDisconnected).
Proof.
  destruct (disconnectServer_rejects_every_pending_request parse ["fs"]
              [OSpawn "fs"; OSendRequest "fs" "tools/list" (JObj [])] "fs" 0%nat
              {| tools := JArr []; ready := false;
                 pendingRequests := {[ 1 := mkPending 1 1 ]};
                 buffer := EmptyString;
                 stdin := [Request 1 "tools/list" (JObj [])];
                 stdin_ended := false; killed := false |})
    as (_ & _ & H & _).
  - vm_compute. reflexivity.
  - apply H. vm_compute. eauto.
Defined.

(** ** [disconnectAll] *)

Lemma disconnectAll_spec order c :
  Inv c ->
  let c' := disconnectAll order c in
  Inv c'
  /\ (forall n, connections c' !! n = if decide (n ∈ order) then None else connections c !! n)
  /\ (forall n a conn, n ∈ order ->
        connections c !! n = Some a -> objects c !! a = Some conn ->
        objects c' !! a = Some (end_and_kill conn)
        /\ forall id, is_Some (pendingRequests conn !! id) ->
             settlement id c' = Some (Rejected ServerDisconnected)
             /\ timers c' !! id = None)
  /\ (forall a, (forall n, n ∈ order -> connections c !! n <> Some a) ->
        objects c' !! a = objects c !! a)
  /\ (forall id st, settlement id c = Some st -> settlement id c' = Some st)
  /\ (forall id, timers c !! id = None -> timers c' !! id = None).
Proof.
  revert c. induction order as [|n0 order IH]; intros c I; simpl.
  { split; [done|]. split; [done|]. split; [intros n a conn H; by apply elem_of_nil in H|].
    done. }
  pose proof (Inv_disconnectServer n0 c I) as I1.
  destruct (IH _ I1) as (I' & C' & D' & O' & S' & T'). clear IH.
  unfold disconnectAll in *. simpl.
  set (c1 := disconnectServer n0 c) in *.
  set (c' := fold_left _ order c1) in *.
  split; [done|].
  destruct (get_connection n0 c) as [[a0 conn0]|] eqn:G.
  - apply get_connection_Some in G as [Gc Go].
    destruct (disconnectServer_spec n0 c a0 conn0 I Gc Go) as (E1 & E2 & E3 & E4 & _).
    fold c1 in E1, E2, E3, E4.
    assert (Hother : forall n a, n <> n0 -> connections c !! n = Some a -> a <> a0).
    { intros n a Hne Hn ->. apply Hne. by eapply (inv_injective _ I). }
    split.
    { intros n. rewrite C', E1. destruct (decide (n = n0)) as [->|Hne].
      - rewrite lookup_delete_eq. rewrite (decide_True (P := n0 ∈ n0 :: order)) by left.
        by case_decide.
      - rewrite lookup_delete_ne by done.
        case_decide as H1; case_decide as H2; try done.
        + exfalso. apply H2. by right.
        + exfalso. apply elem_of_cons in H2 as [?|?]; done. }
    split.
    { intros n a conn Hn Hc Ho.
      destruct (decide (n = n0)) as [->|Hne].
      - rewrite Gc in Hc. injection Hc as <-. rewrite Go in Ho. injection Ho as <-.
        split.
        + rewrite O'; [by rewrite E2, lookup_insert_eq|].
          intros n' Hn' Hc'. rewrite E1 in Hc'.
          apply lookup_delete_Some in Hc' as [Hne Hc'].
          by apply (Hother n' a0).
        + intros id Hp. destruct (E3 id Hp) as (_ & Hs & Ht). split; [by apply S'|by apply T'].
      - apply elem_of_cons in Hn as [?|Hn]; [done|].
        apply (D' n a conn Hn).
        + by rewrite E1, lookup_delete_ne.
        + rewrite E2, lookup_insert_ne; [done|]. intros <-. by apply (Hother n a0). }
    split.
    { intros a Ha. rewrite O'.
      - rewrite E2, lookup_insert_ne; [done|]. intros <-. apply (Ha n0); [by left|done].
      - intros n Hn Hc. rewrite E1 in Hc. apply lookup_delete_Some in Hc as [_ Hc].
        apply (Ha n); [by right|done]. }
    split.
    { intros id st Hs. apply S'.
      destruct (pendingRequests conn0 !! id) as [p|] eqn:Hp.
      - destruct (E3 id) as (Hn & _); [eauto|].
        apply settlement_Some_elem in Hs. done.
      - destruct (E4 id Hp) as [-> _]. done. }
    intros id Ht. apply T'.
    destruct (pendingRequests conn0 !! id) as [p|] eqn:Hp.
    + destruct (E3 id) as (_ & _ & ?); [eauto|]. done.
    + destruct (E4 id Hp) as [_ ->]. done.
  - assert (E : c1 = c) by (unfold c1, disconnectServer; by rewrite G).
    assert (Hn0 : connections c !! n0 = None).
    { destruct (connections c !! n0) as [a|] eqn:Hc; [|done].
      destruct (inv_connections _ I _ _ Hc) as [conn Ho].
      unfold get_connection in G. by rewrite Hc, Ho in G. }
    rewrite E in *.
    split.
    { intros n. rewrite C'. destruct (decide (n = n0)) as [->|Hne].
      - rewrite (decide_True (P := n0 ∈ n0 :: order)) by left. rewrite Hn0. by case_decide.
      - case_decide as H1; case_decide as H2; try done.
        + exfalso. apply H2. by right.
        + exfalso. apply elem_of_cons in H2 as [?|?]; done. }
    split.
    { intros n a conn Hn Hc Ho. apply elem_of_cons in Hn as [->|Hn]; [congruence|].
      by apply (D' n a conn). }
    split; [|done].
    intros a Ha. apply O'. intros n Hn. apply Ha. by right.
Qed.

Section DisconnectAll.
Variable JSON_parse : string -> Result string Json.

(** In every run, [disconnectAll] leaves no connection: whatever the order
    in which the connection map yields its keys, every connected server's
    process is killed and its input closed, every request pending on one
    of them is rejected with [Server disconnected] and its timer cleared;
    requests settled before keep their outcome, and the connection objects
    no server name leads to any more are not touched. *)
Theorem disconnectAll_leaves_no_connection
    (servers : list string) (ops : list Op) (order : list string) :
  let c := run JSON_parse ops (new_client servers) in
  list_to_set order = dom (connections c) ->
  let c' := disconnectAll order c in
  connections c' = ∅
  /\ (forall n a conn, get_connection n c = Some (a, conn) ->
        objects c' !! a = Some (end_and_kill conn)
        /\ forall id, is_Some (pendingRequests conn !! id) ->
             settlement id c' = Some (Rejected ServerDisconnected)
             /\ timers c' !! id = None)
  /\ (forall a, ~ live a c -> objects c' !! a = objects c !! a)
  /\ (forall id st, settlement id c = Some st -> settlement id c' = Some st)
  /\ NoDup (settled_ids c').
Proof.
  intros c Hkeys c'.
  assert (Horder : forall n, n ∈ order <-> is_Some (connections c !! n)).
  { intros n. rewrite <- elem_of_dom, <- Hkeys. by rewrite elem_of_list_to_set. }
  assert (I : Inv c) by apply Inv_run, Inv_new.
  destruct (disconnectAll_spec order c I) as (I' & C' & D' & O' & S' & T').
  fold c' in I', C', D', O', S', T'.
  split.
  { apply map_eq. intros n. rewrite C', lookup_empty. case_decide as H; [done|].
    destruct (connections c !! n) as [a|] eqn:E; [|done].
    exfalso. apply H, Horder. eauto. }
  split.
  { intros n a conn G. apply get_connection_Some in G as [Gc Go].
    apply (D' n a conn); [|done..]. apply Horder. eauto. }
  split.
  { intros a Hl. apply O'. intros n _ Hc. apply Hl. by exists n. }
  split; [done|]. apply (inv_nodup _ I').
Qed.

End DisconnectAll.

(** Witness: two servers, disconnected in the order [b], [a]. *)
Lemma disconnectAll_witness :
  connections
    (disconnectAll ["b"; "a"]
       (run parse [OSpawn "a"; OSpawn "b"; OSendRequest "a" "tools/list" (JObj [])]
          (new_client ["a"; "b"]))) = ∅.
Proof.
  destruct (disconnectAll_leaves_no_connection parse ["a"; "b"]
              [OSpawn "a"; OSpawn "b"; OSendRequest "a" "tools/list" (JObj [])]
              ["b"; "a"]) as (H & _).
  - vm_compute. reflexivity.
  - exact H.
Defined.

(** ** Exits, other servers' answers and the sequence of ids *)

Section Exit.
Variable JSON_parse : string -> Result string Json.

(** In every run, the exit of a server's process rejects nothing: the
    listener reports the exit and forgets the connection, so whatever the
    process printed that is delivered after the event is discarded, and a
    request that was pending on it stays unsettled, its timer armed, until
    the timer rejects it with the timeout error. *)
Theorem exit_leaves_pending_requests_to_time_out
    (servers : list string) (ops : list Op) (name : string) (code : Z)
    (a : nat) (conn : ServerConnection) (id : Z) :
  let c := run JSON_parse ops (new_client servers) in
  get_connection name c = Some (a, conn) ->
  is_Some (pendingRequests conn !! id) ->
  let c1 := on_exit name code c in
  get_connection name c1 = None
  /\ events c1 = EvServerExit name code :: events c
  /\ settlement id c1 = None
  /\ (forall data, handleServerData JSON_parse name data c1 = c1)
  /\ exists cb,
       timers c1 !! id = Some cb
       /\ settlement id (timeout_fires id c1)
          = Some (Rejected (RequestTimeout (tc_method cb) (tc_server cb))).
Proof.
  intros c G [p Hp] c1.
  assert (I : Inv c) by apply Inv_run, Inv_new.
  apply get_connection_Some in G as [Gc Go].
  assert (G1 : get_connection name c1 = None).
  { unfold get_connection, c1. simpl. by rewrite lookup_delete_eq. }
  destruct (inv_pending _ I _ _ _ _ Go Hp) as (_ & _ & _ & [[(cb & Hcb & Hc) Hn]|(Hl & _)]);
    [|exfalso; apply Hl; by exists name].
  split; [done|]. split; [done|].
  split.
  { destruct (settlement id c1) as [st|] eqn:E; [|done].
    apply settlement_Some_elem in E. done. }
  split; [intros data; unfold handleServerData; by rewrite G1|].
  exists cb. split; [done|].
  unfold timeout_fires. change (timers c1) with (timers c). rewrite Hcb.
  apply settlement_fresh. done.
Qed.

(** In every run, a server cannot answer for another: a line printed by
    server [nB] that bears the id of a request pending on server [nA]
    settles nothing and changes nothing. *)
Theorem response_from_another_server_is_dropped
    (servers : list string) (ops : list Op) (nA nB : string) (aA aB : nat)
    (connA connB : ServerConnection) (z : Z) (line : string) (response : Json) :
  let c := run JSON_parse ops (new_client servers) in
  get_connection nA c = Some (aA, connA) ->
  get_connection nB c = Some (aB, connB) ->
  nA <> nB ->
  is_Some (pendingRequests connA !! z) ->
  JSON_parse (trim line) = Ok response ->
  prop response "id" = Some (JNum z) ->
  handleLine JSON_parse nB aB c line = c.
Proof.
  intros c GA GB Hne Hp Hparse Hid.
  assert (I : Inv c) by apply Inv_run, Inv_new.
  apply get_connection_Some in GA as [GAc GAo].
  apply get_connection_Some in GB as [GBc GBo].
  assert (pendingRequests connB !! z = None) as HB.
  { destruct (pendingRequests connB !! z) as [p|] eqn:E; [|done].
    exfalso. apply Hne.
    assert (aB = aA) as ->.
    { eapply (pending_unique c aA aB); eauto. by exists nA. }
    by eapply (inv_injective _ I). }
  unfold handleLine. destruct (String.eqb _ _); [done|].
  rewrite Hparse. unfold handleResponse. rewrite Hid, GBo. simpl. rewrite HB.
  by destruct response.
Qed.

Lemma requestId_step_eq c o :
  requestId (step JSON_parse c o)
  = match o with
    | OSendRequest n m p =>
        match (sendRequest n m p c).1 with
        | Ok _ => requestId c + 1
        | Throw _ => requestId c
        end
    | _ => requestId c
    end.
Proof.
  destruct o; simpl; try done.
  - unfold sendRequest. by destruct (get_connection _ c) as [[a conn]|].
  - by rewrite requestId_sendNotification.
  - by rewrite requestId_handleServerData.
  - by rewrite requestId_timeout_fires.
  - by rewrite requestId_disconnectServer.
Qed.

Lemma issued_consecutive ops c :
  let ids := issued JSON_parse ops c in
  ids = map (fun i => requestId c + Z.of_nat i) (seq 1 (length ids))
  /\ requestId (run JSON_parse ops c) = requestId c + Z.of_nat (length ids).
Proof.
  revert c. induction ops as [|o ops IH]; intros c; simpl.
  - split; [done|lia].
  - destruct (IH (step JSON_parse c o)) as [E R]. clear IH.
    unfold run in *. simpl.
    pose proof (requestId_step_eq c o) as Hs.
    assert (forall n, map (fun i => requestId c + 1 + Z.of_nat i) (seq 1 n)
                      = map (fun i => requestId c + Z.of_nat i) (seq 2 n)) as Hshift.
    { intros n. generalize 1%nat. induction n as [|n IHn]; intros j; simpl; [done|].
      f_equal; [lia|apply IHn]. }
    destruct o; try (rewrite Hs in E, R; split; [exact E|exact R]).
    destruct ((sendRequest serverName method params c).1) as [id|e] eqn:Ei.
    + apply sendRequest_id in Ei as [-> _]. rewrite Hs in E, R.
      split.
      * simpl. f_equal; try lia. rewrite E at 1. apply Hshift.
      * rewrite R. simpl length. lia.
    + rewrite Hs in E, R. split; [exact E|exact R].
Qed.

(** In every run the ids [sendRequest] hands out are 1, 2, 3, ... without a
    gap, servers taken together: a call that throws because the server has
    no connection takes no id, and nothing but [sendRequest] moves the
    counter. *)
Theorem request_ids_are_consecutive (servers : list string) (ops : list Op) :
  let ids := issued JSON_parse ops (new_client servers) in
  ids = map Z.of_nat (seq 1 (length ids))
  /\ requestId (run JSON_parse ops (new_client servers)) = Z.of_nat (length ids).
Proof.
  intros ids. destruct (issued_consecutive ops (new_client servers)) as [E R].
  fold ids in E, R. split; [|exact R].
  rewrite E at 1. apply map_ext. intros i. simpl. lia.
Qed.

End Exit.

(** Witness: [fs] exits with a request pending; the timer then runs. *)
Lemma exit_witness :
  settlement 1
    (timeout_fires 1
       (on_exit "fs" 1
          (run parse [OSpawn "fs"; OSendRequest "fs" "tools/list" (JObj [])]
             (new_client ["fs"]))))
  = Some (Rejected (RequestTimeout "tools/list" "fs")).
Proof.
  destruct (exit_leaves_pending_requests_to_time_out parse ["fs"]
              [OSpawn "fs"; OSendRequest "fs" "tools/list" (JObj [])] "fs" 1 0%nat
              {| tools := JArr []; ready := false;
                 pendingRequests := {[ 1 := mkPending 1 1 ]};
                 buffer := EmptyString;
                 stdin := [Request 1 "tools/list" (JObj [])];
                 stdin_ended := false; killed := false |} 1)
    as (_ & _ & _ & _ & cb & Hcb & H).
  - vm_compute. reflexivity.
  - vm_compute. eauto.
  - vm_compute in Hcb. injection Hcb as <-. exact H.
Defined.

(** Two servers; the line server [b] prints bears the id of the request
    pending on [a]. *)
Lemma isolation_witness :
  let c := run parse [OSpawn "a"; OSpawn "b"; OSendRequest "a" "tools/list" (JObj [])]
             (new_client ["a"; "b"]) in
  handleServerData parse "b" (answer 1 "{}") c = c.
Proof.
  intros c.
  pose proof (response_from_another_server_is_dropped parse ["a"; "b"]
                [OSpawn "a"; OSpawn "b"; OSendRequest "a" "tools/list" (JObj [])]
                "a" "b" 0%nat 1%nat
                {| tools := JArr []; ready := false;
                   pendingRequests := {[ 1 := mkPending 1 1 ]};
                   buffer := EmptyString;
                   stdin := [Request 1 "tools/list" (JObj [])];
                   stdin_ended := false; killed := false |}
                new_connection 1
                (json_text "{'jsonrpc':'2.0','id':1,'result':{}}")
                (JObj [("jsonrpc", JStr "2.0"); ("id", JNum 1); ("result", JObj [])])) as H.
  fold c in H.
  change (handleServerData parse "b" (answer 1 "{}") c)
    with (handleLine parse "b" 1%nat (on_object 1%nat (set_buffer EmptyString) c)
            (json_text "{'jsonrpc':'2.0','id':1,'result':{}}")).
  assert (E : on_object 1%nat (set_buffer EmptyString) c = c) by (vm_compute; reflexivity).
  rewrite E. apply H.
  - vm_compute. reflexivity.
  - vm_compute. reflexivity.
  - discriminate.
  - vm_compute. eauto.
  - vm_compute. reflexivity.
  - reflexivity.
Defined.

(** ** Servers that fail to start, and servers connected twice *)

Section Reconnect.
Variable JSON_parse : string -> Result string Json.
Variable env : string -> Server.

Local Abbreviation request := (request JSON_parse env).
Local Abbreviation handshake := (handshake JSON_parse env).
Local Abbreviation connectServer := (connectServer JSON_parse env).

(** [connectServer] on a server that is not ready takes the branch that
    spawns a process. *)
Lemma connectServer_unfold name c :
  in_config name c = true -> isConnected name c = false ->
  connectServer name c
  = let a := new_address c in
    let c1 := spawn name c in
    match startup (env name) with
    | SpawnError message =>
        (RejectedWith (StartFailed message), on_error name message c1)
    | Exited code => handshake name a (on_exit name code c1)
    | Started output =>
        handshake name a
          (fold_left (fun c d => handleServerData JSON_parse name d c) output c1)
    end.
Proof.
  intros Hin Hready. unfold Mcp.connectServer, isConnected in *. rewrite Hin. simpl.
  destruct (get_connection name c) as [[a [t r p b s e k]]|]; [|done].
  simpl in Hready. subst r. done.
Qed.

Lemma connectServer_not_ready name c :
  Inv c -> name ∈ mcpServers c -> isConnected name c = false ->
  connected_after name c (connectServer name c).1 (connectServer name c).2.
Proof.
  intros I Hin Hready.
  rewrite connectServer_unfold; [|unfold in_config; by apply bool_decide_eq_true_2|done].
  simpl.
  pose proof (Inv_spawn name c I) as I1.
  pose proof (new_address_fresh c) as Hfresh.
  destruct (startup (env name)) as [output|message|code].
  - apply handshake_after_spawn.
    + by apply Inv_fold_handleServerData.
    + by rewrite (keeps_servers _ _ (Keeps_fold_handleServerData JSON_parse name output _)).
    + intros n Hn.
      rewrite (keeps_connections _ _ (Keeps_fold_handleServerData JSON_parse name output _)).
      simpl. by rewrite lookup_insert_ne.
    + left.
      rewrite (keeps_connections _ _ (Keeps_fold_handleServerData JSON_parse name output _)).
      simpl. by rewrite lookup_insert_eq.
    + intros e He.
      by apply (keeps_events _ _ (Keeps_fold_handleServerData JSON_parse name output _)).
    + intros a'.
      by rewrite (keeps_objects _ _ (Keeps_fold_handleServerData JSON_parse name output _)).
  - simpl. unfold connected_after.
    split; [by apply Inv_on_error|]. split; [done|].
    split; [intros n Hn; simpl; by rewrite lookup_delete_ne, lookup_insert_ne|].
    split; [intros e He; by right|].
    split; [intros a' Hne; simpl; by rewrite lookup_insert_ne|].
    exists new_connection. simpl. rewrite lookup_insert_eq.
    split; [done|]. split; [done|]. split; [done|]. done.
  - apply handshake_after_spawn.
    + by apply Inv_on_exit.
    + done.
    + intros n Hn. simpl. by rewrite lookup_delete_ne, lookup_insert_ne.
    + right. simpl. by rewrite lookup_delete_eq.
    + intros e He. by right.
    + intros a'. done.
Qed.

(** A server whose process exits before it prints anything: the exit
    listener has removed the connection by the time [initialize] is sent,
    so [connectServer] fails with the error of a server that is not
    connected (nothing in it tells of the exit or its code); the exit is
    reported as a [server-exit] event, no request is written and no id is
    taken. *)
Theorem server_that_exits_at_startup_fails_as_not_connected
    (name : string) (code : Z) (c : MCPClient) :
  in_config name c = true ->
  isConnected name c = false ->
  startup (env name) = Exited code ->
  connectServer name c
  = (RejectedWith (NotConnected name), on_exit name code (spawn name c))
  /\ get_connection name (connectServer name c).2 = None
  /\ events (connectServer name c).2 = EvServerExit name code :: events c
  /\ requestId (connectServer name c).2 = requestId c.
Proof.
  intros Hin Hready Hexit.
  assert (E : connectServer name c
              = (RejectedWith (NotConnected name), on_exit name code (spawn name c))).
  { rewrite connectServer_unfold by done. simpl. rewrite Hexit.
    unfold Mcp.handshake, Mcp.request, sendRequest, get_connection. simpl.
    by rewrite lookup_delete_eq. }
  rewrite E. split; [done|]. simpl.
  split; [unfold get_connection; simpl; by rewrite lookup_delete_eq|]. done.
Qed.

(** A server whose process cannot be spawned is reported twice by
    [connectAll]: once by the [error] listener of the process, with the
    error of the runtime, and once by the [catch] of the loop, with the
    error [connectServer] threw; the loop then goes on to the next server
    with no connection left for this one. *)
Theorem spawn_failure_is_reported_twice
    (name message : string) (names : list string) (results : gmap string Json)
    (c : MCPClient) :
  in_config name c = true ->
  isConnected name c = false ->
  startup (env name) = SpawnError message ->
  let c1 := emit (EvServerError name (StartFailed message))
              (on_error name message (spawn name c)) in
  connectAll_loop JSON_parse env (name :: names) results c
  = connectAll_loop JSON_parse env names results c1
  /\ events c1 = EvServerError name (StartFailed message)
                 :: EvServerError name (Native message) :: events c
  /\ get_connection name c1 = None.
Proof.
  intros Hin Hready Hspawn c1.
  split; [|split].
  - simpl. rewrite connectServer_unfold by done. simpl. by rewrite Hspawn.
  - done.
  - unfold get_connection. simpl. by rewrite lookup_delete_eq.
Qed.

(** In every run, a second [connectServer] for a server the first one
    connected spawns nothing: it returns the tools the first call listed
    and leaves the client as it is. *)
Theorem connectServer_of_a_ready_server_returns_its_tools
    (servers : list string) (ops : list Op) (name : string) (tools : Json)
    (c1 : MCPClient) :
  let c := run JSON_parse ops (new_client servers) in
  name ∈ servers ->
  isConnected name c = false ->
  connectServer name c = (Fulfilled tools, c1) ->
  isConnected name c1 = true
  /\ connectServer name c1 = (Fulfilled tools, c1).
Proof.
  intros c Hin Hready E.
  assert (I : Inv c) by apply Inv_run, Inv_new.
  assert (Hs : mcpServers c = servers) by apply mcpServers_run.
  pose proof (connectServer_not_ready name c I) as H.
  rewrite Hs in H. specialize (H Hin Hready). rewrite E in H. simpl in H.
  destruct H as (I1 & HS & _ & _ & _ & conn' & Ho & _ & _ & Ht).
  destruct (Ht tools eq_refl) as (Hc & Hr & Htools).
  assert (G : get_connection name c1 = Some (new_address c, conn')).
  { apply get_connection_Some. done. }
  split; [unfold isConnected; by rewrite G|].
  unfold Mcp.connectServer, in_config.
  rewrite bool_decide_eq_true_2 by (rewrite HS, Hs; done). simpl. rewrite G.
  destruct conn' as [t r p b s e k]. simpl in Hr, Htools. by rewrite Hr, Htools.
Qed.

(** The exit listener forgets the connection by the server's name: in
    every run, an exit event for a name whose server has since been
    connected (the event of an earlier process of that name) removes the
    entry of the connected server; its process is not killed and its
    input not closed, and every later [callTool] throws. *)
Theorem exit_event_unregisters_a_connected_server
    (servers : list string) (ops : list Op) (name : string) (tools : Json)
    (c1 : MCPClient) (code : Z) :
  let c := run JSON_parse ops (new_client servers) in
  name ∈ servers ->
  isConnected name c = false ->
  connectServer name c = (Fulfilled tools, c1) ->
  let c2 := on_exit name code c1 in
  isConnected name c2 = false
  /\ (exists conn, objects c2 !! new_address c = Some conn
        /\ ready conn = true /\ killed conn = false /\ stdin_ended conn = false)
  /\ (forall toolName args,
        callTool name toolName args c2 = (Throw (NotConnected name), c2)).
Proof.
  intros c Hin Hready E c2.
  assert (I : Inv c) by apply Inv_run, Inv_new.
  assert (Hs : mcpServers c = servers) by apply mcpServers_run.
  pose proof (connectServer_not_ready name c I) as H.
  rewrite Hs in H. specialize (H Hin Hready). rewrite E in H. simpl in H.
  destruct H as (I1 & HS & _ & _ & _ & conn' & Ho & Hend & Hk & Ht).
  destruct (Ht tools eq_refl) as (Hc & Hr & Htools).
  assert (G : get_connection name c2 = None).
  { unfold get_connection, c2. simpl. by rewrite lookup_delete_eq. }
  split; [unfold isConnected; by rewrite G|].
  split; [exists conn'; done|].
  intros toolName args. unfold callTool, sendRequest. by rewrite G.
Qed.

End Reconnect.

(** Witness: a server that exits with code 1 at once. *)
Lemma exits_at_startup_witness :
  connectServer parse (fun _ => crashing_server) "fs" (new_client ["fs"])
  = (RejectedWith (NotConnected "fs"), on_exit "fs" 1 (spawn "fs" (new_client ["fs"]))).
Proof.
  destruct (server_that_exits_at_startup_fails_as_not_connected parse
              (fun _ => crashing_server) "fs" 1 (new_client ["fs"])) as [H _];
    [reflexivity..|exact H].
Defined.

(** Witness: a command that does not exist. *)
Lemma spawn_failure_witness :
  exists c, 
    connectAll parse (fun _ => missing_server) (new_client ["fs"]) = (Fulfilled ∅, c)
    /\ events c = [EvServerError "fs" (StartFailed "spawn nothing ENOENT");
                   EvServerError "fs" (Native "spawn nothing ENOENT")].
Proof.
  destruct (spawn_failure_is_reported_twice parse (fun _ => missing_server)
              "fs" "spawn nothing ENOENT" [] ∅ (new_client ["fs"])) as (H1 & H2 & _);
    [reflexivity..|].
  eexists. split; [exact H1|exact H2].
Defined.

(** Witness: [connectServer] twice on a server that answers. *)
Lemma ready_server_witness :
  exists c1,
    connectServer parse (fun _ => good_server) "fs" (new_client ["fs"])
    = (Fulfilled read_file_tools, c1)
    /\ connectServer parse (fun _ => good_server) "fs" c1 = (Fulfilled read_file_tools, c1).
Proof.
  eexists. split; [vm_compute; reflexivity|].
  refine (proj2 (connectServer_of_a_ready_server_returns_its_tools parse
            (fun _ => good_server) ["fs"] [] "fs" read_file_tools _ _ _ _)).
  - apply (bool_decide_unpack _). vm_compute. exact I.
  - reflexivity.
  - vm_compute. reflexivity.
Defined.

(** Witness: an exit event for [fs] once it is connected. *)
Lemma exit_event_witness :
  isConnected "fs"
    (on_exit "fs" 0
       (connectServer parse (fun _ => good_server) "fs" (new_client ["fs"])).2) = false.
Proof.
  refine (proj1 (exit_event_unregisters_a_connected_server parse
            (fun _ => good_server) ["fs"] [] "fs" read_file_tools _ 0 _ _ _)).
  - apply (bool_decide_unpack _). vm_compute. exact I.
  - reflexivity.
  - vm_compute. reflexivity.
Defined.

(** ** Which servers are ready after [connectAll] *)

Lemma isConnected_status n c c' :
  connections c' !! n = connections c !! n ->
  (forall a, connections c !! n = Some a ->
             status <$> objects c' !! a = status <$> objects c !! a) ->
  isConnected n c' = isConnected n c.
Proof.
  intros Hc Ho. unfold isConnected, get_connection. rewrite Hc.
  destruct (connections c !! n) as [a|] eqn:E; [|done].
  specialize (Ho a eq_refl).
  destruct (objects c' !! a) as [conn'|], (objects c !! a) as [conn|]; try done.
  simpl in Ho. by injection Ho as _ -> _ _.
Qed.

Lemma isConnected_Keeps n c c' : Keeps c c' -> isConnected n c' = isConnected n c.
Proof.
  intros [_ KC KO _]. apply isConnected_status; [by rewrite KC|]. intros a _. apply KO.
Qed.

Section Status.
Variable JSON_parse : string -> Result string Json.
Variable env : string -> Server.

Local Abbreviation request := (request JSON_parse env).
Local Abbreviation handshake := (handshake JSON_parse env).
Local Abbreviation connectServer := (connectServer JSON_parse env).

(** A handshake that fails leaves every connection with the status it had. *)
Lemma handshake_rejected_keeps name a c e :
  Inv c -> (handshake name a c).1 = RejectedWith e -> Keeps c (handshake name a c).2.
Proof.
  intros I. unfold Mcp.handshake.
  destruct (request_spec JSON_parse env name "initialize" initialize_params c I)
    as (I1 & K1 & _).
  destruct (request name "initialize" initialize_params c) as [r1 c1]. simpl in *.
  destruct r1 as [v1|e1|]; [|done..].
  set (c2 := sendNotification name _ _ c1).
  assert (I2 : Inv c2) by (by apply Inv_sendNotification).
  assert (K2 : Keeps c c2).
  { eapply Keeps_trans; [exact K1|apply Keeps_sendNotification]. }
  destruct (request_spec JSON_parse env name "tools/list" (JObj []) c2 I2)
    as (I3 & K3 & _).
  destruct (request name "tools/list" (JObj []) c2) as [r3 c3]. simpl in *.
  destruct r3 as [v3|e3|]; [done| |done].
  intros _. eapply Keeps_trans; eauto.
Qed.

Lemma connectServer_rejected_not_ready name c e :
  Inv c -> name ∈ mcpServers c -> isConnected name c = false ->
  (connectServer name c).1 = RejectedWith e ->
  isConnected name (connectServer name c).2 = false.
Proof.
  intros I Hin Hready.
  rewrite connectServer_unfold; [|unfold in_config; by apply bool_decide_eq_true_2|done].
  simpl.
  pose proof (Inv_spawn name c I) as I1.
  assert (Hnew : isConnected name (spawn name c) = false).
  { unfold isConnected, get_connection, spawn. simpl. by rewrite !lookup_insert_eq. }
  destruct (startup (env name)) as [output|message|code].
  - intros E.
    rewrite (isConnected_Keeps _ _ _ (handshake_rejected_keeps _ _ _ _
               (Inv_fold_handleServerData JSON_parse name output _ I1) E)).
    by rewrite (isConnected_Keeps _ _ _ (Keeps_fold_handleServerData JSON_parse name output _)).
  - intros _. simpl. unfold isConnected, get_connection. simpl. by rewrite lookup_delete_eq.
  - intros E.
    rewrite (isConnected_Keeps _ _ _ (handshake_rejected_keeps _ _ _ _
               (Inv_on_exit name code _ I1) E)).
    unfold isConnected, get_connection. simpl. by rewrite lookup_delete_eq.
Qed.

Lemma isConnected_other name c r c' n :
  Inv c -> connected_after name c r c' -> n <> name ->
  isConnected n c' = isConnected n c.
Proof.
  intros I (_ & _ & HC & _ & HO & _) Hne.
  apply isConnected_status; [by apply HC|].
  intros a Ha. apply HO. intros ->.
  destruct (inv_connections _ I _ _ Ha) as [x Hx].
  by rewrite new_address_fresh in Hx.
Qed.

Lemma isConnected_emit n e c : isConnected n (emit e c) = isConnected n c.
Proof. done. Qed.

Lemma connectAll_loop_ready names done results c results' c' :
  Loop done results c -> NoDup (done ++ names) ->
  (forall n, n ∈ names -> n ∈ mcpServers c) ->
  (forall n, results !! n = None -> isConnected n c = false) ->
  connectAll_loop JSON_parse env names results c = (Fulfilled results', c') ->
  Loop (done ++ names) results' c'
  /\ (forall n, results' !! n = None -> isConnected n c' = false).
Proof.
  revert done results c.
  induction names as [|name names IH]; intros done results c L Hnd Hcfg HR E.
  - simpl in E. injection E as <- <-. rewrite app_nil_r. done.
  - assert (name ∉ done) as Hname.
    { apply NoDup_app in Hnd as (_ & Hd & _). intros Hin. apply (Hd _ Hin). by left. }
    assert (connections c !! name = None) as Hnone.
    { destruct (connections c !! name) as [a|] eqn:Ec; [|done].
      exfalso. apply Hname. eapply loop_connections; eauto. }
    assert (Hready : isConnected name c = false).
    { unfold isConnected, get_connection. by rewrite Hnone. }
    pose proof (loop_inv _ _ _ L) as I.
    assert (Hin : name ∈ mcpServers c) by (apply Hcfg; by left).
    pose proof (connectServer_not_ready JSON_parse env name c I Hin Hready) as Hc.
    pose proof (connectServer_rejected_not_ready name c) as Hrej.
    pose proof (Loop_step name done results c _ _ L Hname Hc) as Hstep.
    pose proof (fun n => isConnected_other name c _ _ n I Hc) as Hother.
    destruct Hc as (_ & HSv & _).
    simpl in E. destruct (connectServer name c) as [[t|e|] c1]; simpl in *; [| |done].
    + destruct (IH (done ++ [name]) _ _ Hstep) as (L' & R').
      * by rewrite <- app_assoc.
      * intros n Hn. rewrite HSv. apply Hcfg. by right.
      * intros n Hn. apply lookup_insert_None in Hn as [Hn Hne].
        rewrite Hother by done. by apply HR.
      * done.
      * split; [|done]. by rewrite <- app_assoc in L'.
    + destruct (IH (done ++ [name]) _ _ Hstep) as (L' & R').
      * by rewrite <- app_assoc.
      * intros n Hn. simpl. rewrite HSv. apply Hcfg. by right.
      * intros n Hn. rewrite isConnected_emit.
        destruct (decide (n = name)) as [->|Hne]; [by eapply Hrej|].
        rewrite Hother by done. by apply HR.
      * done.
      * split; [|done]. by rewrite <- app_assoc in L'.
Qed.


End Status.


(** ** The buffer holds no complete line *)

Lemma buffers_on_object a f c :
  (forall conn, complete (buffer conn) = [] -> complete (buffer (f conn)) = []) ->
  buffers_incomplete c -> buffers_incomplete (on_object a f c).
Proof.
  intros Hf H a' conn'. rewrite lookup_on_object. case_decide.
  - destruct (objects c !! a') as [conn|] eqn:E; [|done]. simpl.
    intros [= <-]. apply Hf. by eapply H.
  - apply H.
Qed.

Lemma buffers_same c c' :
  (forall a, buffer <$> objects c' !! a = buffer <$> objects c !! a) ->
  buffers_incomplete c -> buffers_incomplete c'.
Proof.
  intros E H a conn' Ho. specialize (E a). rewrite Ho in E. simpl in E.
  destruct (objects c !! a) as [conn|] eqn:Ec; [|done].
  injection E as ->. by eapply H.
Qed.

Section Buffering.
Variable JSON_parse : string -> Result string Json.

Lemma buffers_handleServerData n data c :
  buffers_incomplete c -> buffers_incomplete (handleServerData JSON_parse n data c).
Proof.
  intros H. rewrite handleServerData_handleText. unfold handleText.
  destruct (get_connection n c) as [[a conn]|]; [|done].
  eapply buffers_same; [apply fold_handleLine_frame|].
  apply buffers_on_object; [|done]. intros conn0 _. apply complete_partial.
Qed.

Lemma buffers_step c o :
  buffers_incomplete c -> buffers_incomplete (step JSON_parse c o).
Proof.
  intros H. destruct o; simpl.
  - intros a conn. unfold spawn. simpl.
    destruct (decide (a = new_address c)) as [->|Hne].
    + rewrite lookup_insert_eq. by intros [= <-].
    + rewrite lookup_insert_ne by done. apply H.
  - unfold sendRequest. destruct (get_connection _ c) as [[a conn]|]; [|done].
    simpl. by apply buffers_on_object.
  - unfold sendNotification. destruct (get_connection _ c) as [[a conn]|]; [|done].
    by apply buffers_on_object.
  - by apply buffers_handleServerData.
  - unfold timeout_fires. destruct (timers c !! id) as [cb|]; [|done].
    intros a conn. simpl. revert a conn. by apply buffers_on_object.
  - unfold disconnectServer. destruct (get_connection _ c) as [[a conn]|]; [|done].
    intros a' conn'. simpl. revert a' conn'. apply buffers_on_object; [done|].
    intros a' conn'.
    destruct (fold_reject_fields (pending_entries (pendingRequests conn)) c) as (-> & _).
    apply H.
  - done.
  - done.
  - by apply buffers_on_object.
Qed.

Lemma buffers_run ops c :
  buffers_incomplete c -> buffers_incomplete (run JSON_parse ops c).
Proof.
  unfold run. revert c. induction ops as [|o ops IH]; intros c H; simpl; [done|].
  by apply IH, buffers_step.
Qed.

(** In every run the buffer of a connection never holds a line end, and
    a chunk that brings none is added to the buffer and nothing else
    happens: no line is parsed, no request settled and no event emitted
    before the newline that ends the line has arrived. *)
Theorem chunk_without_newline_is_only_buffered
    (servers : list string) (ops : list Op) (name : string) (a : nat)
    (conn : ServerConnection) (data : Buffer) :
  let c := run JSON_parse ops (new_client servers) in
  get_connection name c = Some (a, conn) ->
  complete (toString data) = [] ->
  complete (buffer conn) = []
  /\ handleServerData JSON_parse name data c
     = on_object a (set_buffer (buffer conn +:+ toString data)) c.
Proof.
  intros c G Hdata.
  assert (B : buffers_incomplete c).
  { apply buffers_run. intros a0 conn0 H. simpl in H. by rewrite lookup_empty in H. }
  pose proof G as G'. apply get_connection_Some in G' as [_ Go].
  pose proof (B _ _ Go) as Hb. split; [done|].
  rewrite handleServerData_handleText. unfold handleText. rewrite G.
  pose proof (complete_app_nil _ _ Hb Hdata) as Hc.
  rewrite Hc, (partial_incomplete _ Hc). done.
Qed.

End Buffering.

(** Witness: the first half of a line. *)
Lemma chunk_without_newline_witness :
  handleServerData parse "fs" (buffer_of (json_text "{'method':")) fs_client
  = on_object 0 (set_buffer (json_text "{'method':")) fs_client.
Proof.
  destruct (chunk_without_newline_is_only_buffered parse ["fs"] [OSpawn "fs"] "fs" 0%nat
              new_connection (buffer_of (json_text "{'method':"))) as [_ H].
  - reflexivity.
  - vm_compute. reflexivity.
  - exact H.
Defined.

(** * More of the agent loop *)

(** ** Two facts on [filter] *)

Lemma filter_all {A} (P : A -> Prop) `{!forall x, Decision (P x)} (l : list A) :
  Forall P l -> filter P l = l.
Proof.
  intros Hall. induction Hall as [|x l Hx _ IH]; [done|]. by rewrite filter_cons_True, IH.
Qed.

Lemma filter_ext_elem {A} (P Q : A -> Prop) `{!forall x, Decision (P x)}
    `{!forall x, Decision (Q x)} (l : list A) :
  (forall x, x ∈ l -> P x <-> Q x) -> filter P l = filter Q l.
Proof.
  induction l as [|x l IH]; intros Heq; [done|].
  rewrite !filter_cons.
  rewrite IH by (intros y Hy; apply Heq; by right).
  destruct (decide (P x)) as [Hp|Hp], (decide (Q x)) as [Hq|Hq]; try done.
  - exfalso. apply Hq, (Heq x); [by left|done].
  - exfalso. apply Hp, (Heq x); [by left|done].
Qed.


Section LoopProofs.

Variable World : Type.
Variable JSON_parse : string -> Result string Json.
Variable JSON_stringify : Json -> string.
Variable number_text : Json -> string.
Variable client_chat : Backend.
Variable compress_config : CompressConfig.
Variable registry : list (string * RegisteredTool World).
Variable systemPrompt : string.
Variable config : AgentConfig.

Local Abbreviation run_tool :=
  (run_tool World JSON_parse JSON_stringify number_text registry config).
Local Abbreviation tool_rounds :=
  (tool_rounds World JSON_parse JSON_stringify number_text registry config).
Local Abbreviation handleToolCalls :=
  (handleToolCalls World JSON_parse JSON_stringify number_text registry config).
Local Abbreviation catch_tool := (catch_tool JSON_stringify number_text config).
Local Abbreviation caught := (caught number_text).
Local Abbreviation react :=
  (react World JSON_parse JSON_stringify number_text client_chat registry config).
Local Abbreviation chat :=
  (chat World JSON_parse JSON_stringify number_text client_chat compress_config registry
     systemPrompt config).
Local Abbreviation with_user_turn := (with_user_turn systemPrompt).
Local Abbreviation tools_argument := (tools_argument World registry).

(** The loop over the calls appends turns of tools only. *)
Lemma tool_rounds_appends calls s w :
  exists turns,
    messages (tool_rounds calls s w).1.2 = messages s ++ turns
    /\ Forall loop_turn turns
    /\ iterations (tool_rounds calls s w).1.2 = iterations s.
Proof.
  revert s w. induction calls as [|call calls IH]; intros s w; simpl.
  - exists []. by rewrite app_nil_r.
  - destruct (run_tool call w) as [[result|e] w1].
    + destruct (IH (push (tool_message call result) s) w1) as (turns & Hm & Hf & Hi).
      exists (tool_message call result :: turns). rewrite Hm, Hi. simpl.
      rewrite <- app_assoc. split; [done|]. split; [|done].
      constructor; [by right|done].
    + exists []. by rewrite app_nil_r.
Qed.

(** What the [catch] block of the loop can report, the [catch] block of a
    tool call can put in a result turn. *)
Lemma caught_catch_tool e text :
  caught e = Ok text -> exists result, catch_tool e = Ok result.
Proof.
  unfold Chat.caught, Chat.catch_tool.
  destruct (read_message e) as [message|e']; [|done].
  destruct (ToString number_text message); [|done].
  intros _. destruct (verbose config); eauto.
Qed.

(** The loop over the calls throws nothing when every value a tool throws
    can be reported. *)
Lemma tool_rounds_no_throw calls s w :
  (forall name t args w0 e,
     registry_get World name registry = Some t ->
     (executor World t args w0).1 = Throw e -> exists text, caught e = Ok text) ->
  (tool_rounds calls s w).1.1 = None.
Proof.
  intros Htools. revert s w. induction calls as [|call calls IH]; intros s w; simpl; [done|].
  destruct (run_tool call w) as [[result|e] w1] eqn:E; [apply IH|].
  exfalso. unfold Chat.run_tool, Chat.execute in E.
  assert (forall message, catch_tool (error message) <> Throw e) as Herr.
  { intros message. unfold Chat.catch_tool. simpl. by destruct (verbose config). }
  destruct (JSON_parse _) as [args|e0].
  - destruct (registry_get _ _ _) as [t|] eqn:Eg.
    + destruct (executor World t args w) as [[r|e1] w2] eqn:Ee; [done|].
      destruct (Htools _ t args w e1 Eg) as [text Hc]; [by rewrite Ee|].
      apply caught_catch_tool in Hc as [result Hc]. congruence.
    + injection E as E _. by apply Herr in E.
  - injection E as E _. by apply Herr in E.
Qed.

Lemma react_appends fuel s final w result s' w' :
  react fuel s final w = Some (result, s', w') ->
  (exists appended, messages s' = messages s ++ appended /\ Forall loop_turn appended)
  /\ (iterations s <= iterations s')%nat
  /\ ((iterations s <= maxIterations config)%nat ->
      (iterations s' <= maxIterations config)%nat)
  /\ match result with
     | Ok _ => isRunning s' = false \/ (maxIterations config <= iterations s')%nat
     | Throw e' => exists e, caught e = Throw e'
     end
  /\ ((forall history tools e,
         client_chat history tools = Throw e -> exists text, caught e = Ok text) ->
      (forall name t args w0 e,
         registry_get World name registry = Some t ->
         (executor World t args w0).1 = Throw e -> exists text, caught e = Ok text) ->
      exists text, result = Ok text).
Proof.
  revert s final w. induction fuel as [|fuel IH]; intros s final w; simpl.
  - destruct (isRunning s) eqn:Hr; simpl.
    + destruct (Nat.ltb_spec (iterations s) (maxIterations config)); [done|].
      intros [= <- <- <-]. split; [exists []; by rewrite app_nil_r|].
      split; [done|]. split; [done|]. split; [by right|eauto].
    + intros [= <- <- <-]. split; [exists []; by rewrite app_nil_r|].
      split; [done|]. split; [done|]. split; [by left|eauto].
  - destruct (isRunning s) eqn:Hr; simpl.
    2:{ intros [= <- <- <-]. split; [exists []; by rewrite app_nil_r|].
        split; [done|]. split; [done|]. split; [by left|eauto]. }
    destruct (Nat.ltb_spec (iterations s) (maxIterations config)) as [Hlt|Hge].
    2:{ intros [= <- <- <-]. split; [exists []; by rewrite app_nil_r|].
        split; [done|]. split; [done|]. split; [by right|eauto]. }
    assert (Hstep : forall s2 final2 w2 (extra : list Message),
              messages s2 = messages s ++ extra -> Forall loop_turn extra ->
              iterations s2 = S (iterations s) ->
              react fuel s2 final2 w2 = Some (result, s', w') ->
              (exists appended, messages s' = messages s ++ appended
                                /\ Forall loop_turn appended)
              /\ (iterations s <= iterations s')%nat
              /\ ((iterations s <= maxIterations config)%nat ->
                  (iterations s' <= maxIterations config)%nat)
              /\ match result with
                 | Ok _ => isRunning s' = false \/ (maxIterations config <= iterations s')%nat
                 | Throw e' => exists e, caught e = Throw e'
                 end
              /\ ((forall history tools e,
                     client_chat history tools = Throw e -> exists text, caught e = Ok text) ->
                  (forall name t args w0 e,
                     registry_get World name registry = Some t ->
                     (executor World t args w0).1 = Throw e ->
                     exists text, caught e = Ok text) ->
                  exists text, result = Ok text)).
    { intros s2 final2 w2 extra Hm Hex Hit H.
      apply IH in H as ((appended & Ha & Hf) & H1 & H2 & H3 & H4).
      split.
      { exists (extra ++ appended). rewrite Ha, Hm, <- app_assoc. split; [done|].
        by apply Forall_app. }
      split; [lia|]. split; [intros _; apply H2; lia|done]. }
    destruct (client_chat _ _) as [response|e] eqn:Hchat.
    + destruct (response_tool_calls response) as [[|call calls]|] eqn:Hcalls.
      * apply (Hstep _ _ _ [mkMessage assistant
                              (or_else (response_content response) EmptyString) None None]);
          [done|constructor; [by left|constructor]|done].
      * unfold Chat.handleToolCalls.
        set (s1 := push _ (next_iteration s)).
        destruct (tool_rounds_appends (call :: calls) s1 w) as (turns & Hm & Hf & Hi).
        pose proof (tool_rounds_no_throw (call :: calls) s1 w) as Hnone.
        destruct (tool_rounds (call :: calls) s1 w) as [[thrown s2] w2].
        simpl in Hm, Hi, Hnone.
        assert (Hm2 : messages s2
                      = messages s ++ mkMessage assistant
                                        (or_else (response_content response) EmptyString)
                                        (Some (call :: calls)) None :: turns).
        { rewrite Hm. simpl. by rewrite <- app_assoc. }
        assert (Hf2 : Forall loop_turn
                        (mkMessage assistant
                           (or_else (response_content response) EmptyString)
                           (Some (call :: calls)) None :: turns)).
        { constructor; [by left|done]. }
        destruct thrown as [e|]; [|by apply (Hstep _ _ _ _ Hm2 Hf2)].
        destruct (caught e) as [text|e'] eqn:Hc;
          [by apply (Hstep (stop s2) _ _ _ Hm2 Hf2)|].
        intros [= <- <- <-].
        split; [eauto|]. split; [rewrite Hi; simpl; lia|].
        split; [rewrite Hi; simpl; lia|]. split; [eauto|].
        intros _ Htools. by specialize (Hnone Htools).
      * apply (Hstep _ _ _ [mkMessage assistant
                              (or_else (response_content response) EmptyString) None None]);
          [done|constructor; [by left|constructor]|done].
    + destruct (caught e) as [text|e'] eqn:Hc.
      * apply (Hstep _ _ _ []); [simpl; by rewrite app_nil_r|constructor|done].
      * intros [= <- <- <-].
        split; [exists []; simpl; by rewrite app_nil_r|]. simpl.
        split; [lia|]. split; [lia|]. split; [eauto|].
        intros Hbackend _. destruct (Hbackend _ _ _ Hchat) as [text Ht]. congruence.
Qed.


(** A round in which the backend fails with an error that can be reported
    ends the loop. *)
Lemma react_throw fuel s final w e text :
  isRunning s = true -> (iterations s < maxIterations config)%nat ->
  client_chat (messages s) tools_argument = Throw e ->
  caught e = Ok text ->
  react (S fuel) s final w
  = Some (Ok text,
          {| messages := messages s; iterations := S (iterations s);
             isRunning := false |}, w).
Proof.
  intros Hrun Hit Hchat Hc. simpl. rewrite Hrun.
  destruct (Nat.ltb_spec (iterations s) (maxIterations config)); [|lia]. simpl.
  rewrite Hchat, Hc. by destruct fuel.
Qed.

(** A failure of the backend on the first round is caught: when the
    [message] of what it threw can be read and turned into a string (as
    that of every [Error] can), [chat] returns the text [发生错误: ]
    followed by that string, and the history is left at the user turn,
    with no turn of the assistant; with a bound of one round the fixed
    message is returned in place of the error text. *)
Theorem backend_failure_is_returned_as_text
    (userMessage : string) (s : AgentState) (w : World) (e : Thrown)
    (message : Value) (text : string) :
  let s1 := with_user_turn userMessage s in
  needsCompression JSON_stringify compress_config (messages s1) = false ->
  client_chat (messages s1) tools_argument = Throw e ->
  read_message e = Ok message ->
  ToString number_text message = Ok text ->
  chat userMessage s w
  = match maxIterations config with
    | 0%nat => Some (Ok max_iterations_message,
                     {| messages := messages s1; iterations := 0; isRunning := true |}, w)
    | 1%nat => Some (Ok max_iterations_message,
                     {| messages := messages s1; iterations := 1; isRunning := false |}, w)
    | _ => Some (Ok (error_prefix +:+ text),
                 {| messages := messages s1; iterations := 1; isRunning := false |}, w)
    end.
Proof.
  intros s1 Hc Hchat Hread Htext. unfold Chat.chat. fold s1. rewrite Hc.
  assert (Hcaught : caught e = Ok (error_prefix +:+ text)).
  { unfold Chat.caught. by rewrite Hread, Htext. }
  destruct (maxIterations config) as [|[|n]] eqn:Hmax.
  - simpl. rewrite Hmax. done.
  - rewrite (react_throw _ _ _ _ e (error_prefix +:+ text)); [done|done|simpl; lia|done|done].
  - rewrite (react_throw _ _ _ _ e (error_prefix +:+ text)); [done|done|simpl; lia|done|done].
Qed.

End LoopProofs.

(** ** More on history compression *)

Section MoreCompress.

Variable JSON_stringify : Json -> string.
Variable client_chat : Backend.

Lemma message_chars_nonneg msg : 0 <= message_chars JSON_stringify msg.
Proof. unfold message_chars. destruct (tool_calls msg); lia. Qed.

Lemma fold_chars_app (l : list Message) acc :
  fold_left (fun acc msg => acc + message_chars JSON_stringify msg) l acc
  = acc + fold_left (fun acc msg => acc + message_chars JSON_stringify msg) l 0.
Proof.
  revert acc. induction l as [|m l IH]; intros acc; simpl; [lia|].
  rewrite IH, (IH (0 + _)). lia.
Qed.

Lemma fold_chars_nonneg (l : list Message) :
  0 <= fold_left (fun acc msg => acc + message_chars JSON_stringify msg) l 0.
Proof.
  induction l as [|m l IH]; simpl; [lia|].
  rewrite fold_chars_app. pose proof (message_chars_nonneg m). lia.
Qed.

(** The estimate of a history never goes down when turns are added to
    it, so a history that needs compression needs it until it is
    compressed; the empty history is estimated at 0 tokens. *)
Theorem estimate_grows_with_the_history
    (config : CompressConfig) (messages more : list Message) :
  estimateTokens JSON_stringify [] = 0
  /\ estimateTokens JSON_stringify messages
     <= estimateTokens JSON_stringify (messages ++ more)
  /\ (needsCompression JSON_stringify config messages = true ->
      needsCompression JSON_stringify config (messages ++ more) = true).
Proof.
  assert (H : estimateTokens JSON_stringify messages
              <= estimateTokens JSON_stringify (messages ++ more)).
  { unfold estimateTokens. rewrite fold_left_app, (fold_chars_app more).
    pose proof (fold_chars_nonneg more).
    apply Z.div_le_mono; lia. }
  split; [done|]. split; [done|].
  unfold needsCompression. rewrite !Z.ltb_lt. lia.
Qed.

(** [targetTokens] is never read: two configurations that agree on the
    ceiling and on the number of turns to keep compress every history
    alike. *)
Theorem targetTokens_has_no_effect (config config' : CompressConfig)
    (messages : list Message) :
  maxTokens config = maxTokens config' ->
  keepRecentMessages config = keepRecentMessages config' ->
  needsCompression JSON_stringify config messages
  = needsCompression JSON_stringify config' messages
  /\ compress JSON_stringify client_chat config messages
     = compress JSON_stringify client_chat config' messages.
Proof.
  intros Hm Hk. unfold compress, needsCompression, oldMessages, recentMessages.
  rewrite Hm, Hk. done.
Qed.

Variable config : CompressConfig.

Local Abbreviation compress := (compress JSON_stringify client_chat config).
Local Abbreviation needsCompression := (needsCompression JSON_stringify config).

Lemma conversation_of_compressed (first : option Message) (summary : Message)
    (recent : list Message) :
  (forall m, first = Some m -> is_system m = true) ->
  is_system summary = true ->
  Forall (fun m => is_system m = false) recent ->
  conversationMessages (match first with Some m => [m] | None => [] end
                        ++ [summary] ++ recent) = recent.
Proof.
  intros Hf Hs Hr. unfold conversationMessages.
  rewrite !filter_app.
  assert (filter (fun m => is_system m = false)
            (match first with Some m => [m] | None => [] end) = []) as ->.
  { destruct first as [m|]; [|done].
    rewrite filter_cons_False; [done|]. rewrite (Hf m eq_refl). done. }
  rewrite filter_cons_False by (rewrite Hs; done).
  simpl. by apply filter_all.
Qed.

Lemma compress_nothing_to_fold (messages : list Message) :
  oldMessages config messages = [] -> compress messages = Ok messages.
Proof.
  intros H. unfold Compress.compress. destruct (negb _); [done|].
  cbv zeta. by rewrite H.
Qed.

(** With a number of turns to keep that is not negative, [compress] is
    idempotent: a history it returned is returned as it is when it is
    compressed again, also when its estimate is still above the ceiling
    (the turns kept are by then the whole conversation, and nothing is
    left to fold). *)
Theorem compress_is_idempotent (messages result : list Message) :
  0 <= keepRecentMessages config ->
  compress messages = Ok result ->
  compress result = Ok result.
Proof.
  intros HK H.
  unfold Compress.compress in H.
  destruct (negb (needsCompression messages)) eqn:Hneed.
  { injection H as <-. unfold Compress.compress. by rewrite Hneed. }
  destruct (oldMessages config messages) as [|m0 ms] eqn:Hold.
  { injection H as <-. by apply compress_nothing_to_fold. }
  destruct (generateSummary client_chat (m0 :: ms)) as [summary|e]; [|done].
  injection H as <-.
  apply compress_nothing_to_fold.
  assert (HKpos : 0 < keepRecentMessages config).
  { destruct (Z.eq_dec (keepRecentMessages config) 0) as [E|]; [|lia].
    assert (oldMessages config messages = []) as Hnil; [|congruence].
    unfold oldMessages. rewrite E. unfold slice. change (- 0) with 0. simpl.
    rewrite !Z.min_l by lia. done. }
  assert (Hconv : conversationMessages
                    (match find is_system messages with Some m => [m] | None => [] end
                     ++ [system_message (summary_heading +:+ nl +:+ summary)]
                     ++ recentMessages config messages)
                  = recentMessages config messages).
  { apply conversation_of_compressed.
    - intros m Hm. apply find_some in Hm as [_ Hm]. done.
    - done.
    - unfold recentMessages. rewrite slice_from_last by done.
      apply Forall_drop. unfold conversationMessages.
      apply Forall_forall. intros m Hm. by apply list_elem_of_filter in Hm as [Hm _]. }
  unfold oldMessages at 1.
  change (system_message (summary_heading +:+ nl +:+ summary)
          :: recentMessages config messages)
    with ([system_message (summary_heading +:+ nl +:+ summary)]
          ++ recentMessages config messages).
  rewrite Hconv, slice_but_last by done.
  unfold recentMessages. rewrite slice_from_last by done.
  rewrite length_drop.
  match goal with |- take ?n _ = _ => replace n with 0%nat by lia end. done.
Qed.

End MoreCompress.

(** * The tool registry *)

Import Registry Bridge WebServer.


Section RegistryProofs.
Variable World : Type.

Local Abbreviation Tools := (list (string * RegisteredTool World)).
Local Abbreviation registry_get := (registry_get World).
Local Abbreviation consistent := (consistent World).

Lemma get_map_set name entry (tools : Tools) n :
  registry_get n (map_set World name entry tools)
  = if String.eqb name n then Some entry else registry_get n tools.
Proof.
  induction tools as [|[k t] tools IH]; simpl.
  - done.
  - destruct (String.eqb_spec k name) as [->|Hk]; simpl.
    + destruct (String.eqb_spec name n); done.
    + destruct (String.eqb_spec k n) as [->|Hn].
      * destruct (String.eqb_spec name n) as [->|_]; done.
      * exact IH.
Qed.

Lemma names_map_set name entry (tools : Tools) :
  getNames World (map_set World name entry tools)
  = if has World name tools then getNames World tools else getNames World tools ++ [name].
Proof.
  unfold has, getNames. induction tools as [|[k t] tools IH]; simpl; [done|].
  destruct (String.eqb_spec k name) as [->|Hk]; simpl; [done|].
  rewrite IH. by destruct (Chat.registry_get World name tools).
Qed.

Lemma has_elem name (tools : Tools) : has World name tools = true <-> name ∈ getNames World tools.
Proof.
  unfold has, getNames. induction tools as [|[k t] tools IH]; simpl.
  - split; [done|]. intros H. by apply elem_of_nil in H.
  - destruct (String.eqb_spec k name) as [->|Hk].
    + split; [intros _; by left|done].
    + rewrite IH. rewrite elem_of_cons. split; [by right|]. intros [?|?]; [congruence|done].
Qed.

Lemma get_map_delete name (tools : Tools) n :
  NoDup (getNames World tools) ->
  registry_get n (map_delete World name tools)
  = if String.eqb name n then None else registry_get n tools.
Proof.
  unfold getNames. induction tools as [|[k t] tools IH]; simpl; intros Hnd.
  - by destruct (String.eqb name n).
  - apply NoDup_cons in Hnd as [Hk Hnd].
    destruct (String.eqb_spec k name) as [->|Hkn]; simpl.
    + destruct (String.eqb_spec name n) as [->|_]; [|done].
      destruct (Chat.registry_get World n tools) eqn:E; [|done].
      exfalso. apply Hk. apply (has_elem n tools). unfold has. by rewrite E.
    + rewrite IH by done.
      destruct (String.eqb_spec k n) as [->|_]; [|done].
      by destruct (String.eqb_spec name n) as [->|_].
Qed.

Lemma map_delete_filter name (tools : Tools) :
  NoDup (getNames World tools) ->
  map_delete World name tools = filter (fun e => e.1 <> name) tools.
Proof.
  unfold getNames. induction tools as [|[k t] tools IH]; intros Hnd; [done|].
  cbn [map fst] in Hnd. apply NoDup_cons in Hnd as [Hk Hnd].
  rewrite filter_cons. cbn [map_delete fst].
  destruct (String.eqb_spec k name) as [->|Hkn].
  - rewrite decide_False by (intros H; by apply H).
    symmetry. apply filter_all. apply Forall_forall. intros [k t'] He. simpl. intros ->.
    apply Hk. apply list_elem_of_In, in_map_iff. exists (name, t'). split; [done|].
    by apply list_elem_of_In.
  - rewrite decide_True by done. by rewrite IH.
Qed.

Lemma consistent_map_set name entry (tools : Tools) :
  def_name (definition World entry) = name ->
  consistent tools -> consistent (map_set World name entry tools).
Proof.
  intros Hname [Hnd Hdef]. split.
  - rewrite names_map_set. destruct (has World name tools) eqn:E; [done|].
    apply NoDup_app. split; [done|]. split; [|apply NoDup_singleton].
    intros n Hn Hin. apply list_elem_of_singleton in Hin as ->.
    apply has_elem in Hn. congruence.
  - clear Hnd. induction tools as [|[k t] tools IH]; simpl.
    + constructor; [done|constructor].
    + apply Forall_cons in Hdef as [Hk Hdef].
      destruct (String.eqb_spec k name) as [->|_]; constructor; try done.
      by apply IH.
Qed.

Lemma consistent_filter (P : string * RegisteredTool World -> Prop)
    `{!forall x, Decision (P x)} (tools : Tools) :
  consistent tools -> consistent (filter P tools).
Proof.
  intros [Hnd Hdef]. split.
  - unfold getNames in *. clear Hdef.
    induction tools as [|e tools IH]; [done|].
    simpl in Hnd. apply NoDup_cons in Hnd as [He Hnd].
    rewrite filter_cons. destruct (decide (P e)); [|by apply IH].
    simpl. apply NoDup_cons. split; [|by apply IH].
    intros Hin. apply He.
    apply list_elem_of_In, in_map_iff in Hin as (x & Hx & Hin).
    apply list_elem_of_In, list_elem_of_filter in Hin as [_ Hin].
    apply list_elem_of_In, in_map_iff. exists x. split; [done|]. by apply list_elem_of_In.
  - apply Forall_forall. intros e He. apply list_elem_of_filter in He as [_ He].
    rewrite Forall_forall in Hdef. by apply Hdef.
Qed.

Lemma consistent_call (tools : Tools) c :
  consistent tools -> consistent (call World tools c).
Proof.
  intros H. destruct c; simpl.
  - by apply consistent_map_set.
  - rewrite map_delete_filter by apply H. by apply consistent_filter.
Qed.

Lemma consistent_after calls : consistent (after World calls).
Proof.
  unfold after.
  assert (consistent []) as H by (split; constructor).
  revert H. generalize (@nil (string * RegisteredTool World)).
  induction calls as [|c calls IH]; intros tools H; simpl; [done|].
  by apply IH, consistent_call.
Qed.

(** [register] files the tool under its name: it is the one [get] finds
    and [execute] runs from then on, whatever was registered under the
    name before (a tool of that name is replaced where it stands, the
    list of names and the size unchanged; a new name goes last); every
    other name keeps its tool. *)
Theorem registered_tool_is_found_and_executed
    (tools : Tools) (name description : string) (parameters : Json)
    (executor : ToolExecutor World) :
  let tools' := register World name description parameters executor tools in
  get World name tools'
  = Some (mkTool World (mkToolDefinition name description parameters) executor)
  /\ (forall args w, execute World tools' name args w = executor args w)
  /\ (forall n, n <> name -> get World n tools' = get World n tools)
  /\ getNames World tools'
     = (if has World name tools then getNames World tools
        else getNames World tools ++ [name])
  /\ size World tools' = if has World name tools then size World tools
                         else S (size World tools).
Proof.
  intros tools'.
  assert (G : forall n, get World n tools'
                = if String.eqb name n
                  then Some (mkTool World (mkToolDefinition name description parameters) executor)
                  else get World n tools) by (intros n; apply get_map_set).
  split; [by rewrite G, String.eqb_refl|].
  split.
  { intros args w. unfold execute. fold (get World name tools').
    by rewrite G, String.eqb_refl. }
  split.
  { intros n Hn. rewrite G. by destruct (String.eqb_spec name n). }
  split; [apply names_map_set|].
  unfold size. rewrite <- !(length_map fst). fold (getNames World tools').
  fold (getNames World tools). unfold tools', register. rewrite names_map_set.
  destruct (has World name tools); [done|]. rewrite length_app. simpl. lia.
Qed.

(** Whatever calls of [register] and [unregister] a registry has seen,
    its names are pairwise distinct, and [getDefinitions] lists one
    definition per name, in the order of [getNames], each bearing its
    name: the definitions sent to the model never name a tool twice. *)
Theorem registry_names_are_distinct (calls : list (Call World)) :
  let tools := after World calls in
  NoDup (getNames World tools)
  /\ map def_name (getDefinitions World tools) = getNames World tools
  /\ NoDup (map def_name (getDefinitions World tools)).
Proof.
  intros tools. destruct (consistent_after calls) as [Hnd Hdef]. fold tools in Hnd, Hdef.
  assert (E : map def_name (getDefinitions World tools) = getNames World tools).
  { unfold getDefinitions, getNames. rewrite map_map.
    apply map_ext_Forall. exact Hdef. }
  split; [done|]. split; [done|]. by rewrite E.
Qed.

(** [unregister] on a registry built by calls of [register] and
    [unregister]: it returns whether the name was registered, and leaves
    the registry without that entry and with every other entry in its
    place; [execute] on the name then throws [Tool not found]. *)
Theorem unregistered_tool_is_not_found (calls : list (Call World)) (name : string) :
  let tools := after World calls in
  let tools' := (unregister World name tools).2 in
  ((unregister World name tools).1 = true <-> name ∈ getNames World tools)
  /\ tools' = filter (fun e => e.1 <> name) tools
  /\ has World name tools' = false
  /\ (forall args w,
        execute World tools' name args w
        = (Throw (error ("Tool not found: " +:+ name)), w))
  /\ (forall n, n <> name -> get World n tools' = get World n tools).
Proof.
  intros tools tools'. destruct (consistent_after calls) as [Hnd _]. fold tools in Hnd.
  assert (G : forall n, get World n tools'
                = if String.eqb name n then None else get World n tools).
  { intros n. by apply get_map_delete. }
  split; [apply has_elem|].
  split; [by apply map_delete_filter|].
  split.
  { unfold has. fold (get World name tools'). by rewrite G, String.eqb_refl. }
  split.
  { intros args w. unfold execute. fold (get World name tools').
    by rewrite G, String.eqb_refl. }
  intros n Hn. rewrite G. by destruct (String.eqb_spec name n).
Qed.

End RegistryProofs.

(** ** The log of tool calls *)

Lemma record_call_drop entry logs :
  record_call entry logs = drop (length logs + 1 - 100) (logs ++ [entry]).
Proof.
  unfold record_call. rewrite length_app. simpl.
  destruct (Nat.ltb_spec 100 (length logs + 1)); [done|].
  replace (length logs + 1 - 100)%nat with 0%nat by lia. done.
Qed.

Lemma fold_record_call entries logs :
  exists d,
    fold_left (fun l e => record_call e l) entries logs = drop d (logs ++ entries)
    /\ (d <= length logs + length entries)%nat
    /\ (Nat.min (length logs + length entries) 100 <= length logs + length entries - d)%nat
    /\ ((length logs <= 100)%nat -> d = (length logs + length entries - 100)%nat).
Proof.
  revert logs. induction entries as [|e es IH]; intros logs.
  - exists 0%nat. simpl. rewrite app_nil_r. repeat split; lia.
  - simpl. destruct (IH (record_call e logs)) as (d' & E & Hd & Hlen & Hex). clear IH.
    rewrite record_call_drop in *.
    set (d1 := (length logs + 1 - 100)%nat) in *.
    assert (H1 : length (drop d1 (logs ++ [e])) = (length logs + 1 - d1)%nat).
    { rewrite length_drop, length_app. simpl. lia. }
    rewrite H1 in Hd, Hlen, Hex.
    exists (d' + d1)%nat. split.
    + rewrite E. rewrite <- drop_app_le by (rewrite length_app; simpl; lia).
      rewrite drop_drop, <- app_assoc. f_equal. lia.
    + simpl. split; [lia|]. split; [lia|]. intros Hle. rewrite Hex by lia. lia.
Qed.

Lemma slice_from_nonneg {A} (l : list A) (n : nat) :
  slice_from l (Z.of_nat n) = drop n l.
Proof.
  unfold slice_from, slice.
  destruct (Z.ltb_spec (Z.of_nat n) 0); [lia|].
  destruct (Z.ltb_spec (Z.of_nat (length l)) 0); [lia|].
  rewrite Z.min_id.
  destruct (Nat.le_gt_cases n (length l)).
  - replace (Z.to_nat (Z.min (Z.of_nat n) (Z.of_nat (length l)))) with n by lia.
    apply take_ge. rewrite length_drop. lia.
  - replace (Z.to_nat (Z.min (Z.of_nat n) (Z.of_nat (length l)))) with (length l) by lia.
    rewrite !drop_ge by lia. by rewrite take_nil.
Qed.

Lemma getToolCallLogs_latest limit logs :
  0 < limit ->
  getToolCallLogs (Some limit) logs = drop (length logs - Z.to_nat limit) logs.
Proof. intros H. unfold getToolCallLogs. by apply slice_from_last. Qed.

Lemma getToolCallLogs_default logs :
  getToolCallLogs None logs = drop (length logs - 50) logs.
Proof. unfold getToolCallLogs. by rewrite slice_from_last. Qed.

(** The log holds the latest 100 calls, in the order they ended: whatever
    calls the executors have recorded since the log was empty, it is the
    list of them without all but the last 100. *)
Theorem log_keeps_the_latest_hundred_calls (entries : list ToolCallLog) :
  let logs := fold_left (fun l e => record_call e l) entries [] in
  logs = drop (length entries - 100) entries
  /\ (length logs <= 100)%nat.
Proof.
  intros logs. destruct (fold_record_call entries []) as (d & E & _ & _ & Hd).
  simpl in *. fold logs in E. rewrite Hd in E by lia.
  split; [done|]. rewrite E, length_drop. lia.
Qed.

Section RouteProofs.

Variable World : Type.
Variable JSON_parse : string -> Result string Json.
Variable JSON_stringify : Json -> string.
Variable number_text : Json -> string.
Variable registry : list (string * RegisteredTool World).
Variable logs : World -> list ToolCallLog.

Local Abbreviation post_chat :=
  (post_chat World JSON_parse JSON_stringify number_text registry logs).
Local Abbreviation agent_chat :=
  (agent_chat World JSON_parse JSON_stringify number_text registry).

(** [POST /api/chat] reports the tool calls of the turn by their position
    in the latest 50 log entries.  When the turn's calls are [new] and the
    log held [n] entries before, the reply lists the last
    [50 - min(50, n)] of them at most: all of them as long as the log
    stays within 50 entries, and none at all once the log holds 50
    entries or more, however many calls the turn made. *)
Theorem chat_route_reports_the_calls_that_fit_in_fifty
    (sessionId message : string) (agents : gmap string Agent) (w : World)
    (agent : Agent) (response : string) (agent' : Agent) (w' : World)
    (new : list ToolCallLog) :
  agents !! sessionId = Some agent ->
  agent_chat message agent w = Some (Ok response, agent', w') ->
  logs w' = fold_left (fun l e => record_call e l) new (logs w) ->
  let n := length (logs w) in
  let reported := drop (length new - (50 - Nat.min 50 n)) new in
  post_chat sessionId message agents w
  = Some (Success response reported, <[sessionId := agent']> agents, w')
  /\ ((50 <= n)%nat -> reported = [])
  /\ ((n + length new <= 50)%nat -> reported = new).
Proof.
  intros Hagent Hchat Hlogs n reported. subst n reported.
  split; [|split].
  - unfold WebServer.post_chat. rewrite Hagent, Hchat. do 3 f_equal.
    rewrite slice_from_nonneg, !getToolCallLogs_default, Hlogs.
    destruct (fold_record_call new (logs w)) as (d & -> & Hd & Hlen & _).
    rewrite !length_drop, !drop_drop, length_app.
    rewrite drop_app_ge by lia. f_equal.
    apply (f_equal (fun x => drop x new)). lia.
  - intros Hn. apply drop_ge. lia.
  - intros Hn. replace (length new - _)%nat with 0%nat by lia. done.
Qed.

(** [GET /api/mcp/logs?limit=n] answers with the latest [n] entries for a
    positive [n], with the latest 50 when the limit is missing, not a
    number or zero, and, for a negative [n], with all entries but the
    [-n] oldest. *)
Theorem logs_route_limit (limit : option Z) (w : World) :
  get_mcp_logs World logs limit w
  = match limit with
    | Some n =>
        if 0 <? n then drop (length (logs w) - Z.to_nat n) (logs w)
        else if n =? 0 then drop (length (logs w) - 50) (logs w)
        else drop (Z.to_nat (- n)) (logs w)
    | None => drop (length (logs w) - 50) (logs w)
    end.
Proof.
  unfold get_mcp_logs. destruct limit as [n|]; [|by apply getToolCallLogs_latest].
  destruct (Z.eqb_spec n 0) as [->|Hn]; [by apply getToolCallLogs_latest|].
  destruct (Z.ltb_spec 0 n); [by apply getToolCallLogs_latest|].
  unfold getToolCallLogs.
  replace (- n) with (Z.of_nat (Z.to_nat (- n))) at 1 by lia.
  apply slice_from_nonneg.
Qed.

End RouteProofs.

(** * The bridge *)

Section BridgeProofs.

Variable World : Type.
Variable number_text : Json -> string.
Variable createMCPExecutor : string -> Value -> ToolExecutor World.

Local Abbreviation Tools := (list (string * RegisteredTool World)).
Local Abbreviation register_tool := (register_tool World number_text createMCPExecutor).
Local Abbreviation register_tools := (register_tools World number_text createMCPExecutor).
Local Abbreviation register_server := (register_server World number_text createMCPExecutor).
Local Abbreviation register_results := (register_results World number_text createMCPExecutor).
Local Abbreviation unregisterMCPTools := (unregisterMCPTools World).
Local Abbreviation extends := (extends World).

(** Whether a name is that of an MCP tool. *)
Local Abbreviation mcp_name := (fun name : string => String.prefix "mcp_" name = true).

Lemma fold_unregister (ns : list string) (tools : Tools) :
  consistent World tools ->
  fold_left (fun tools name =>
               if String.prefix "mcp_" name then (unregister World name tools).2
               else tools) ns tools
  = filter (fun e => ~ (mcp_name e.1 /\ e.1 ∈ ns)) tools.
Proof.
  revert tools. induction ns as [|n ns IH]; intros tools Hwf; simpl.
  - symmetry. apply filter_all. apply Forall_forall. intros e _ [_ H].
    by apply elem_of_nil in H.
  - destruct (String.prefix "mcp_" n) eqn:Hn.
    + rewrite (map_delete_filter World) by apply Hwf.
      rewrite IH by (by apply consistent_filter).
      rewrite list_filter_filter. apply list_filter_iff. intros e. split.
      * intros [H1 H2] [Hm Hin]. apply elem_of_cons in Hin as [Hin|Hin]; [done|].
        by apply H1.
      * intros H. split.
        -- intros [Hm Hin]. apply H. split; [done|by right].
        -- intros Heq. apply H. split; [by rewrite Heq|rewrite Heq; by left].
    + rewrite IH by done. apply list_filter_iff. intros e. split.
      * intros H1 [Hm Hin]. apply elem_of_cons in Hin as [Hin|Hin].
        -- cbv beta in Hm. rewrite Hin in Hm. congruence.
        -- by apply H1.
      * intros H [Hm Hin]. apply H. split; [done|by right].
Qed.

Lemma unregisterMCPTools_filter (tools : Tools) :
  consistent World tools ->
  unregisterMCPTools tools = filter (fun e => ~ mcp_name e.1) tools.
Proof.
  intros Hwf. unfold Bridge.unregisterMCPTools. rewrite fold_unregister by done.
  apply filter_ext_elem. intros e He. split.
  - intros H Hm. apply H. split; [done|].
    unfold getNames. apply list_elem_of_In, in_map. by apply list_elem_of_In.
  - intros H [Hm _]. done.
Qed.

(** [unregisterMCPTools] on a registry built by calls of [register] and
    [unregister] removes exactly the tools whose name starts with [mcp_]:
    what is left is the other tools, in the order they were in. *)
Theorem unregisterMCPTools_removes_the_mcp_tools (calls : list (Call World)) :
  let tools := after World calls in
  unregisterMCPTools tools = filter (fun e => ~ mcp_name e.1) tools
  /\ (forall name, name ∈ getNames World (unregisterMCPTools tools) <->
                   name ∈ getNames World tools /\ String.prefix "mcp_" name = false).
Proof.
  intros tools.
  assert (E : unregisterMCPTools tools = filter (fun e => ~ mcp_name e.1) tools)
    by apply unregisterMCPTools_filter, consistent_after.
  split; [done|]. intros name. rewrite E. unfold getNames. split.
  - intros H. apply list_elem_of_In, in_map_iff in H as ([k t] & <- & H).
    apply list_elem_of_In, list_elem_of_filter in H as [Hm H]. simpl in *. split.
    + apply list_elem_of_In, in_map_iff. exists (k, t). split; [done|].
      by apply list_elem_of_In.
    + by destruct (String.prefix "mcp_" k).
  - intros [H Hm]. apply list_elem_of_In, in_map_iff in H as ([k t] & <- & H).
    apply list_elem_of_In, in_map_iff. exists (k, t). split; [done|].
    apply list_elem_of_In, list_elem_of_filter. split; [|by apply list_elem_of_In].
    simpl in *. congruence.
Qed.

(** *** [registerMCPTools] *)

Lemma register_tools_app srv (l1 l2 : list Json) total (tools : Tools) :
  register_tools srv (l1 ++ l2) total tools
  = match register_tools srv l1 total tools with
    | Completed _ total' tools' => register_tools srv l2 total' tools'
    | Threw _ total' tools' => Threw World total' tools'
    end.
Proof.
  revert total tools. induction l1 as [|t l1 IH]; intros total tools; simpl; [done|].
  destruct (register_tool srv t tools); [apply IH|done].
Qed.

Lemma register_results_app (l1 l2 : list (string * Json)) total (tools : Tools) :
  register_results (l1 ++ l2) total tools
  = match register_results l1 total tools with
    | Completed _ total' tools' => register_results l2 total' tools'
    | Threw _ total' tools' => Threw World total' tools'
    end.
Proof.
  revert total tools. induction l1 as [|[srv v] l1 IH]; intros total tools; simpl; [done|].
  destruct (register_server srv v total tools); [apply IH|done].
Qed.

(** A tool [register_tool] throws on. *)
Lemma register_tool_None srv t (tools : Tools) :
  t = JNull \/ prop t "inputSchema" = None \/ prop t "inputSchema" = Some JNull
  \/ converts_value (prop t "name") = false
  \/ converts_value (prop t "description") = false ->
  register_tool srv t tools = None.
Proof.
  unfold Bridge.register_tool, registeredName, description_of, ToString.
  intros [->|[H|[H|[H|H]]]]; [done|..].
  - rewrite H. destruct t; try done; repeat case_match; done.
  - rewrite H. destruct t; try done; repeat case_match; done.
  - destruct (prop t "name") as [j|]; [|done]. simpl in H. rewrite H. by destruct t.
  - destruct (prop t "description") as [j|]; [|done]. simpl in H. rewrite H.
    destruct t; try done; repeat case_match; done.
Qed.

Variable JSON_parse : string -> Result string Json.
Variable env : string -> Server.

Local Abbreviation registerMCPTools :=
  (registerMCPTools World number_text createMCPExecutor JSON_parse env).

(** One tool entry without an [inputSchema] (or that is [null]), or whose
    name or description cannot be converted to a string, ends the
    registration without a word: the [TypeError] is caught, and
    [registerMCPTools] returns the count reached, having registered the
    tools listed before the entry and none of those listed after it, by
    the same server or by the servers that come after. *)
Theorem malformed_tool_ends_the_registration
    (c c' : MCPClient) (results : gmap string Json) (tools tools' : Tools)
    (earlier later : list (string * Json)) (srv : string)
    (good rest : list Json) (bad : Json) (total : nat) :
  connectAll JSON_parse env c = (Fulfilled results, c') ->
  entries (mcpServers c) results
  = earlier ++ (srv, JArr (good ++ bad :: rest)) :: later ->
  register_results (earlier ++ [(srv, JArr good)]) 0 tools = Completed World total tools' ->
  bad = JNull \/ prop bad "inputSchema" = None \/ prop bad "inputSchema" = Some JNull
  \/ converts_value (prop bad "name") = false
  \/ converts_value (prop bad "description") = false ->
  registerMCPTools c tools = (Fulfilled total, tools', c').
Proof.
  intros Hc He Hgood Hbad. unfold Bridge.registerMCPTools. rewrite Hc, He.
  rewrite register_results_app in Hgood |- *.
  destruct (register_results earlier 0 tools) as [t1 tools1|t1 tools1]; [|done].
  simpl in *. rewrite register_tools_app.
  destruct (register_tools srv good t1 tools1) as [t2 tools2|t2 tools2]; [|done].
  injection Hgood as <- <-. simpl.
  by rewrite register_tool_None.
Qed.

(** *** Registering and unregistering *)

Lemma prefix_mcp s : String.prefix "mcp_" ("mcp_" +:+ s) = true.
Proof.
  change ("mcp_" +:+ s) with (String "m" (String "c" (String "p" (String "_" s)))).
  simpl. repeat (destruct (ascii_dec _ _); [|done]). by destruct s.
Qed.

Lemma map_set_app name entry (base m : Tools) :
  name ∉ getNames World base ->
  map_set World name entry (base ++ m) = base ++ map_set World name entry m.
Proof.
  unfold getNames. induction base as [|[k t] base IH]; intros Hn; simpl; [done|].
  simpl in Hn. apply not_elem_of_cons in Hn as [Hne Hn].
  destruct (String.eqb_spec k name) as [->|_]; [done|]. by rewrite IH.
Qed.

Lemma extends_map_set name entry (base tools : Tools) :
  Forall (fun n => String.prefix "mcp_" n = false) (getNames World base) ->
  mcp_name name -> extends base tools ->
  extends base (map_set World name entry tools)
  /\ (length (map_set World name entry tools) <= S (length tools))%nat.
Proof.
  intros Hbase Hname (m & -> & Hm). split.
  - exists (map_set World name entry m). split.
    + apply map_set_app. intros Hin. rewrite Forall_forall in Hbase.
      apply Hbase in Hin. congruence.
    + clear Hbase. induction m as [|[k t] m IH]; simpl.
      * constructor; [done|constructor].
      * apply Forall_cons in Hm as [Hk Hm].
        destruct (String.eqb_spec k name) as [->|_]; constructor; try done.
        by apply IH.
  - generalize (base ++ m). intros l. induction l as [|[k t] l IH]; simpl; [lia|].
    destruct (String.eqb k name); simpl; lia.
Qed.

Lemma register_tool_extends srv t (base tools tools' : Tools) :
  Forall (fun n => String.prefix "mcp_" n = false) (getNames World base) ->
  consistent World tools -> extends base tools ->
  register_tool srv t tools = Some tools' ->
  consistent World tools' /\ extends base tools'
  /\ (length tools' <= S (length tools))%nat.
Proof.
  intros Hbase Hwf Hext H.
  assert (exists name description parameters executor,
            mcp_name name
            /\ tools' = register World name description parameters executor tools)
    as (name & description & parameters & executor & Hname & ->).
  { unfold Bridge.register_tool in H.
    destruct (registeredName number_text srv t) as [name|] eqn:En.
    2:{ by destruct t. }
    assert (mcp_name name) as Hname.
    { unfold registeredName in En. destruct (ToString _ _); [|done].
      injection En as <-. apply prefix_mcp. }
    destruct t; try done;
      (destruct (description_of _ _ _); try done;
       destruct (prop _ "inputSchema") as [schema|]; try done;
       destruct schema; try done; injection H as <-;
       do 4 eexists; (split; [exact Hname|reflexivity])). }
  unfold register. split; [by apply consistent_map_set|].
  by apply extends_map_set.
Qed.

Lemma register_tools_extends srv items total (base tools : Tools) :
  Forall (fun n => String.prefix "mcp_" n = false) (getNames World base) ->
  consistent World tools -> extends base tools ->
  let p := register_tools srv items total tools in
  consistent World (registry_of World p) /\ extends base (registry_of World p)
  /\ (total <= count_of World p)%nat
  /\ (length (registry_of World p) + total <= length tools + count_of World p)%nat.
Proof.
  intros Hbase. revert total tools.
  induction items as [|t items IH]; intros total tools Hwf Hext; cbv zeta; simpl.
  - (split; [done|]; split; [done|]; split; lia).
  - destruct (register_tool srv t tools) as [tools1|] eqn:E; simpl.
    + destruct (register_tool_extends _ _ _ _ _ Hbase Hwf Hext E) as (W1 & E1 & L1).
      destruct (IH (S total) tools1 W1 E1) as (W2 & E2 & T2 & L2).
      (split; [done|]; split; [done|]; split; lia).
    + (split; [done|]; split; [done|]; split; lia).
Qed.

Lemma register_results_extends results total (base tools : Tools) :
  Forall (fun n => String.prefix "mcp_" n = false) (getNames World base) ->
  consistent World tools -> extends base tools ->
  let p := register_results results total tools in
  consistent World (registry_of World p) /\ extends base (registry_of World p)
  /\ (total <= count_of World p)%nat
  /\ (length (registry_of World p) + total <= length tools + count_of World p)%nat.
Proof.
  intros Hbase. revert total tools.
  induction results as [|[srv v] results IH]; intros total tools Hwf Hext; cbv zeta; simpl.
  - (split; [done|]; split; [done|]; split; lia).
  - assert (Hs : let p := register_server srv v total tools in
              consistent World (registry_of World p) /\ extends base (registry_of World p)
              /\ (total <= count_of World p)%nat
              /\ (length (registry_of World p) + total <= length tools + count_of World p)%nat).
    { unfold Bridge.register_server. cbv zeta.
      destruct v as [| | | |s|items|]; try (simpl; (split; [done|]; split; [done|]; split; lia)).
      - destruct s; simpl; (split; [done|]; split; [done|]; split; lia).
      - by apply register_tools_extends. }
    destruct (register_server srv v total tools) as [t1 tools1|t1 tools1]; simpl in *.
    + destruct Hs as (W1 & E1 & T1 & L1).
      destruct (IH t1 tools1 W1 E1) as (W2 & E2 & T2 & L2).
      (split; [done|]; split; [done|]; split; lia).
    + done.
Qed.

(** When no tool of the registry has a name that starts with [mcp_],
    [unregisterMCPTools] undoes [registerMCPTools]: every tool it
    registered bears such a name, and removing them gives the registry
    back, entry for entry.  The count returned tells how many tools were
    registered, not how many names were added: two tools whose servers
    and names make up the same registered name share one entry. *)
Theorem unregisterMCPTools_undoes_registerMCPTools
    (calls : list (Call World)) (c c' : MCPClient) (total : nat) (tools' : Tools) :
  let tools := after World calls in
  Forall (fun n => String.prefix "mcp_" n = false) (getNames World tools) ->
  registerMCPTools c tools = (Fulfilled total, tools', c') ->
  unregisterMCPTools tools' = tools
  /\ (forall name, name ∈ getNames World tools' ->
        name ∈ getNames World tools \/ String.prefix "mcp_" name = true)
  /\ (size World tools' <= size World tools + total)%nat.
Proof.
  intros tools Hbase. unfold Bridge.registerMCPTools.
  destruct (connectAll JSON_parse env c) as [[results|e|] c1]; [| |done].
  2:{ intros [= <- <- <-].
      split; [|split; [intros; by left|unfold size; lia]].
      rewrite unregisterMCPTools_filter by apply consistent_after.
      apply filter_all. apply Forall_forall. intros [k t] He. simpl.
      rewrite Forall_forall in Hbase. rewrite (Hbase k); [done|].
      unfold getNames. apply list_elem_of_In, in_map_iff. exists (k, t).
      split; [done|]. by apply list_elem_of_In. }
  destruct (register_results_extends (entries (mcpServers c) results) 0 tools tools Hbase)
    as (W & (m & E & Hm) & _ & L).
  { apply consistent_after. }
  { exists []. split; [by rewrite app_nil_r|constructor]. }
  intros [= <- <- <-].
  split; [|split].
  - rewrite unregisterMCPTools_filter by done. rewrite E, filter_app.
    rewrite (filter_all _ tools).
    + assert (filter (fun e : string * RegisteredTool World => ~ mcp_name e.1) m = []) as ->;
        [|by rewrite app_nil_r].
      clear E. induction Hm as [|e m He _ IH]; [done|].
      rewrite filter_cons_False by (intros H; by apply H). done.
    + apply Forall_forall. intros [k t] He. simpl.
      rewrite Forall_forall in Hbase. rewrite (Hbase k); [done|].
      unfold getNames. apply list_elem_of_In, in_map_iff. exists (k, t).
      split; [done|]. by apply list_elem_of_In.
  - intros name. rewrite E. unfold getNames. rewrite map_app, elem_of_app.
    intros [H|H]; [by left|right].
    apply list_elem_of_In, in_map_iff in H as (e & <- & H).
    rewrite Forall_forall in Hm. apply Hm. by apply list_elem_of_In.
  - unfold size. lia.
Qed.

End BridgeProofs.

(** ** Witnesses *)

(** Witness: a server that lists [read], a tool without [inputSchema], and
    [write]: only [read] is registered. *)
Lemma malformed_tool_witness :
  exists tools' c',
    registerMCPTools nat Chat.no_number pong_executor parse (fun _ => careless_server)
      (new_client ["fs"]) []
    = (Fulfilled 1%nat, tools', c')
    /\ getNames nat tools' = ["mcp_fs_read"].
Proof.
  eexists. eexists. split.
  - eapply (malformed_tool_ends_the_registration nat Chat.no_number pong_executor parse
              (fun _ => careless_server) (new_client ["fs"]) _ _ [] _ [] [] "fs"
              [JObj [("name", JStr "read"); ("inputSchema", JObj [])]]
              [JObj [("name", JStr "write"); ("inputSchema", JObj [])]]
              (JObj [("name", JStr "broken")]) 1%nat).
    + vm_compute. reflexivity.
    + vm_compute. reflexivity.
    + vm_compute. reflexivity.
    + right. left. reflexivity.
  - vm_compute. reflexivity.
Defined.

(** Witness: the built-in [echo] and the two tools of a server. *)
Lemma unregister_undoes_register_witness :
  exists tools' c',
    registerMCPTools nat Chat.no_number pong_executor parse (fun _ => tidy_server)
      (new_client ["fs"]) (after nat builtin_calls)
    = (Fulfilled 2%nat, tools', c')
    /\ getNames nat tools' = ["echo"; "mcp_fs_read"; "mcp_fs_write"]
    /\ unregisterMCPTools nat tools' = after nat builtin_calls.
Proof.
  eexists. eexists. split; [vm_compute; reflexivity|]. split; [vm_compute; reflexivity|].
  refine (proj1 (unregisterMCPTools_undoes_registerMCPTools nat Chat.no_number pong_executor
                   parse (fun _ => tidy_server) builtin_calls (new_client ["fs"]) _ 2%nat _ _ _)).
  - vm_compute. repeat constructor.
  - vm_compute. reflexivity.
Defined.

(** Witness: a turn that calls the logging tool once, on an empty log. *)
Lemma chat_route_witness :
  exists agents,
    post_chat (list ToolCallLog) parse no_stringify no_number [("echo", logging_echo)]
      (fun w => w)
      "s1" "call echo" {[ "s1" := session ]} []
    = Some (Success "done" [logged], agents, [logged]).
Proof.
  eexists.
  refine (proj1 (chat_route_reports_the_calls_that_fit_in_fifty (list ToolCallLog) parse
                   no_stringify no_number [("echo", logging_echo)] (fun w => w)
                   "s1" "call echo" {[ "s1" := session ]} [] session "done" _ [logged]
                   [logged] _ _ _)).
  - vm_compute. reflexivity.
  - vm_compute. reflexivity.
  - vm_compute. reflexivity.
Defined.


(** Witness: a backend that fails, under the default bound of 20 rounds. *)
Lemma backend_failure_witness :
  chat nat parse no_stringify no_number fails DEFAULT_CONFIG echo_registry
    "You are an agent." default_agent "hello" fresh 0%nat
  = Some (Ok (error_prefix +:+ "API error: 500"),
          {| messages := [system_message "You are an agent."; user_message "hello"];
             iterations := 1; isRunning := false |}, 0%nat).
Proof.
  rewrite (backend_failure_is_returned_as_text nat parse no_stringify no_number fails
             DEFAULT_CONFIG echo_registry "You are an agent." default_agent "hello" fresh
             0%nat (error "API error: 500") (Some (JStr "API error: 500"))
             "API error: 500");
    vm_compute; reflexivity.
Defined.

(** A backend that throws [null]: reading [error.message] in the [catch]
    block of the loop throws a [TypeError], and [chat] throws it. *)
Lemma backend_that_throws_null_makes_chat_throw :
  chat nat parse no_stringify no_number throws_null DEFAULT_CONFIG echo_registry
    "You are an agent." default_agent "hello" fresh 0%nat
  = Some (Throw (error "Cannot read properties of null (reading 'message')"),
          {| messages := [system_message "You are an agent."; user_message "hello"];
             iterations := 1; isRunning := true |}, 0%nat).
Proof. vm_compute. reflexivity. Qed.

(** Witness: the same ceiling and turns to keep, another target. *)
Lemma targetTokens_witness :
  compress no_stringify answers_hi
    {| maxTokens := 0; targetTokens := 8000; keepRecentMessages := 4 |} compressed_once
  = compress no_stringify answers_hi tight compressed_once.
Proof.
  apply (targetTokens_has_no_effect no_stringify answers_hi
           {| maxTokens := 0; targetTokens := 8000; keepRecentMessages := 4 |} tight
           compressed_once); reflexivity.
Defined.

(** Witness: a history that changes when compressed, and is still above
    the ceiling afterwards. *)
Lemma compress_idempotent_witness :
  exists result,
    compress no_stringify answers_hi tight compressed_once = Ok result
    /\ result <> compressed_once
    /\ needsCompression no_stringify tight result = true
    /\ compress no_stringify answers_hi tight result = Ok result.
Proof.
  eexists. split; [vm_compute; reflexivity|]. split; [discriminate|].
  split; [vm_compute; reflexivity|].
  apply (compress_is_idempotent no_stringify answers_hi tight compressed_once).
  - vm_compute. discriminate.
  - vm_compute. reflexivity.
Defined.
